(** * wsh: a shallow embedding of the custom Unix shell [wsh.c]

    The interpreter is single-threaded; its state is a handful of globals
    (the history array with its count, capacity and recording flag, the
    table of local variables) together with the process environment and the
    working directory.  The embedding threads that state explicitly, records
    what the interpreter prints and which system calls it issues in a trace,
    and takes the answers of the operating system (fork, pipe, chdir,
    realloc) from an oracle.

    Conventions.
    - C strings are modelled by [string]; they contain no NUL character.
    - [int] values are modelled by [Z]; the only place where an [int] is
      computed from unbounded data is [atoi], whose glibc behaviour
      (saturating [strtol], then truncation to 32 bits) is written out.
    - A NULL [char *] is [None]; a NULL-terminated [argv] is a [list string].
    - [strdup] is assumed to succeed, as the source assumes.
    - The environment is the list of the strings of [environ]; [getenv],
      [setenv] and [unsetenv] are glibc's, which compare a name with the
      text of a string up to an equals sign and refuse to set or unset a
      name that is empty or holds an equals sign.
    - A child process is described by what it does before [execvp]: the
      redirections, the entries of the descriptor array it closes, and its
      argument vector.  What the program it executes does is outside the
      model, and so is what [fgets] returns: the lines read are an input. *)

From Stdlib Require Import String Ascii ZArith List Lia Bool DecimalString.
Import ListNotations.
Local Open Scope string_scope.
Local Open Scope Z_scope.

(** ** Constants of [wsh.c] *)

Definition MAX_LINE_LENGTH : nat := 1024.
Definition MAX_ARGS : nat := 128.
Definition MAX_HISTORY : Z := 5.
Definition MAX_LOCAL_VARS : nat := 128.
Definition EXIT_SUCCESS : Z := 0.
Definition EXIT_FAILURE : Z := 1.

(** ** The part of the C library the shell relies on *)

Module Libc.

Definition TAB : ascii := "009"%char.
Definition LF : ascii := "010"%char.
Definition VT : ascii := "011"%char.
Definition FF : ascii := "012"%char.
Definition CR : ascii := "013"%char.

(** The one-character string "\n". *)
Definition nl : string := String LF "".

(** Membership of a character in a delimiter set given as a C string. *)
Fixpoint is_delim (delims : string) (c : ascii) : bool :=
  match delims with
  | "" => false
  | String d ds => Ascii.eqb c d || is_delim ds c
  end.

(** [strtok] first skips the delimiters in front of the token ... *)
Fixpoint skip_delims (delims : string) (s : string) : string :=
  match s with
  | "" => ""
  | String c r => if is_delim delims c then skip_delims delims r else s
  end.

(** ... then cuts the token at the next delimiter.  The second component
    is the position saved for the following call: just after the
    delimiter that was overwritten with NUL, or the end of the string. *)
Fixpoint span_token (delims : string) (s : string) : string * string :=
  match s with
  | "" => ("", "")
  | String c r =>
      if is_delim delims c then ("", r)
      else let (t, rest) := span_token delims r in (String c t, rest)
  end.

(** One call of [strtok]: [None] is the NULL result; [Some (tok, rest)]
    gives the token and the string a call [strtok(NULL, _)] resumes at. *)
Definition strtok (delims : string) (s : string) : option (string * string) :=
  match skip_delims delims s with
  | "" => None
  | s' => Some (span_token delims s')
  end.

(** [strspn(s, accept) == strlen(s)]. *)
Fixpoint strspn_all (accept : string) (s : string) : bool :=
  match s with
  | "" => true
  | String c r => is_delim accept c && strspn_all accept r
  end.

(** [strchr(s, c) != NULL]. *)
Fixpoint strchr (s : string) (c : ascii) : bool :=
  match s with
  | "" => false
  | String d r => Ascii.eqb d c || strchr r c
  end.

(** [strncpy(dst, src, n)] into a zero-initialised buffer of more than [n]
    bytes: the first [n] characters of [src]. *)
Definition strncpy (n : nat) (src : string) : string := substring 0 n src.

(** The characters [isspace] accepts in the C locale. *)
Definition whitespace : string :=
  String " " (String TAB (String LF (String VT (String FF (String CR ""))))).

Definition is_digit (c : ascii) : bool :=
  ((48 <=? nat_of_ascii c) && (nat_of_ascii c <=? 57))%nat.

Fixpoint digits_value (acc : Z) (s : string) : Z :=
  match s with
  | "" => acc
  | String c r =>
      if is_digit c
      then digits_value (10 * acc + (Z.of_nat (nat_of_ascii c) - 48)) r
      else acc
  end.

Definition LONG_MAX : Z := 2 ^ 63 - 1.
Definition LONG_MIN : Z := - 2 ^ 63.

(** [strtol(s, NULL, 10)]: leading white space, an optional sign, the
    longest run of digits, saturating at the bounds of [long]. *)
Definition strtol (s : string) : Z :=
  match skip_delims whitespace s with
  | String "-" r => Z.max LONG_MIN (- digits_value 0 r)
  | String "+" r => Z.min LONG_MAX (digits_value 0 r)
  | s' => Z.min LONG_MAX (digits_value 0 s')
  end.

(** Conversion of a [long] to [int]: reduction modulo 2^32 into the
    signed range. *)
Definition int_of_long (z : Z) : Z :=
  (z + 2 ^ 31) mod 2 ^ 32 - 2 ^ 31.

(** glibc's [atoi] is [(int) strtol(s, NULL, 10)]. *)
Definition atoi (s : string) : Z := int_of_long (strtol s).

(** The text [printf] produces for [%d]. *)
Definition fmt_d (z : Z) : string := NilZero.string_of_int (Z.to_int z).

End Libc.
Import Libc.

(** ** What the interpreter does to the outside world *)

(** An entry of the array [pipefds] of [execute_piped_commands] as a
    process finds it: the number the call [pipe(pipefds + 2 * k)] stored
    for the read or for the write end, or, when no call has written the
    entry, whatever the stack held. *)
Inductive Slot : Type :=
| ReadEnd (k : nat)
| WriteEnd (k : nat)
| Unwritten.

(** The program a child process turns into: where its standard streams are
    redirected (the index of the pipe whose read or write end is passed to
    [dup2] and then closed, [None] for the inherited stream), the entries
    of [pipefds] the loop after the redirections hands to [close], in the
    order of the loop, and the argument vector it hands to [execvp].  The
    child of a single command closes nothing. *)
Record Child : Type := mkChild {
  child_stdin : option nat;
  child_stdout : option nat;
  child_closes : list Slot;
  child_argv : list string
}.

Inductive Event : Type :=
| Stdout (text : string)            (* printf *)
| Stderr (text : string)            (* fprintf(stderr, ...) *)
| Perror (msg : string)             (* perror(msg) *)
| PipeCreated (i : nat)             (* pipe(pipefds + 2 * i) succeeded *)
| Fork (pid : Z) (c : Child)        (* fork() returned pid > 0 in the parent *)
| WaitPid (pid : Z)                 (* waitpid(pid, &status, 0) *)
| Wait.                             (* wait(NULL) *)

(** The answers of the operating system.  Each may depend on everything the
    interpreter has done so far. *)
Record OS : Type := mkOS {
  os_fork : list Event -> option positive;       (* None: fork() < 0 *)
  os_pipe : list Event -> bool;                  (* false: pipe() < 0 *)
  os_chdir : list string -> string -> bool;      (* false: chdir() != 0 *)
  os_realloc : list Event -> Z -> bool           (* false: realloc() == NULL *)
}.

(** ** The history ring *)

Record History : Type := mkHistory {
  history : list string;              (* history[0 .. current_history_count-1] *)
  history_capacity : Z;
  add_to_history_enabled : bool
}.

Definition current_history_count (h : History) : Z :=
  Z.of_nat (length (history h)).

(** The globals as [main] finds them. *)
Definition initial_history : History :=
  {| history := []; history_capacity := MAX_HISTORY; add_to_history_enabled := true |}.

Definition with_entries (l : list string) (h : History) : History :=
  {| history := l;
     history_capacity := history_capacity h;
     add_to_history_enabled := add_to_history_enabled h |}.

Definition with_enabled (b : bool) (h : History) : History :=
  {| history := history h;
     history_capacity := history_capacity h;
     add_to_history_enabled := b |}.

Definition with_capacity (c : Z) (h : History) : History :=
  {| history := history h;
     history_capacity := c;
     add_to_history_enabled := add_to_history_enabled h |}.

(** [history[i]] for an index inside the stored entries. *)
Definition history_at (h : History) (i : Z) : string :=
  nth (Z.to_nat i) (history h) "".

(** [add_to_history].  [None] marks undefined behaviour: with a full ring of
    capacity zero the source frees [history[0]] and moves [-1] pointers, and
    with more entries than capacity it writes past the array. *)
Definition add_to_history (cmd : string) (h : History) : option History :=
  if negb (add_to_history_enabled h) || (cmd =? "")%string
     || strspn_all whitespace cmd
  then Some h
  else if (current_history_count h >? 0)
          && (history_at h (current_history_count h - 1) =? cmd)%string
  then Some h
  else
    let evicted :=
      if current_history_count h =? history_capacity h
      then match history h with
           | [] => None
           | _ :: rest => Some (with_entries rest h)
           end
      else Some h in
    match evicted with
    | None => None
    | Some h1 =>
        if current_history_count h1 <? history_capacity h1
        then Some (with_entries (history h1 ++ [cmd]) h1)
        else None
    end.

(** The eviction loop of [set_history_size]:
    [while (current_history_count > newSize)] drop [history[0]]. *)
Fixpoint evict_oldest_until (newSize : Z) (l : list string) : list string :=
  match l with
  | [] => []
  | _ :: rest =>
      if Z.of_nat (length l) >? newSize
      then evict_oldest_until newSize rest
      else l
  end.

(** [set_history_size], with what it prints. *)
Definition set_history_size (os : OS) (tr : list Event) (newSize : Z)
    (h : History) : History * list Event :=
  if newSize <? 0 then (h, [Stderr ("Invalid history size." ++ nl)])
  else
    let h1 := with_enabled (negb (newSize =? 0)) h in
    let h2 := with_entries (evict_oldest_until newSize (history h1)) h1 in
    if negb (os_realloc os tr newSize) && (newSize >? 0)
    then (h2, [Perror "Unable to resize history"])
    else
      let h3 := with_capacity newSize h2 in
      let h4 :=
        if current_history_count h3 >? newSize
        then with_entries (firstn (Z.to_nat newSize) (history h3)) h3
        else h3 in
      (h4, []).

(** [print_history]: the loop runs [i] from [current_history_count - 1]
    down to [0]; [print_history_from h n] is its last [n] iterations. *)
Fixpoint print_history_from (h : History) (n : nat) : list Event :=
  match n with
  | O => []
  | S i =>
      Stdout (fmt_d (current_history_count h - Z.of_nat i) ++ ") "
              ++ history_at h (Z.of_nat i) ++ nl)
      :: print_history_from h i
  end.

Definition print_history (h : History) : list Event :=
  if current_history_count h =? 0 then []
  else print_history_from h (length (history h)).

(** ** The variable store and the process environment *)

Record LocalVar : Type := mkLocalVar {
  name : string;
  value : string
}.

(** The first index [i < localVarCount] with
    [strcmp(localVars[i].name, name) == 0]. *)
Fixpoint find_local (vars : list LocalVar) (n : string) : option nat :=
  match vars with
  | [] => None
  | v :: rest =>
      if (name v =? n)%string then Some O
      else option_map S (find_local rest n)
  end.

(** The environment: the strings of [environ], which [setenv] writes as
    [NAME=VALUE]. *)
Definition Environ : Type := list string.

(** The test glibc applies to a string [e] of [environ] for the name [n]:
    [strncmp(e, n, strlen(n)) == 0 && e[strlen(n)] == '=']; the result is
    the text behind that equals sign. *)
Fixpoint env_match (n e : string) : option string :=
  match n, e with
  | "", String c v => if Ascii.eqb c "=" then Some v else None
  | String a n', String b e' => if Ascii.eqb a b then env_match n' e' else None
  | _, "" => None
  end.

(** The loop of [getenv] over [environ]. *)
Fixpoint env_lookup (env : Environ) (n : string) : option string :=
  match env with
  | [] => None
  | e :: rest =>
      match env_match n e with
      | Some v => Some v
      | None => env_lookup rest n
      end
  end.

(** glibc's [getenv]: NULL for the empty name, else the value of the first
    string of [environ] that starts with the name and an equals sign.  The
    name is compared as it is, equals signs included. *)
Definition getenv (env : Environ) (n : string) : option string :=
  if (n =? "")%string then None else env_lookup env n.

(** The names [setenv] and [unsetenv] take; for the others they fail with
    [EINVAL]. *)
Definition env_name_ok (n : string) : bool :=
  negb (n =? "")%string && negb (strchr n "=").

(** The loop of [setenv] with [replace != 0]: the first string that
    matches is replaced, and the new string goes to the end when none
    does. *)
Fixpoint add_to_environ (n v : string) (env : Environ) : Environ :=
  match env with
  | [] => [(n ++ String "=" v)%string]
  | e :: rest =>
      match env_match n e with
      | Some _ => (n ++ String "=" v)%string :: rest
      | None => e :: add_to_environ n v rest
      end
  end.

(** [setenv(n, v, 1)]; [None] is the result -1.  Memory is taken to
    suffice. *)
Definition setenv (n v : string) (env : Environ) : option Environ :=
  if env_name_ok n then Some (add_to_environ n v env) else None.

(** [unsetenv(n)], which removes every string that matches; [None] is the
    result -1. *)
Definition unsetenv (n : string) (env : Environ) : option Environ :=
  if env_name_ok n
  then Some (filter (fun e => match env_match n e with
                              | Some _ => false
                              | None => true
                              end) env)
  else None.

(** [substitute_variable]: the string [*arg] points to afterwards. *)
Definition substitute_variable (env : Environ) (vars : list LocalVar)
    (arg : string) : string :=
  match arg with
  | String "$" varName =>
      let varValue :=
        match getenv env varName with
        | Some v => Some v
        | None =>
            match find_local vars varName with
            | Some i => Some (value (nth i vars (mkLocalVar "" "")))
            | None => None
            end
        end in
      match varValue with
      | None => ""
      | Some v => if (v =? "")%string then "" else v
      end
  | _ => arg
  end.

(** ** The interpreter state *)

Record Shell : Type := mkShell {
  sh_history : History;
  localVars : list LocalVar;          (* localVars[0 .. localVarCount-1] *)
  environ : Environ;
  cwd : list string;                  (* the successful chdir() targets so far *)
  trace : list Event                  (* oldest event first *)
}.

Definition localVarCount (s : Shell) : nat := length (localVars s).

Definition initial_shell (env : Environ) : Shell :=
  {| sh_history := initial_history; localVars := []; environ := env;
     cwd := []; trace := [] |}.

Definition emit (evs : list Event) (s : Shell) : Shell :=
  {| sh_history := sh_history s; localVars := localVars s;
     environ := environ s; cwd := cwd s; trace := trace s ++ evs |}.

Definition set_history (h : History) (s : Shell) : Shell :=
  {| sh_history := h; localVars := localVars s;
     environ := environ s; cwd := cwd s; trace := trace s |}.

Definition set_localVars (vars : list LocalVar) (s : Shell) : Shell :=
  {| sh_history := sh_history s; localVars := vars;
     environ := environ s; cwd := cwd s; trace := trace s |}.

Definition set_environ (env : Environ) (s : Shell) : Shell :=
  {| sh_history := sh_history s; localVars := localVars s;
     environ := env; cwd := cwd s; trace := trace s |}.

Definition set_cwd (d : list string) (s : Shell) : Shell :=
  {| sh_history := sh_history s; localVars := localVars s;
     environ := environ s; cwd := d; trace := trace s |}.

(** How a call into the interpreter ends: it returns, the process calls
    [exit] (with the argument [status], in the state [s]), the behaviour is
    undefined in C, or the model ran out of fuel (only the recall of a
    history entry re-enters the interpreter). *)
Inductive result (A : Type) : Type :=
| Continue (a : A)
| Exited (status : Z) (s : Shell)
| Undefined
| OutOfFuel.
Arguments Continue {A} a.
Arguments Exited {A} status s.
Arguments Undefined {A}.
Arguments OutOfFuel {A}.

Definition outcome : Type := result Shell.

Definition bind {A B : Type} (r : result A) (k : A -> result B) : result B :=
  match r with
  | Continue a => k a
  | Exited st s => Exited st s
  | Undefined => Undefined
  | OutOfFuel => OutOfFuel
  end.

Notation "x <- r ;; k" := (bind r (fun x => k))
  (at level 61, r at next level, right associativity).

(** ** Tokenizer *)

(** The loop [while (token != NULL && index < MAX_ARGS - 1)] around
    [strtok]: [n] bounds the number of tokens stored. *)
Fixpoint strtok_loop (n : nat) (delims : string) (s : string) : list string :=
  match n with
  | O => []
  | S m =>
      match strtok delims s with
      | None => []
      | Some (tok, rest) => tok :: strtok_loop m delims rest
      end
  end.

(** [process_input]: the argument vector and the value of [*background]
    afterwards ([background] is its value before the call). *)
Definition process_input (input : string) (background : bool)
    : list string * bool :=
  let argv := strtok_loop (MAX_ARGS - 1) (" " ++ nl) input in
  if (0 <? length argv)%nat && (last argv "" =? "&")%string
  then (removelast argv, true)
  else (argv, background).

(** [argv[i]], NULL past the terminator. *)
Definition arg (i : nat) (argv : list string) : option string :=
  nth_error argv i.

Definition is_null {A : Type} (o : option A) : bool :=
  match o with None => true | Some _ => false end.

Definition str_is (o : option string) (s : string) : bool :=
  match o with Some t => (t =? s)%string | None => false end.

(** ** Classification and validation *)

Definition builtInCommands : list string :=
  ["cd"; "exit"; "history"; "export"; "local"; "vars"].

Definition isBuiltInCommand (command : string) : bool :=
  existsb (fun b => (command =? b)%string) builtInCommands.

(** [isValidCommand]: its result and what it prints. *)
Definition isValidCommand (argv : list string) : bool * list Event :=
  match arg 0 argv with
  | None => (false, [Stdout ("Error: Command is empty." ++ nl)])
  | Some a0 =>
      if (a0 =? "")%string
      then (false, [Stdout ("Error: Command is empty." ++ nl)])
      else if (a0 =? "cd")%string then
        if is_null (arg 1 argv) || negb (is_null (arg 2 argv))
        then (false, [Stdout ("cd: wrong number of arguments. Usage: cd <directory>" ++ nl)])
        else (true, [])
      else if (a0 =? "exit")%string && negb (is_null (arg 1 argv))
      then (false, [Stdout ("exit: does not take any arguments." ++ nl)])
      else if ((a0 =? "export")%string || (a0 =? "local")%string)
              && (is_null (arg 1 argv) || negb (is_null (arg 2 argv))
                  || match arg 1 argv with
                     | Some a1 => negb (strchr a1 "=")
                     | None => true
                     end)
      then (false, [Stdout (a0 ++ ": incorrect usage. Expected format: "
                            ++ a0 ++ " VAR=value" ++ nl)])
      else if (a0 =? "history")%string && negb (is_null (arg 1 argv)) then
        if str_is (arg 1 argv) "set" then
          if is_null (arg 2 argv)
             || match arg 2 argv with
                | Some a2 => atoi a2 <=? 0
                | None => true
                end
             || negb (is_null (arg 3 argv))
          then (false, [Stdout ("history set: incorrect usage." ++ nl)])
          else (true, [])
        else (false, [Stdout ("history: incorrect usage. Usage: history [set <size>]" ++ nl)])
      else (true, [])
  end.

(** ** Commands *)

Section Interpreter.

Variable os : OS.

(** [execute_command]: substitution, removal of the arguments that became
    empty, validation, then one child. *)
Definition execute_command (argv : list string) (background : bool)
    (s : Shell) : outcome :=
  let argv' := map (substitute_variable (environ s) (localVars s)) argv in
  let filtered_argv := filter (fun a => negb (a =? "")%string) argv' in
  let (valid, printed) := isValidCommand filtered_argv in
  if negb valid
  then Continue (emit (printed ++ [Stdout ("Error: Command validation failed." ++ nl)]) s)
  else
    match os_fork os (trace s) with
    | Some p =>
        let pid := Z.pos p in
        let s1 := emit [Fork pid (mkChild None None [] filtered_argv)] s in
        if negb background
        then Continue (emit [WaitPid pid] s1)
        else Continue (emit [Stdout ("[PID " ++ fmt_d pid ++ " running in background]" ++ nl)] s1)
    | None => Exited (-1) (emit [Perror "fork failed"] s)
    end.

(** [l[j] = x]; the index is inside the array wherever the source
    writes. *)
Fixpoint store {A : Type} (j : nat) (x : A) (l : list A) : list A :=
  match l, j with
  | [], _ => []
  | _ :: rest, O => x :: rest
  | y :: rest, S k => y :: store k x rest
  end.

(** What a successful [pipe(pipefds + i * 2)] leaves in the array. *)
Definition pipe_into (i : nat) (pipefds : list Slot) : list Slot :=
  store (i * 2 + 1) (WriteEnd i) (store (i * 2) (ReadEnd i) pipefds).

(** The body of the loop of [execute_piped_commands] for the stages
    [cmds], the first of which has index [i]; [pipefds] is the array of
    descriptors, [fd_in] the pipe whose read end the next child takes as
    its standard input ([None] while [fd_in == 0]), [pid] the result of
    the latest [fork].  The pipe descriptors are taken to be non-zero.
    The child redirects its streams, hands every entry of [pipefds] to
    [close], written or not (the loop runs over [2 * num_cmds - 2]
    entries, which is the length of the array), and is the only process
    that calls [process_input] on its segment, so [background] changes in
    the child's copy alone. *)
Fixpoint pipeline_stages (cmds : list string) (i : nat) (num_cmds : nat)
    (background : bool) (pipefds : list Slot) (fd_in : option nat) (pid : Z)
    (s : Shell) : result (Z * Shell) :=
  match cmds with
  | [] => Continue (pid, s)
  | c :: rest =>
      s1 <- (if (i <? num_cmds - 1)%nat
             then if os_pipe os (trace s)
                  then Continue (emit [PipeCreated i] s)
                  else Exited EXIT_FAILURE (emit [Perror "Couldn't Pipe"] s)
             else Continue s) ;;
      let pipefds1 :=
        if (i <? num_cmds - 1)%nat then pipe_into i pipefds else pipefds in
      match os_fork os (trace s1) with
      | None => Exited EXIT_FAILURE (emit [Perror "fork"] s1)
      | Some p =>
          let child :=
            mkChild fd_in
                    (if (i <? num_cmds - 1)%nat then Some i else None)
                    pipefds1
                    (fst (process_input c background)) in
          pipeline_stages rest (S i) num_cmds background pipefds1
            (if (i <? num_cmds - 1)%nat then Some i else fd_in)
            (Z.pos p) (emit [Fork (Z.pos p) child] s1)
      end
  end.

(** [execute_piped_commands].  With [num_cmds == 0] the array of pipe
    descriptors has a negative length: undefined.  ([parse_and_execute]
    never calls it with one command, for which the array is empty.)  The
    array is not initialised. *)
Definition execute_piped_commands (commands : list string)
    (background : bool) (s : Shell) : outcome :=
  let num_cmds := length commands in
  match num_cmds with
  | O => Undefined
  | _ =>
      r <- pipeline_stages commands 0 num_cmds background
             (repeat Unwritten (2 * (num_cmds - 1))) None 0 s ;;
      let (pid, s1) := r : Z * Shell in
      if negb background
      then Continue (emit (repeat Wait num_cmds) s1)
      else Continue (emit [Stdout ("[PID " ++ fmt_d pid ++ " running in background]" ++ nl)] s1)
  end.

Definition cmd_cd (path : option string) (s : Shell) : outcome :=
  match path with
  | Some p =>
      if os_chdir os (cwd s) p
      then Continue (set_cwd (cwd s ++ [p]) s)
      else Continue (emit [Perror "cd failed"] s)
  | None => Continue (emit [Perror "cd failed"] s)   (* chdir(NULL) fails *)
  end.

Definition cmd_exit (argv : list string) (s : Shell) : outcome :=
  if negb (is_null (arg 1 argv))
  then Continue (emit [Stderr ("exit: does not take any arguments" ++ nl)] s)
  else Exited 0 s.

(** [cmd_export].  [setenv] and [unsetenv] fail for a name that is empty
    or holds an equals sign; the failure is reported and nothing changes. *)
Definition cmd_export (n : option string) (v : option string) (s : Shell)
    : outcome :=
  match n with
  | None => Continue (emit [Stderr ("Usage: export VAR=value" ++ nl)] s)
  | Some nm =>
      if is_null v || str_is v ""
      then
        match unsetenv nm (environ s) with
        | Some env' => Continue (set_environ env' s)
        | None => Continue (emit [Perror "unsetenv failed"] s)
        end
      else
        match v with
        | Some val =>
            match setenv nm val (environ s) with
            | Some env' => Continue (set_environ env' s)
            | None => Continue (emit [Perror "setenv failed"] s)
            end
        | None => Continue s
        end
  end.

(** Removal of [localVars[found]] by shifting the later entries up. *)
Definition remove_at (found : nat) (vars : list LocalVar) : list LocalVar :=
  firstn found vars ++ skipn (S found) vars.

(** Replacement of [localVars[found].value]. *)
Fixpoint update_value_at (found : nat) (v : string) (vars : list LocalVar)
    : list LocalVar :=
  match vars, found with
  | [], _ => []
  | x :: rest, O => mkLocalVar (name x) v :: rest
  | x :: rest, S k => x :: update_value_at k v rest
  end.

(** [cmd_local].  A NULL name reaches [strcmp] as soon as the table is
    not empty, and [strncpy] when a value comes with it: undefined. *)
Definition cmd_local (n : option string) (v : option string) (s : Shell)
    : outcome :=
  if is_null v || str_is v "" then
    match n with
    | None =>
        match localVars s with
        | [] => Continue s
        | _ :: _ => Undefined
        end
    | Some nm =>
        match find_local (localVars s) nm with
        | Some found => Continue (set_localVars (remove_at found (localVars s)) s)
        | None => Continue s
        end
    end
  else
    match n, v with
    | Some nm, Some val =>
        match find_local (localVars s) nm with
        | Some found =>
            Continue (set_localVars
                        (update_value_at found (strncpy (MAX_LINE_LENGTH - 1) val)
                                         (localVars s)) s)
        | None =>
            if (localVarCount s <? MAX_LOCAL_VARS)%nat
            then Continue (set_localVars
                             (localVars s
                              ++ [mkLocalVar (strncpy (MAX_LINE_LENGTH - 1) nm)
                                             (strncpy (MAX_LINE_LENGTH - 1) val)]) s)
            else Continue s
        end
    | _, _ => Undefined
    end.

Definition cmd_vars (s : Shell) : outcome :=
  Continue (emit (map (fun v => Stdout (name v ++ "=" ++ value v ++ nl))
                      (localVars s)) s).

(** The pair [strtok(argv[1], "=")], [strtok(NULL, "")] of
    [built_in_command]. *)
Definition split_assignment (a1 : string) : option string * option string :=
  match strtok "=" a1 with
  | None => (None, None)
  | Some (nm, rest) => (Some nm, option_map fst (strtok "" rest))
  end.

(** The functions from here to [parse_and_execute] call each other in a
    cycle through the recall of a history entry; [rec] stands for
    [parse_and_execute] in them. *)
Section Recall.

Variable rec : string -> Shell -> outcome.

Definition execute_history_command (command_number : Z) (s : Shell)
    : outcome :=
  let h := sh_history s in
  if (command_number <? 1) || (command_number >? current_history_count h)
  then Continue (emit [Stdout ("Invalid history command number." ++ nl)] s)
  else
    let cmd := history_at h (current_history_count h - command_number) in
    let oldHistoryState := add_to_history_enabled h in
    s1 <- rec cmd (set_history (with_enabled false h) s) ;;
    Continue (set_history (with_enabled oldHistoryState (sh_history s1)) s1).

Definition cmd_history_control (argv : list string) (s : Shell) : outcome :=
  match arg 1 argv with
  | None => Continue (emit (print_history (sh_history s)) s)
  | Some a1 =>
      match arg 2 argv with
      | Some a2 =>
          if (a1 =? "set")%string
          then
            let (h, printed) :=
              set_history_size os (trace s) (atoi a2) (sh_history s) in
            Continue (emit printed (set_history h s))
          else execute_history_command (atoi a1) s
      | None => execute_history_command (atoi a1) s
      end
  end.

Definition built_in_command (argv : list string) (s : Shell) : outcome :=
  match arg 0 argv with
  | None => Undefined
  | Some a0 =>
      if (a0 =? "exit")%string then cmd_exit argv s
      else if (a0 =? "cd")%string then cmd_cd (arg 1 argv) s
      else if (a0 =? "history")%string then cmd_history_control argv s
      else if (a0 =? "export")%string && negb (is_null (arg 1 argv)) then
        match arg 1 argv with
        | Some a1 => let (n, v) := split_assignment a1 in cmd_export n v s
        | None => Continue s
        end
      else if (a0 =? "local")%string && negb (is_null (arg 1 argv)) then
        match arg 1 argv with
        | Some a1 => let (n, v) := split_assignment a1 in cmd_local n v s
        | None => Continue s
        end
      else if (a0 =? "vars")%string then cmd_vars s
      else Continue s
  end.

(** Removal of the newline [fgets] leaves at the end of the line. *)
Fixpoint strip_newline (input : string) : string :=
  match input with
  | "" => ""
  | String c "" => if Ascii.eqb c LF then "" else input
  | String c r => String c (strip_newline r)
  end.

(** The body of [parse_and_execute].  An empty [input] makes the source
    read [input[-1]], and a line without a first token makes it hand
    NULL to [strcmp] once the line has been run: both undefined. *)
Definition parse_and_execute_body (input0 : string) (s : Shell) : outcome :=
  match input0 with
  | "" => Undefined
  | _ =>
      let input := strip_newline input0 in
      let dupInp := input in
      let tempInput := strncpy (MAX_LINE_LENGTH - 1) input in
      let firstToken :=
        option_map fst (strtok (String " " (String TAB (String LF ""))) tempInput) in
      let isBuiltIn :=
        match firstToken with
        | Some t => isBuiltInCommand t
        | None => false
        end in
      s1 <- (if isBuiltIn then
               let (argv, background) := process_input input false in
               if negb (str_is firstToken "history") || negb (is_null (arg 1 argv))
               then built_in_command argv s
               else Continue (emit (print_history (sh_history s)) s)
             else
               let commands := strtok_loop (MAX_ARGS - 1) "|" input in
               match commands with
               | [c] =>
                   let (argv, background) := process_input c false in
                   execute_command argv background s
               | _ => execute_piped_commands commands false s
               end) ;;
      if negb isBuiltIn then
        match firstToken with
        | None => Undefined
        | Some t =>
            if negb (t =? "history")%string then
              match add_to_history dupInp (sh_history s1) with
              | Some h => Continue (set_history h s1)
              | None => Undefined
              end
            else Continue s1
        end
      else Continue s1
  end.

End Recall.

(** [parse_and_execute], the entry point the dispatch loop calls for each
    line; [fuel] bounds the depth of recalls inside recalls. *)
Fixpoint parse_and_execute (fuel : nat) (input : string) (s : Shell)
    : outcome :=
  match fuel with
  | O => OutOfFuel
  | S n => parse_and_execute_body (parse_and_execute n) input s
  end.

End Interpreter.

(** ** Vocabulary of the statements *)

Local Open Scope list_scope.

(** A sequence of appends, stopping at undefined behaviour. *)
Fixpoint add_lines (lines : list string) (h : History) : option History :=
  match lines with
  | [] => Some h
  | l :: rest =>
      match add_to_history l h with
      | Some h1 => add_lines rest h1
      | None => None
      end
  end.

(** The lines [add_to_history] ignores whatever the state of the ring:
    NULL is excluded by the type, the others are empty or all white space. *)
Definition blank (cmd : string) : bool :=
  (cmd =? "")%string || strspn_all whitespace cmd.

(** The most recently stored entry, the one [history] lists as number 1. *)
Definition newest (h : History) : option string :=
  nth_error (rev (history h)) 0.

(** Occupancy within capacity. *)
Definition within_capacity (h : History) : Prop :=
  current_history_count h <= history_capacity h.

(** The string [n=v] of [environ]. *)
Definition env_entry (n v : string) : string := (n ++ String "=" v)%string.

(** The variable a string of [environ] is about: the text before its first
    equals sign; a string without equals sign is about none. *)
Fixpoint entry_name (e : string) : option string :=
  match e with
  | "" => None
  | String c r =>
      if Ascii.eqb c "=" then Some ""
      else option_map (String c) (entry_name r)
  end.

(** The variables of an environment, in the order of their strings. *)
Definition env_names (env : Environ) : list string :=
  flat_map (fun e => match entry_name e with
                     | Some n => [n]
                     | None => []
                     end) env.

(** [n] is bound to [v] in the environment: the first string about the
    variable [n] is [n=v]. *)
Definition env_binds (env : Environ) (n v : string) : Prop :=
  exists pre post,
    env = (pre ++ env_entry n v :: post)%list /\ ~ In n (env_names pre).

(** [n] is bound to [v] in the variable store. *)
Definition local_binds (vars : list LocalVar) (n v : string) : Prop :=
  exists pre post, vars = (pre ++ mkLocalVar n v :: post)%list /\ ~ In n (map name pre).

(** The token [$n]. *)
Definition marker (n : string) : string := String "$" n.

(** The first token of a line as [parse_and_execute] determines it, from
    the line without its final newline. *)
Definition first_token (input : string) : option string :=
  option_map fst (strtok (String " " (String TAB (String LF "")))
                         (strncpy (MAX_LINE_LENGTH - 1) input)).

(** The line starts with the name of a built-in. *)
Definition builtin_line (line : string) : bool :=
  match first_token (strip_newline line) with
  | Some t => isBuiltInCommand t
  | None => false
  end.

(** The segments between the pipe separators of a line. *)
Definition split_pipeline (input : string) : list string :=
  strtok_loop (MAX_ARGS - 1) "|" input.

(** What [parse_and_execute] hands to the executor for an external line. *)
Definition dispatch_external (os : OS) (input : string) (s : Shell) : outcome :=
  match split_pipeline input with
  | [c] =>
      let (argv, background) := process_input c false in
      execute_command os argv background s
  | commands => execute_piped_commands os commands false s
  end.

(** The number of children forked in a run of events, and the argument
    vectors they execute, oldest first. *)
Definition forked_argvs (evs : list Event) : list (list string) :=
  flat_map (fun e => match e with Fork _ c => [child_argv c] | _ => [] end) evs.

Definition count_forks (evs : list Event) : nat := length (forked_argvs evs).

(** [l'] is what is left of [l] once some of its oldest entries are gone:
    nothing was added. *)
Definition only_evicted (l' l : list string) : Prop :=
  exists n, l' = skipn n l.

(** An outcome in which the ring holds no entry it did not hold in [s]. *)
Definition adds_no_entry (s : Shell) (r : outcome) : Prop :=
  match r with
  | Continue s' | Exited _ s' =>
      only_evicted (history (sh_history s')) (history (sh_history s))
  | Undefined | OutOfFuel => True
  end.

(** The lines [parse_and_execute] records are those it runs as external
    commands: they have a first token, which is not the name of a built-in,
    and at least one segment. *)
Definition recallable (e : string) : bool :=
  negb (e =? "")%string
  && match first_token (strip_newline e) with
     | Some t => negb (isBuiltInCommand t)
     | None => false
     end
  && match split_pipeline (strip_newline e) with
     | [] => false
     | _ :: _ => true
     end.

(** A line as [fgets] delivers it: no newline except, possibly, the last
    character. *)
Definition fgets_line (line : string) : bool :=
  negb (strchr (strip_newline line) LF).

(** The dispatch loop: the lines of a batch run one after the other, for as
    long as the interpreter returns. *)
Definition run_lines (os : OS) (fuel : nat) (lines : list string) (s : Shell)
    : outcome :=
  fold_left (fun r line => bind r (parse_and_execute os fuel line))
            lines (Continue s).

(** The events the set-up of a pipeline leaves in the trace. *)
Definition setup_event (e : Event) : bool :=
  match e with
  | PipeCreated _ | Fork _ _ => true
  | _ => false
  end.

(** After the events [tr] the operating system turns down the request the
    message [m] is about. *)
Definition refused (os : OS) (tr : list Event) (m : string) : Prop :=
  (m = "Couldn't Pipe" /\ os_pipe os tr = false)
  \/ (m = "fork" /\ os_fork os tr = None).

(** The operating system granted every pipe and every fork among the
    events [evs], which follow the events [tr]: it was asked after exactly
    the events before the request and gave the child the identifier the
    event records. *)
Fixpoint granted (os : OS) (tr : list Event) (evs : list Event) : Prop :=
  match evs with
  | [] => True
  | e :: rest =>
      match e with
      | PipeCreated _ => os_pipe os tr = true
      | Fork pid _ => exists p, os_fork os tr = Some p /\ pid = Z.pos p
      | _ => True
      end
      /\ granted os (tr ++ [e]) rest
  end.

(** An operating system that grants every request and numbers the children
    from 100, and one that has no process left to give. *)
Definition friendly_os : OS :=
  {| os_fork := fun tr => Some (Pos.of_nat (100 + count_forks tr));
     os_pipe := fun _ => true;
     os_chdir := fun _ _ => true;
     os_realloc := fun _ _ => true |}.

Definition exhausted_os : OS :=
  {| os_fork := fun _ => None;
     os_pipe := fun _ => true;
     os_chdir := fun _ _ => true;
     os_realloc := fun _ _ => true |}.

(** An operating system that has no descriptor left for a pipe. *)
Definition pipeless_os : OS :=
  {| os_fork := fun tr => Some (Pos.of_nat (100 + count_forks tr));
     os_pipe := fun _ => false;
     os_chdir := fun _ _ => true;
     os_realloc := fun _ _ => true |}.

(** A shell with two lines recorded and one local variable. *)
Definition sample_shell : Shell :=
  {| sh_history := mkHistory ["ls -l"; "echo $FOO"] MAX_HISTORY true;
     localVars := [mkLocalVar "FOO" "bar"];
     environ := ["HOME=/root"];
     cwd := [];
     trace := [] |}.

(** ** The remaining functions of [wsh.c] *)

(** [substitute_variables_in_command]: [substitute_variable] on every
    argument in turn.  No function calls it. *)
Definition substitute_variables_in_command (env : Environ)
    (vars : list LocalVar) (argv : list string) : list string :=
  map (substitute_variable env vars) argv.

(** [set_local_var], which no function calls either.  It copies with
    [strncpy(_, _, MAX_LINE_LENGTH)] into fields of [MAX_LINE_LENGTH]
    bytes, so a string of that length or more leaves its field without a
    terminator: [None]. *)
Definition set_local_var (n v : string) (vars : list LocalVar)
    : option (list LocalVar) :=
  match find_local vars n with
  | Some found =>
      if (String.length v <? MAX_LINE_LENGTH)%nat
      then Some (update_value_at found (strncpy MAX_LINE_LENGTH v) vars)
      else None
  | None =>
      if (length vars <? MAX_LOCAL_VARS)%nat
      then if (String.length n <? MAX_LINE_LENGTH)%nat
              && (String.length v <? MAX_LINE_LENGTH)%nat
           then Some (vars ++ [mkLocalVar (strncpy MAX_LINE_LENGTH n)
                                          (strncpy MAX_LINE_LENGTH v)])
           else None
      else Some vars
  end.

(** What [main] gets from outside: its arguments, whether [malloc] and
    [fopen] succeed, the environment, and the results of the successive
    calls of [fgets] as the process gets them ([Some] line, or [None] for a
    NULL result that is not the end of the input); the end of the list is
    the end of the input.  These results are an input of the model like
    the answers of the operating system: in batch mode they need not be
    the lines of the file, each once and in order, because a child whose
    [execvp] fails ends through [exit] and can thereby move the offset of
    the file it shares with the interpreter. *)
Record Invocation : Type := mkInvocation {
  argc : nat;
  argv0 : string;
  malloc_ok : bool;
  fopen_ok : bool;
  inherited_environ : Environ;
  reads : list (option string)
}.

(** The batch loop of [main]:
    [while (fgets(...) != NULL)] strip the newline and run the line.  [rs]
    are the results of the calls of [fgets] still to come. *)
Fixpoint batch_loop (os : OS) (fuel : nat) (rs : list (option string))
    (s : Shell) : outcome :=
  match rs with
  | [] => Exited EXIT_SUCCESS s
  | None :: _ => Exited EXIT_SUCCESS s
  | Some input :: rest =>
      match input with
      | "" => Undefined
      | _ =>
          s1 <- parse_and_execute os fuel (strip_newline input) s ;;
          batch_loop os fuel rest s1
      end
  end.

(** The interactive loop of [main]: prompt, read, skip the line that is a
    newline alone, run any other. *)
Fixpoint interactive_loop (os : OS) (fuel : nat) (rs : list (option string))
    (s : Shell) : outcome :=
  match rs with
  | [] => Exited 0 (emit [Stdout "wsh> "] s)
  | None :: rest =>
      interactive_loop os fuel rest
        (emit [Stdout "wsh> "; Perror "fgets error"] s)
  | Some input :: rest =>
      if (input =? nl)%string
      then interactive_loop os fuel rest (emit [Stdout "wsh> "] s)
      else
        s1 <- parse_and_execute os fuel input (emit [Stdout "wsh> "] s) ;;
        interactive_loop os fuel rest s1
  end.

(** [main].  Its [return 1] is rendered as an exit with status 1. *)
Definition main (os : OS) (fuel : nat) (inv : Invocation) : outcome :=
  let s := initial_shell (inherited_environ inv) in
  if negb (malloc_ok inv)
  then Exited 1 (emit [Perror "Failed to allocate memory for history"] s)
  else if (argc inv =? 2)%nat then
    if negb (fopen_ok inv)
    then Exited (-1) (emit [Perror "Error opening batch file"] s)
    else batch_loop os fuel (reads inv) s
  else if (2 <? argc inv)%nat
  then Exited EXIT_FAILURE
              (emit [Stderr ("Usage: " ++ argv0 inv ++ " [batch file]" ++ nl)%string] s)
  else interactive_loop os fuel (reads inv) s.

(** ** Vocabulary of the further statements *)

(** No character of [s] is one of [delims]. *)
Fixpoint no_delim (delims : string) (s : string) : bool :=
  match s with
  | "" => true
  | String c r => negb (is_delim delims c) && no_delim delims r
  end.

(** A token as a tokenizer for [delims] can produce: not empty, free of
    delimiters. *)
Definition clean_token (delims : string) (t : string) : bool :=
  negb (t =? "")%string && no_delim delims t.

(** The tokens put back together with the separator [sep] between them. *)
Fixpoint join (sep : ascii) (toks : list string) : string :=
  match toks with
  | [] => ""
  | [t] => t
  | t :: rest => (t ++ String sep (join sep rest))%string
  end.

(** The value the variable store holds for [n]: that of the first entry
    with this name. *)
Definition local_value (vars : list LocalVar) (n : string) : option string :=
  match find_local vars n with
  | Some i => Some (value (nth i vars (mkLocalVar "" "")))
  | None => None
  end.

(** The children forked in a run of events, oldest first. *)
Definition forked_children (evs : list Event) : list Child :=
  flat_map (fun e => match e with Fork _ c => [c] | _ => [] end) evs.

(** The pipes created in a run of events, oldest first. *)
Definition created_pipes (evs : list Event) : list nat :=
  flat_map (fun e => match e with PipeCreated i => [i] | _ => [] end) evs.

(** The array [pipefds] of a pipeline of [n] stages once its first
    [made] pipes exist: their ends in order, then the entries no [pipe]
    call has written. *)
Definition pipefds_after (made n : nat) : list Slot :=
  flat_map (fun k => [ReadEnd k; WriteEnd k]) (seq 0 made)
  ++ repeat Unwritten (2 * (n - 1 - made)).

(** The child a pipeline of [n] stages starts for its stage [j] running
    the segment [c]: it reads from the pipe before it unless it is the
    first, writes to the pipe after it unless it is the last, and closes
    the entries of the array as it stands when the child is forked: the
    pipe of its own stage is the last one made. *)
Definition stage_child (n : nat) (background : bool) (j : nat) (c : string)
    : Child :=
  mkChild (if (j =? 0)%nat then None else Some (j - 1)%nat)
          (if (j <? n - 1)%nat then Some j else None)
          (pipefds_after (Nat.min (j + 1) (n - 1)) n)
          (fst (process_input c background)).

(** No two neighbours in the ring are the same line. *)
Fixpoint coalesced (l : list string) : bool :=
  match l with
  | x :: (y :: _) as rest => negb (x =? y)%string && coalesced rest
  | _ => true
  end.

(** A ring as the interpreter keeps it: within its capacity, without
    repeated neighbours, without blank lines. *)
Definition ring_ok (h : History) : Prop :=
  within_capacity h
  /\ coalesced (history h) = true
  /\ forallb (fun e => negb (blank e)) (history h) = true.

(** A ring on which an append is defined: besides being well kept, it
    records only when it has room for at least one line. *)
Definition ring_safe (h : History) : Prop :=
  ring_ok h /\ (history_capacity h = 0 -> add_to_history_enabled h = false).

(** The operating system never refuses [realloc]. *)
Definition realloc_granted (os : OS) : Prop :=
  forall tr n, os_realloc os tr n = true.

(** A variable store as the interpreter keeps it: each name once, no more
    entries than the table has room for. *)
Definition store_ok (vars : list LocalVar) : Prop :=
  NoDup (map name vars) /\ (length vars <= MAX_LOCAL_VARS)%nat.

(** A process that ends with [status] in the state [s'] does so for a
    reason: the [exit] built-in (status 0), or a fork or pipe the operating
    system refused, reported with [perror] as the last thing done. *)
Definition exit_is_accounted_for (os : OS) (r : outcome) : Prop :=
  match r with
  | Exited status s' =>
      status = 0
      \/ ((status = -1 \/ status = EXIT_FAILURE)
          /\ exists pre m,
              trace s' = pre ++ [Perror m]
              /\ ((m = "fork failed" /\ os_fork os pre = None)
                  \/ refused os pre m))
  | Continue _ | Undefined | OutOfFuel => True
  end.

(** The line asks for the end of the interpreter: it starts with the name
    of a built-in and its argument vector is [exit] alone. *)
Definition exit_requested (line : string) : Prop :=
  builtin_line line = true
  /\ fst (process_input (strip_newline line) false) = ["exit"].

(** The process ends with [st] in the state [s'] because the operating
    system refused a fork or a pipe: the status is -1 or [EXIT_FAILURE]
    and the report of the refusal is the last thing done. *)
Definition ends_by_refusal (os : OS) (st : Z) (s' : Shell) : Prop :=
  (st = -1 \/ st = EXIT_FAILURE)
  /\ exists pre m,
      trace s' = pre ++ [Perror m]
      /\ ((m = "fork failed" /\ os_fork os pre = None) \/ refused os pre m).

(** The last event of a trace is a [perror]. *)
Definition ends_with_perror (tr : list Event) : Prop :=
  exists pre m, tr = pre ++ [Perror m].

(** ** The history ring: coalescing, eviction, listing, resizing *)

Section HistoryRing.

Lemma count_app_one (l : list string) (x : string) :
  Z.of_nat (length (l ++ [x])) = Z.of_nat (length l) + 1.
Proof. rewrite length_app; simpl; lia. Qed.

Lemma newest_of_app (l : list string) (x : string) cap en :
  history_at (mkHistory (l ++ [x]) cap en)
             (current_history_count (mkHistory (l ++ [x]) cap en) - 1) = x.
Proof.
  unfold history_at, current_history_count; simpl.
  rewrite count_app_one.
  replace (Z.to_nat (Z.of_nat (length l) + 1 - 1)) with (length l) by lia.
  apply nth_middle.
Qed.

(** A line equal to the newest entry is never appended. *)
Lemma add_to_history_newest (older : list string) (line : string) cap en :
  add_to_history line (mkHistory (older ++ [line]) cap en)
  = Some (mkHistory (older ++ [line]) cap en).
Proof.
  unfold add_to_history.
  destruct (negb _ || _ || _); [reflexivity|].
  rewrite newest_of_app, String.eqb_refl.
  replace (current_history_count _ >? 0) with true; [reflexivity|].
  unfold current_history_count; simpl; rewrite count_app_one.
  symmetry; apply Z.gtb_lt; lia.
Qed.

(** Whatever [add_to_history] returns, the same line bounces off it. *)
Lemma add_to_history_idempotent (line : string) (h h' : History) :
  add_to_history line h = Some h' -> add_to_history line h' = Some h'.
Proof.
  intros H. pose proof H as H0. unfold add_to_history in H.
  destruct (negb (add_to_history_enabled h) || (line =? "")%string
            || strspn_all whitespace line) eqn:G.
  { inversion H; subst h'; exact H0. }
  destruct ((current_history_count h >? 0)
            && (history_at h (current_history_count h - 1) =? line)%string) eqn:D.
  { inversion H; subst h'; exact H0. }
  destruct (current_history_count h =? history_capacity h).
  - destruct (history h) as [|x rest] eqn:E; [discriminate|].
    destruct (current_history_count (with_entries rest h) <? _); [|discriminate].
    inversion H; subst h'. apply add_to_history_newest.
  - destruct (current_history_count h <? history_capacity h); [|discriminate].
    inversion H; subst h'. apply add_to_history_newest.
Qed.

(** What an append does to a ring that records, for a line that is
    neither blank nor the newest entry. *)
Lemma add_to_history_fresh (line : string) (h : History) :
  add_to_history_enabled h = true ->
  blank line = false ->
  (forall older, history h <> older ++ [line]) ->
  add_to_history line h =
    if current_history_count h =? history_capacity h
    then match history h with
         | [] => None
         | _ :: rest => Some (with_entries (rest ++ [line]) h)
         end
    else if current_history_count h <? history_capacity h
         then Some (with_entries (history h ++ [line]) h)
         else None.
Proof.
  intros En Bl Fresh. unfold add_to_history.
  unfold blank in Bl. rewrite En. simpl negb. rewrite orb_false_l, Bl.
  destruct ((current_history_count h >? 0)
            && (history_at h (current_history_count h - 1) =? line)%string) eqn:D.
  { exfalso. apply andb_prop in D. destruct D as [P E].
    apply Z.gtb_lt in P. apply String.eqb_eq in E.
    unfold current_history_count in P, E. unfold history_at in E.
    destruct (history h) as [|x l] eqn:Hh using rev_ind; [simpl in P; lia|].
    apply (Fresh l). f_equal. f_equal.
    rewrite count_app_one in E.
    replace (Z.to_nat (Z.of_nat (length l) + 1 - 1)) with (length l) in E by lia.
    rewrite nth_middle in E. exact E. }
  destruct (current_history_count h =? history_capacity h) eqn:C.
  - destruct (history h) as [|x rest] eqn:E; [reflexivity|].
    apply Z.eqb_eq in C. unfold current_history_count in *. rewrite E in C.
    simpl history. simpl history_capacity.
    replace (Z.of_nat (length rest) <? history_capacity h) with true.
    + reflexivity.
    + symmetry. apply Z.ltb_lt. simpl length in C. lia.
  - reflexivity.
Qed.

(** No append takes the ring over its capacity. *)
Lemma add_to_history_within_capacity (line : string) (h h' : History) :
  within_capacity h -> add_to_history line h = Some h' -> within_capacity h'.
Proof.
  unfold within_capacity. intros W H. unfold add_to_history in H.
  destruct (negb _ || _ || _); [inversion H; subst; exact W|].
  destruct (_ && _); [inversion H; subst; exact W|].
  destruct (current_history_count h =? history_capacity h).
  - destruct (history h) as [|x rest]; [discriminate|].
    destruct (current_history_count (with_entries rest h) <? _) eqn:L; [|discriminate].
    inversion H; subst h'. apply Z.ltb_lt in L.
    unfold current_history_count in *; simpl in *. rewrite count_app_one. lia.
  - destruct (current_history_count h <? history_capacity h) eqn:L; [|discriminate].
    inversion H; subst h'. apply Z.ltb_lt in L.
    unfold current_history_count in *; simpl in *. rewrite count_app_one. lia.
Qed.

Lemma newest_app (older : list string) (line : string) (h : History) :
  history h = older ++ [line] -> newest h = Some line.
Proof. intros E. unfold newest. rewrite E, rev_app_distr. reflexivity. Qed.

Lemma newest_inv (h : History) (line : string) :
  newest h = Some line -> exists older, history h = older ++ [line].
Proof.
  unfold newest. intros E.
  destruct (rev (history h)) as [|x l] eqn:R; [discriminate|].
  simpl in E. inversion E; subst x.
  exists (rev l). rewrite <- (rev_involutive (history h)), R. reflexivity.
Qed.

(** The listing: as many lines as entries, the [k]-th of them (from 0)
    numbered [k + 1] and showing the [k]-th newest entry. *)
Lemma print_history_from_nth (h : History) (n j : nat) :
  (j < n)%nat ->
  nth_error (print_history_from h n) j =
    Some (Stdout (fmt_d (current_history_count h - Z.of_nat (n - 1 - j)) ++ ") "
                  ++ history_at h (Z.of_nat (n - 1 - j)) ++ nl)%string).
Proof.
  revert j. induction n as [|i IH]; intros j Hj; [lia|].
  destruct j as [|j]; simpl print_history_from; simpl nth_error.
  - replace (S i - 1 - 0)%nat with i by lia. reflexivity.
  - rewrite IH by lia. replace (S i - 1 - S j)%nat with (i - 1 - j)%nat by lia.
    reflexivity.
Qed.

Lemma print_history_from_length (h : History) (n : nat) :
  length (print_history_from h n) = n.
Proof. induction n; simpl; congruence. Qed.

Lemma print_history_length (h : History) :
  length (print_history h) = length (history h).
Proof.
  unfold print_history, current_history_count.
  destruct (history h) as [|x l] eqn:E; [reflexivity|].
  replace (Z.of_nat (length (x :: l)) =? 0) with false.
  - apply print_history_from_length.
  - symmetry. apply Z.eqb_neq. simpl length. lia.
Qed.

Lemma print_history_nth (h : History) (k : nat) :
  (k < length (history h))%nat ->
  nth_error (print_history h) k =
    Some (Stdout (fmt_d (Z.of_nat k + 1) ++ ") "
                  ++ nth k (rev (history h)) "" ++ nl)%string).
Proof.
  intros Hk. unfold print_history.
  replace (current_history_count h =? 0) with false.
  - rewrite print_history_from_nth by exact Hk.
    unfold history_at, current_history_count.
    rewrite rev_nth by exact Hk. rewrite Nat2Z.id.
    replace (Z.of_nat (length (history h))
             - Z.of_nat (length (history h) - 1 - k)) with (Z.of_nat k + 1) by lia.
    replace (length (history h) - 1 - k)%nat
      with (length (history h) - S k)%nat by lia.
    reflexivity.
  - symmetry. apply Z.eqb_neq. unfold current_history_count. lia.
Qed.

(** Resizing to zero: what is left of the ring. *)
Lemma evict_oldest_until_zero (l : list string) : evict_oldest_until 0 l = [].
Proof.
  induction l as [|x l IH]; [reflexivity|].
  simpl evict_oldest_until.
  replace (Z.of_nat (length (x :: l)) >? 0) with true; [exact IH|].
  symmetry. apply Z.gtb_lt. simpl length. lia.
Qed.

Lemma set_history_size_zero (os : OS) (tr : list Event) (h : History) :
  set_history_size os tr 0 h = (mkHistory [] 0 false, []).
Proof.
  unfold set_history_size. simpl (0 <? 0). cbv iota.
  simpl (0 >? 0). rewrite andb_false_r. cbv iota.
  simpl (negb (0 =? 0)). simpl history.
  rewrite evict_oldest_until_zero. reflexivity.
Qed.

Lemma add_to_history_disabled (line : string) (h : History) :
  add_to_history_enabled h = false -> add_to_history line h = Some h.
Proof. intros E. unfold add_to_history. rewrite E. reflexivity. Qed.

End HistoryRing.

(** ** Unfolding [parse_and_execute] *)

Section Dispatch.

Variable os : OS.

Lemma parse_and_execute_step (fuel : nat) (line : string) (s : Shell) :
  parse_and_execute os (S fuel) line s
  = parse_and_execute_body os (parse_and_execute os fuel) line s.
Proof. reflexivity. Qed.

Lemma emit_nil (s : Shell) : emit [] s = s.
Proof. destruct s. unfold emit. simpl. rewrite app_nil_r. reflexivity. Qed.

Lemma emit_emit (evs1 evs2 : list Event) (s : Shell) :
  emit evs2 (emit evs1 s) = emit (evs1 ++ evs2) s.
Proof. unfold emit. simpl. rewrite app_assoc. reflexivity. Qed.

Lemma bind_continue {A : Type} (r : result A) :
  bind r (fun a => Continue a) = r.
Proof. destruct r; reflexivity. Qed.

Lemma not_builtin_not_history (t : string) :
  isBuiltInCommand t = false -> (t =? "history")%string = false.
Proof.
  intros H. destruct (t =? "history")%string eqn:E; [|reflexivity].
  apply String.eqb_eq in E. subst t. vm_compute in H. discriminate H.
Qed.

(** A line that starts with a built-in name goes to [built_in_command],
    or to [print_history] when it is the bare word [history]; nothing
    follows. *)
Lemma parse_and_execute_builtin (rec : string -> Shell -> outcome)
    (line t : string) (s : Shell) :
  line <> "" ->
  first_token (strip_newline line) = Some t ->
  isBuiltInCommand t = true ->
  parse_and_execute_body os rec line s =
    if negb (t =? "history")%string
       || negb (is_null (arg 1 (fst (process_input (strip_newline line) false))))
    then built_in_command os rec (fst (process_input (strip_newline line) false)) s
    else Continue (emit (print_history (sh_history s)) s).
Proof.
  intros NE FT BI. unfold parse_and_execute_body.
  destruct line as [|c r]; [congruence|].
  unfold first_token in FT. rewrite FT. rewrite BI. cbv iota.
  destruct (process_input (strip_newline (String c r)) false) as [argv bg].
  simpl fst. simpl str_is. simpl negb.
  apply bind_continue.
Qed.

(** Any other line with a first token goes to the executor and is then
    offered to the history. *)
Lemma parse_and_execute_external (rec : string -> Shell -> outcome)
    (line t : string) (s : Shell) :
  line <> "" ->
  first_token (strip_newline line) = Some t ->
  isBuiltInCommand t = false ->
  parse_and_execute_body os rec line s =
    bind (dispatch_external os (strip_newline line) s)
         (fun s1 =>
            match add_to_history (strip_newline line) (sh_history s1) with
            | Some h => Continue (set_history h s1)
            | None => Undefined
            end).
Proof.
  intros NE FT BI. unfold parse_and_execute_body.
  destruct line as [|c r]; [congruence|].
  unfold first_token in FT. rewrite FT. rewrite BI. cbv iota.
  rewrite (not_builtin_not_history t BI). simpl negb. cbv iota.
  unfold dispatch_external, split_pipeline.
  destruct (strtok_loop (MAX_ARGS - 1) "|" (strip_newline (String c r)))
    as [|c0 [|c1 cs]]; reflexivity.
Qed.

End Dispatch.

(** ** Properties of the history ring *)

Section HistoryClaims.

Lemma nil_not_app_one (older : list string) (line : string) :
  [] <> older ++ [line].
Proof. destruct older; discriminate. Qed.

Lemma add_to_empty (line : string) (cap : Z) :
  blank line = false -> 0 < cap ->
  add_to_history line (mkHistory [] cap true) = Some (mkHistory [line] cap true).
Proof.
  intros Bl Cap. rewrite add_to_history_fresh; try assumption; try reflexivity.
  - unfold current_history_count; cbn [history history_capacity length Z.of_nat].
    replace (0 =? cap) with false by (symmetry; apply Z.eqb_neq; lia).
    replace (0 <? cap) with true by (symmetry; apply Z.ltb_lt; lia).
    reflexivity.
  - intros older. simpl. apply nil_not_app_one.
Qed.

(** C7: a line identical to the most recently stored entry leaves the
    history unchanged, so appending a line twice in a row has the effect of
    appending it once; from an empty recording ring the same line twice
    gives exactly one entry, and [ls], [ls], [pwd] gives [[ls; pwd]]. *)
Theorem history_coalesces_consecutive_duplicates :
  (forall h line, newest h = Some line -> add_to_history line h = Some h)
  /\ (forall h line h',
         add_to_history line h = Some h' -> add_lines [line; line] h = Some h')
  /\ (forall line cap,
         blank line = false -> 0 < cap ->
         add_lines [line; line] (mkHistory [] cap true)
         = Some (mkHistory [line] cap true))
  /\ (forall cap,
         2 <= cap ->
         add_lines ["ls"; "ls"; "pwd"] (mkHistory [] cap true)
         = Some (mkHistory ["ls"; "pwd"] cap true)).
Proof.
  assert (A : forall h line, newest h = Some line -> add_to_history line h = Some h).
  { intros [l cap en] line N. apply newest_inv in N. destruct N as [older E].
    simpl in E. subst l. apply add_to_history_newest. }
  split; [exact A|]. split; [|split].
  - intros h line h' H. simpl. rewrite H.
    rewrite (add_to_history_idempotent _ _ _ H). reflexivity.
  - intros line cap Bl Cap. simpl. rewrite add_to_empty by assumption.
    rewrite (A (mkHistory [line] cap true) line) by reflexivity. reflexivity.
  - intros cap Cap. simpl.
    rewrite add_to_empty by (reflexivity || lia).
    rewrite (A (mkHistory ["ls"] cap true) "ls") by reflexivity.
    rewrite add_to_history_fresh; try reflexivity.
    + unfold current_history_count;
        cbn [history history_capacity length Z.of_nat Pos.of_succ_nat].
      replace (1 =? cap) with false by (symmetry; apply Z.eqb_neq; lia).
      replace (1 <? cap) with true by (symmetry; apply Z.ltb_lt; lia).
      reflexivity.
    + intros older E. apply newest_app in E. discriminate E.
Qed.

Lemma history_coalesces_witness :
  add_to_history "ls" (mkHistory ["pwd"; "ls"] 5 true)
    = Some (mkHistory ["pwd"; "ls"] 5 true)
  /\ add_lines ["ls"; "ls"] (mkHistory ["pwd"] 5 true)
    = Some (mkHistory ["pwd"; "ls"] 5 true)
  /\ add_lines ["make"; "make"] initial_history
    = Some (mkHistory ["make"] 5 true)
  /\ add_lines ["ls"; "ls"; "pwd"] initial_history
    = Some (mkHistory ["ls"; "pwd"] 5 true).
Proof.
  destruct history_coalesces_consecutive_duplicates as (A & B & C & D).
  split; [|split; [|split]].
  - apply (A (mkHistory ["pwd"; "ls"] 5 true) "ls"). reflexivity.
  - apply (B (mkHistory ["pwd"] 5 true) "ls"). reflexivity.
  - apply (C "make" 5); [reflexivity | lia].
  - apply (D 5). lia.
Defined.

(** C8: on a full ring that records, appending a line that is neither
    blank nor the newest entry drops the oldest entry and stores the line
    last; no append takes the occupancy over the capacity; the listing
    shows the entries newest first, numbered from 1.  With capacity 2,
    appending a, b, c stores [[b; c]] and the listing is
    [1) c], [2) b]. *)
Theorem history_evicts_oldest_and_lists_newest_first :
  (forall h line,
      add_to_history_enabled h = true ->
      blank line = false ->
      newest h <> Some line ->
      0 < history_capacity h ->
      current_history_count h = history_capacity h ->
      exists oldest rest,
        history h = oldest :: rest
        /\ add_to_history line h = Some (with_entries (rest ++ [line]) h)
        /\ current_history_count (with_entries (rest ++ [line]) h)
           = history_capacity h)
  /\ (forall h line h',
         within_capacity h -> add_to_history line h = Some h' ->
         within_capacity h')
  /\ (forall h,
         length (print_history h) = length (history h)
         /\ forall k, (k < length (history h))%nat ->
              nth_error (print_history h) k
              = Some (Stdout (fmt_d (Z.of_nat k + 1) ++ ") "
                              ++ nth k (rev (history h)) "" ++ nl)%string))
  /\ (exists h,
         add_lines ["a"; "b"; "c"] (mkHistory [] 2 true) = Some h
         /\ history h = ["b"; "c"]
         /\ print_history h
            = [Stdout ("1) c" ++ nl)%string; Stdout ("2) b" ++ nl)%string]).
Proof.
  split; [|split; [|split]].
  - intros h line En Bl New Cap Full.
    assert (Fresh : forall older, history h <> older ++ [line]).
    { intros older E. apply New. exact (newest_app _ _ _ E). }
    rewrite (add_to_history_fresh line h En Bl Fresh).
    rewrite Full, Z.eqb_refl.
    destruct (history h) as [|oldest rest] eqn:E.
    + unfold current_history_count in Full. rewrite E in Full. simpl in Full. lia.
    + exists oldest, rest. split; [reflexivity|]. split; [reflexivity|].
      unfold current_history_count in *. rewrite E in Full. simpl history.
      rewrite count_app_one. simpl length in Full. simpl history_capacity. lia.
  - intros h line h'. apply add_to_history_within_capacity.
  - intros h. split; [apply print_history_length|].
    intros k. apply print_history_nth.
  - exists (mkHistory ["b"; "c"] 2 true). repeat split; reflexivity.
Qed.

Lemma history_evicts_oldest_witness :
  add_to_history "c" (mkHistory ["a"; "b"] 2 true)
    = Some (mkHistory ["b"; "c"] 2 true)
  /\ within_capacity (mkHistory ["b"; "c"] 2 true)
  /\ nth_error (print_history (mkHistory ["b"; "c"] 2 true)) 1
     = Some (Stdout ("2) b" ++ nl)%string).
Proof.
  destruct history_evicts_oldest_and_lists_newest_first as (A & B & C & _).
  assert (E : add_to_history "c" (mkHistory ["a"; "b"] 2 true)
              = Some (mkHistory ["b"; "c"] 2 true)).
  { destruct (A (mkHistory ["a"; "b"] 2 true) "c") as (o & r & E1 & E2 & _).
    - reflexivity.
    - reflexivity.
    - discriminate.
    - reflexivity.
    - reflexivity.
    - simpl in E1. inversion E1; subst o r. exact E2. }
  split; [exact E|]. split.
  - apply (B (mkHistory ["a"; "b"] 2 true) "c"); [|exact E].
    unfold within_capacity, current_history_count. simpl. lia.
  - destruct (C (mkHistory ["b"; "c"] 2 true)) as [_ Nth].
    apply (Nth 1%nat). simpl. lia.
Defined.

End HistoryClaims.

(** ** Resizing the ring to zero *)

Section ResizeToZero.

Lemma history_set_0_tokens :
  first_token (strip_newline "history set 0") = Some "history"
  /\ process_input (strip_newline "history set 0") false
     = (["history"; "set"; "0"], false).
Proof. split; vm_compute; reflexivity. Qed.

Lemma history_set_0_runs (os : OS) (fuel : nat) (s : Shell) :
  parse_and_execute os (S fuel) "history set 0" s
  = Continue (set_history (mkHistory [] 0 false) s).
Proof.
  destruct history_set_0_tokens as [FT PI].
  rewrite parse_and_execute_step.
  rewrite (parse_and_execute_builtin os _ _ "history" s); try assumption;
    try discriminate; try reflexivity.
  rewrite PI. cbn [fst arg nth_error is_null negb orb].
  rewrite orb_true_r.
  unfold built_in_command. cbn [arg nth_error].
  change ("history" =? "exit")%string with false.
  change ("history" =? "cd")%string with false.
  change ("history" =? "history")%string with true. cbv iota.
  unfold cmd_history_control. cbn [arg nth_error].
  change ("set" =? "set")%string with true. cbv iota.
  change (atoi "0") with 0.
  rewrite set_history_size_zero. rewrite emit_nil. reflexivity.
Qed.

(** C5, as the specification words it, fails: the entries stored in the
    ring do not survive [history set 0]. *)
Lemma resize_to_zero_keeps_entries_counterexample :
  exists s',
    parse_and_execute friendly_os 1 "history set 0" sample_shell = Continue s'
    /\ history (sh_history sample_shell) = ["ls -l"; "echo $FOO"]
    /\ history (sh_history s') <> history (sh_history sample_shell).
Proof.
  eexists. split; [apply history_set_0_runs|].
  split; [reflexivity | discriminate].
Qed.

(** C5, amended: resizing the ring to capacity 0 disables future appends
    and evicts every entry currently stored; afterwards the ring is empty,
    its capacity is 0, and every append leaves it as it is. *)
Theorem resize_to_zero_disables_and_empties :
  (forall os tr h,
      set_history_size os tr 0 h = (mkHistory [] 0 false, []))
  /\ (forall os fuel s,
         parse_and_execute os (S fuel) "history set 0" s
         = Continue (set_history (mkHistory [] 0 false) s))
  /\ (forall line,
         add_to_history line (mkHistory [] 0 false) = Some (mkHistory [] 0 false)).
Proof.
  split; [exact set_history_size_zero|].
  split; [exact history_set_0_runs|].
  intros line. apply add_to_history_disabled. reflexivity.
Qed.

End ResizeToZero.

(** ** Variable resolution *)

Section Resolution.

Lemma env_match_entry (n v : string) : env_match n (env_entry n v) = Some v.
Proof.
  unfold env_entry. induction n as [|a n IH]; [reflexivity|].
  cbn [append env_match]. rewrite Ascii.eqb_refl. exact IH.
Qed.

Lemma env_match_inv (n e v : string) :
  env_match n e = Some v -> e = env_entry n v.
Proof.
  unfold env_entry. revert e. induction n as [|a n IH]; intros [|b e] H;
    cbn [env_match] in H; try discriminate H.
  - destruct (Ascii.eqb_spec b "=") as [->|_]; [|discriminate H].
    inversion H. reflexivity.
  - destruct (Ascii.eqb_spec a b) as [->|_]; [|discriminate H].
    cbn [append]. rewrite (IH e H). reflexivity.
Qed.

Lemma env_name_ok_inv (n : string) :
  env_name_ok n = true -> n <> "" /\ strchr n "=" = false.
Proof.
  unfold env_name_ok. intros H. apply andb_prop in H. destruct H as [A B].
  apply negb_true_iff in A, B. split; [|exact B].
  apply String.eqb_neq. exact A.
Qed.

(** A string is about the variable [n] when [getenv] finds [n] in it, and
    for a name without equals sign only then. *)
Lemma entry_name_match (e n : string) :
  entry_name e = Some n -> exists v, env_match n e = Some v.
Proof.
  revert n. induction e as [|c r IH]; intros n H; [discriminate H|].
  cbn [entry_name] in H. destruct (Ascii.eqb c "=") eqn:C.
  - inversion H. exists r. cbn [env_match]. rewrite C. reflexivity.
  - destruct (entry_name r) as [m|]; [|discriminate H].
    inversion H. destruct (IH m eq_refl) as [v M]. exists v.
    cbn [env_match]. rewrite Ascii.eqb_refl. exact M.
Qed.

Lemma entry_name_entry (n v : string) :
  strchr n "=" = false -> entry_name (env_entry n v) = Some n.
Proof.
  unfold env_entry. induction n as [|a n IH]; intros H; [reflexivity|].
  cbn [strchr] in H. apply orb_false_elim in H. destruct H as [A R].
  cbn [append entry_name]. rewrite A, (IH R). reflexivity.
Qed.

Lemma env_match_name (n e v : string) :
  strchr n "=" = false -> env_match n e = Some v -> entry_name e = Some n.
Proof.
  intros Hn M. rewrite (env_match_inv n e v M). apply entry_name_entry. exact Hn.
Qed.

Lemma env_names_cons (e : string) (env : Environ) (n : string) :
  In n (env_names (e :: env)) <-> entry_name e = Some n \/ In n (env_names env).
Proof.
  unfold env_names. cbn [flat_map]. rewrite in_app_iff.
  destruct (entry_name e) as [m|]; cbn [In]; split.
  - intros [[E|[]]|I]; [left; rewrite E; reflexivity | right; exact I].
  - intros [E|I]; [left; left; inversion E; reflexivity | right; exact I].
  - intros [[]|I]. right. exact I.
  - intros [E|I]; [discriminate E | right; exact I].
Qed.

Lemma env_lookup_fresh (env : Environ) (n : string) :
  strchr n "=" = false -> ~ In n (env_names env) -> env_lookup env n = None.
Proof.
  intros Hn. induction env as [|e env IH]; intros Fresh; [reflexivity|].
  cbn [env_lookup]. destruct (env_match n e) as [w|] eqn:M.
  - exfalso. apply Fresh. apply env_names_cons. left.
    exact (env_match_name n e w Hn M).
  - apply IH. intros I. apply Fresh. apply env_names_cons. right. exact I.
Qed.

Lemma env_lookup_first (pre post : Environ) (n v : string) :
  strchr n "=" = false -> ~ In n (env_names pre) ->
  env_lookup (pre ++ env_entry n v :: post) n = Some v.
Proof.
  intros Hn Fresh. induction pre as [|e pre IH]; cbn [app env_lookup].
  - rewrite env_match_entry. reflexivity.
  - destruct (env_match n e) as [w|] eqn:M.
    + exfalso. apply Fresh. apply env_names_cons. left.
      exact (env_match_name n e w Hn M).
    + apply IH. intros I. apply Fresh. apply env_names_cons. right. exact I.
Qed.

Lemma env_lookup_cases (env : Environ) (n : string) :
  match env_lookup env n with
  | Some v => env_binds env n v
  | None => ~ In n (env_names env)
  end.
Proof.
  induction env as [|e env IH]; [intros []|].
  cbn [env_lookup]. destruct (env_match n e) as [v|] eqn:M.
  - exists [], env. rewrite (env_match_inv n e v M). split; [reflexivity|].
    intros [].
  - assert (Other : entry_name e <> Some n).
    { intros E. destruct (entry_name_match e n E) as [v M'].
      rewrite M' in M. discriminate M. }
    destruct (env_lookup env n) as [v|].
    + destruct IH as (pre & post & E & Fresh). exists (e :: pre), post.
      split; [rewrite E; reflexivity|].
      intros I. apply env_names_cons in I. destruct I as [I|I];
        [exact (Other I) | exact (Fresh I)].
    + intros I. apply env_names_cons in I. destruct I as [I|I];
        [exact (Other I) | exact (IH I)].
Qed.

Lemma getenv_binds (env : Environ) (n v : string) :
  env_name_ok n = true -> env_binds env n v -> getenv env n = Some v.
Proof.
  intros Ok (pre & post & E & Fresh). subst env.
  destruct (env_name_ok_inv n Ok) as [NE Hn]. unfold getenv.
  rewrite (proj2 (String.eqb_neq n "") NE). apply env_lookup_first; assumption.
Qed.

Lemma getenv_unbound (env : Environ) (n : string) :
  env_name_ok n = true -> ~ In n (env_names env) -> getenv env n = None.
Proof.
  intros Ok Fresh. destruct (env_name_ok_inv n Ok) as [NE Hn]. unfold getenv.
  rewrite (proj2 (String.eqb_neq n "") NE). apply env_lookup_fresh; assumption.
Qed.

Lemma find_local_binds (vars : list LocalVar) (n v : string) (d : LocalVar) :
  local_binds vars n v ->
  exists i, find_local vars n = Some i /\ value (nth i vars d) = v.
Proof.
  intros (pre & post & E & Fresh). subst vars.
  induction pre as [|x pre IH]; simpl.
  - rewrite String.eqb_refl. exists O. split; reflexivity.
  - destruct (String.eqb_spec (name x) n) as [E|_].
    + exfalso. apply Fresh. left. exact E.
    + destruct IH as (i & F & V).
      * intros I. apply Fresh. right. exact I.
      * exists (S i). rewrite F. split; [reflexivity | exact V].
Qed.

Lemma find_local_unbound (vars : list LocalVar) (n : string) :
  ~ In n (map name vars) -> find_local vars n = None.
Proof.
  induction vars as [|x vars IH]; simpl; intros Fresh; [reflexivity|].
  destruct (String.eqb_spec (name x) n) as [E|_].
  - exfalso. apply Fresh. left. exact E.
  - rewrite IH; [reflexivity|]. intros I. apply Fresh. right. exact I.
Qed.

Lemma empty_or_self (v : string) : (if (v =? "")%string then "" else v) = v.
Proof. destruct (String.eqb_spec v ""); congruence. Qed.

(** C6, as the specification words it, fails for a name that holds an
    equals sign: [getenv] compares the name as it stands with the text of
    the strings of [environ].  After [export A=b=c] the environment has
    the one variable [A]; [A=b] is a variable neither of the environment
    nor of the store, and yet the token [$A=b] resolves to [c], not to the
    empty string: the child of [echo $A=b] gets the argument [c].  And
    [getenv] finds nothing for the empty name: when the interpreter
    inherits the string [=v], which is about the variable with the empty
    name, the token [$] still resolves to the empty string. *)
Lemma unknown_name_with_equals_sign_counterexample :
  parse_and_execute friendly_os 1 "export A=b=c" (initial_shell [])
  = Continue (set_environ ["A=b=c"] (initial_shell []))
  /\ env_names ["A=b=c"] = ["A"]
  /\ ~ In "A=b" (env_names ["A=b=c"])
  /\ ~ In "A=b" (map name (localVars (initial_shell [])))
  /\ substitute_variable ["A=b=c"] [] "$A=b" = "c"
  /\ substitute_variable ["A=b=c"] [] "$A=b" <> ""
  /\ parse_and_execute friendly_os 1 "echo $A=b"
       (set_environ ["A=b=c"] (initial_shell []))
     = Continue
         {| sh_history := mkHistory ["echo $A=b"] MAX_HISTORY true;
            localVars := []; environ := ["A=b=c"]; cwd := [];
            trace := [Fork 100 (mkChild None None [] ["echo"; "c"]);
                      WaitPid 100] |}
  /\ env_binds ["=v"] "" "v"
  /\ substitute_variable ["=v"] [] "$" = "".
Proof.
  split; [vm_compute; reflexivity|]. split; [reflexivity|].
  split; [intros [E|[]]; discriminate E|]. split; [intros []|].
  split; [reflexivity|]. split; [discriminate|].
  split; [vm_compute; reflexivity|]. split; [|reflexivity].
  exists [], []. split; [reflexivity | intros []].
Qed.

(** C6, amended: for a name that is not empty and holds no equals sign,
    the token [$n] resolves to the value of [n] in the process environment
    when it is bound there, else to its value in the variable store when
    it is bound there, else to the empty string; so a binding of the
    environment shadows a local one of the same name, and an unknown name
    gives the empty string.  Every such name falls under one of these
    cases. *)
Theorem substitution_prefers_environment (env : Environ)
    (vars : list LocalVar) (n : string) :
  env_name_ok n = true ->
  (forall v, env_binds env n v ->
             substitute_variable env vars (marker n) = v)
  /\ (forall v, ~ In n (env_names env) -> local_binds vars n v ->
                substitute_variable env vars (marker n) = v)
  /\ (~ In n (env_names env) -> ~ In n (map name vars) ->
      substitute_variable env vars (marker n) = "")
  /\ (forall v w, env_binds env n v -> local_binds vars n w ->
                  substitute_variable env vars (marker n) = v)
  /\ ((exists v, env_binds env n v) \/ ~ In n (env_names env))
  /\ ((exists v, local_binds vars n v) \/ ~ In n (map name vars)).
Proof.
  intros Ok.
  assert (A : forall v, env_binds env n v ->
                        substitute_variable env vars (marker n) = v).
  { intros v B. unfold marker, substitute_variable.
    rewrite (getenv_binds _ _ _ Ok B). apply empty_or_self. }
  split; [exact A|]. split; [|split; [|split; [|split]]].
  - intros v U B. unfold marker, substitute_variable.
    rewrite (getenv_unbound _ _ Ok U).
    destruct (find_local_binds vars n v (mkLocalVar "" "") B) as (i & F & V).
    rewrite F, V. apply empty_or_self.
  - intros U1 U2. unfold marker, substitute_variable.
    rewrite (getenv_unbound _ _ Ok U1), (find_local_unbound _ _ U2). reflexivity.
  - intros v w B _. apply A. exact B.
  - pose proof (env_lookup_cases env n) as H.
    destruct (env_lookup env n) as [v|]; [left; exists v; exact H | right; exact H].
  - clear A. induction vars as [|x vars IH]; [right; intros []|].
    destruct (String.eqb_spec (name x) n) as [E|NE].
    + left. exists (value x), [], vars. split; [|intros []].
      destruct x as [xn xv]. cbn [name value] in *. subst xn. reflexivity.
    + destruct IH as [(v & pre & post & E & Fresh) | Free].
      * left. exists v, (x :: pre), post. split; [rewrite E; reflexivity|].
        cbn [map In]. intros [I|I]; [exact (NE I) | exact (Fresh I)].
      * right. cbn [map In]. intros [I|I]; [exact (NE I) | exact (Free I)].
Qed.

Lemma substitution_prefers_environment_witness :
  substitute_variable ["FOO=env"] [mkLocalVar "FOO" "local"] "$FOO" = "env"
  /\ substitute_variable [] [mkLocalVar "FOO" "local"] "$FOO" = "local"
  /\ substitute_variable ["FOO=env"] [mkLocalVar "BAR" "x"] "$NOPE" = ""
  /\ substitute_variable ["A=b=c"] [mkLocalVar "A" "local"] "$A" = "b=c".
Proof.
  split; [|split; [|split]].
  - destruct (substitution_prefers_environment
                ["FOO=env"] [mkLocalVar "FOO" "local"] "FOO" eq_refl)
      as (_ & _ & _ & Shadow & _).
    apply (Shadow "env" "local").
    + exists [], []. split; [reflexivity | intros []].
    + exists [], []. split; [reflexivity | simpl; tauto].
  - destruct (substitution_prefers_environment
                [] [mkLocalVar "FOO" "local"] "FOO" eq_refl) as (_ & Local & _).
    apply (Local "local").
    + intros [].
    + exists [], []. split; [reflexivity | simpl; tauto].
  - destruct (substitution_prefers_environment
                ["FOO=env"] [mkLocalVar "BAR" "x"] "NOPE" eq_refl)
      as (_ & _ & Unknown & _).
    apply Unknown.
    + intros [E|[]]. discriminate E.
    + simpl. intros [E|[]]. discriminate E.
  - destruct (substitution_prefers_environment
                ["A=b=c"] [mkLocalVar "A" "local"] "A" eq_refl)
      as (Bound & _).
    apply (Bound "b=c").
    exists [], []. split; [reflexivity | intros []].
Defined.

End Resolution.

(** ** The pipeline executor *)

Section Pipeline.

Variable os : OS.

Lemma forked_argvs_app (evs1 evs2 : list Event) :
  forked_argvs (evs1 ++ evs2) = forked_argvs evs1 ++ forked_argvs evs2.
Proof. unfold forked_argvs. apply flat_map_app. Qed.

Lemma forked_argvs_fork (pid : Z) (c : Child) (evs : list Event) :
  forked_argvs (Fork pid c :: evs) = child_argv c :: forked_argvs evs.
Proof. reflexivity. Qed.

Lemma forked_argvs_waits (n : nat) : forked_argvs (repeat Wait n) = [].
Proof. induction n as [|n IH]; [reflexivity | exact IH]. Qed.

Lemma forked_children_app (evs1 evs2 : list Event) :
  forked_children (evs1 ++ evs2) = forked_children evs1 ++ forked_children evs2.
Proof. unfold forked_children. apply flat_map_app. Qed.

Lemma created_pipes_app (evs1 evs2 : list Event) :
  created_pipes (evs1 ++ evs2) = created_pipes evs1 ++ created_pipes evs2.
Proof. unfold created_pipes. apply flat_map_app. Qed.

(** The loop over the stages either forks one child per segment, each
    with the tokens of its segment as they stand, or stops at the first
    request the operating system refuses, reports it and exits. *)
Lemma pipeline_stages_spec (cmds : list string) :
  forall (i n : nat) (bg : bool) (arr : list Slot) (fd : option nat)
         (pid : Z) (s : Shell),
    match pipeline_stages os cmds i n bg arr fd pid s with
    | Continue (_, s') =>
        exists evs,
          s' = emit evs s
          /\ forallb setup_event evs = true
          /\ forked_argvs evs = map (fun c => fst (process_input c bg)) cmds
    | Exited st s' =>
        st = EXIT_FAILURE
        /\ exists evs m,
            s' = emit (evs ++ [Perror m]) s
            /\ forallb setup_event evs = true
            /\ refused os (trace s ++ evs) m
            /\ (count_forks evs < length cmds)%nat
    | Undefined | OutOfFuel => False
    end.
Proof.
  induction cmds as [|c rest IH]; intros i n bg arr fd pid s.
  - simpl. exists []. rewrite emit_nil. repeat split.
  - cbn [pipeline_stages].
    set (more := (i <? n - 1)%nat).
    assert (Step : forall pre s1,
               s1 = emit pre s -> forallb setup_event pre = true ->
               forked_argvs pre = [] ->
               match
                 match os_fork os (trace s1) with
                 | Some p =>
                     pipeline_stages os rest (S i) n bg
                       (if more then pipe_into i arr else arr)
                       (if more then Some i else fd) (Z.pos p)
                       (emit [Fork (Z.pos p)
                                (mkChild fd (if more then Some i else None)
                                         (if more then pipe_into i arr else arr)
                                         (fst (process_input c bg)))] s1)
                 | None => Exited EXIT_FAILURE (emit [Perror "fork"] s1)
                 end
               with
               | Continue (_, s') =>
                   exists evs,
                     s' = emit evs s
                     /\ forallb setup_event evs = true
                     /\ forked_argvs evs
                        = map (fun c => fst (process_input c bg)) (c :: rest)
               | Exited st s' =>
                   st = EXIT_FAILURE
                   /\ exists evs m,
                       s' = emit (evs ++ [Perror m]) s
                       /\ forallb setup_event evs = true
                       /\ refused os (trace s ++ evs) m
                       /\ (count_forks evs < length (c :: rest))%nat
               | Undefined | OutOfFuel => False
               end).
    { intros pre s1 E1 Spre Fpre.
      destruct (os_fork os (trace s1)) as [p|] eqn:F.
      - set (ev := Fork (Z.pos p)
                        (mkChild fd (if more then Some i else None)
                                 (if more then pipe_into i arr else arr)
                                 (fst (process_input c bg)))).
        specialize (IH (S i) n bg (if more then pipe_into i arr else arr)
                       (if more then Some i else fd) (Z.pos p)
                       (emit [ev] s1)).
        destruct (pipeline_stages os rest (S i) n bg _ _ _ _)
          as [[pid' s'] | st s' | | ].
        + destruct IH as (evs & E & Sev & Fev).
          exists (pre ++ ev :: evs). subst s1 s'.
          rewrite !emit_emit. split; [reflexivity|].
          split.
          * rewrite forallb_app. rewrite Spre. simpl. exact Sev.
          * rewrite forked_argvs_app, Fpre. unfold ev.
            rewrite forked_argvs_fork, Fev. reflexivity.
        + destruct IH as (Est & evs & m & E & Sev & R & C).
          split; [exact Est|]. exists (pre ++ ev :: evs), m. subst s1 s'.
          rewrite !emit_emit. split.
          { f_equal. rewrite <- app_assoc. reflexivity. }
          split.
          { rewrite forallb_app. rewrite Spre. simpl. exact Sev. }
          split.
          { simpl trace in R. rewrite <- !app_assoc in R. exact R. }
          { unfold count_forks in *. rewrite forked_argvs_app, Fpre.
            unfold ev. rewrite forked_argvs_fork. simpl length. lia. }
        + exact IH.
        + exact IH.
      - split; [reflexivity|]. exists pre, "fork". subst s1.
        rewrite emit_emit. split; [reflexivity|]. split; [exact Spre|].
        split.
        + right. split; [reflexivity | exact F].
        + unfold count_forks. rewrite Fpre. simpl. lia. }
    destruct more.
    + destruct (os_pipe os (trace s)) eqn:P.
      * cbn [bind]. apply (Step [PipeCreated i]); reflexivity.
      * cbn [bind]. split; [reflexivity|]. exists [], "Couldn't Pipe".
        split; [reflexivity|]. split; [reflexivity|]. split.
        -- left. rewrite app_nil_r. split; [reflexivity | exact P].
        -- unfold count_forks. simpl. lia.
    + cbn [bind]. apply (Step []); try reflexivity.
      symmetry. apply emit_nil.
Qed.

(** [execute_piped_commands] on at least one segment. *)
Lemma execute_piped_commands_spec (cmds : list string) (bg : bool) (s : Shell) :
  cmds <> [] ->
  match execute_piped_commands os cmds bg s with
  | Continue s' =>
      exists evs pid,
        s' = emit (evs ++ [if bg
                           then Stdout ("[PID " ++ fmt_d pid
                                        ++ " running in background]" ++ nl)%string
                           else Wait]
                       ++ (if bg then [] else repeat Wait (length cmds - 1))) s
        /\ forallb setup_event evs = true
        /\ forked_argvs evs = map (fun c => fst (process_input c bg)) cmds
  | Exited st s' =>
      st = EXIT_FAILURE
      /\ exists evs m,
          s' = emit (evs ++ [Perror m]) s
          /\ forallb setup_event evs = true
          /\ refused os (trace s ++ evs) m
          /\ (count_forks evs < length cmds)%nat
  | Undefined | OutOfFuel => False
  end.
Proof.
  intros NE. unfold execute_piped_commands.
  destruct cmds as [|c rest]; [congruence|].
  cbn [length].
  pose proof (pipeline_stages_spec (c :: rest) 0 (S (length rest)) bg
                (repeat Unwritten (2 * (S (length rest) - 1))) None 0 s) as H.
  destruct (pipeline_stages os (c :: rest) 0 (S (length rest)) bg _ None 0 s)
    as [[pid s1] | st s1 | | ]; cbn [bind]; try exact H.
  destruct H as (evs & E & Sev & Fev). subst s1.
  destruct bg; cbn [negb].
  - exists evs, pid. rewrite emit_emit. rewrite app_nil_r.
    split; [reflexivity|]. split; assumption.
  - exists evs, pid. rewrite emit_emit.
    replace (S (length rest) - 1)%nat with (length rest) by lia.
    split; [reflexivity|]. split; assumption.
Qed.

Lemma granted_app (a : list Event) :
  forall tr b,
    granted os tr a -> granted os (tr ++ a) b -> granted os tr (a ++ b).
Proof.
  induction a as [|e a IH]; intros tr b Ha Hb.
  - rewrite app_nil_r in Hb. exact Hb.
  - cbn [granted app] in *. destruct Ha as [He Ha]. split; [exact He|].
    apply IH; [exact Ha|]. rewrite <- app_assoc. exact Hb.
Qed.

(** Every pipe and fork a run of the stages has in its trace was granted
    when it was asked for, and a run that returns has made the pipe of
    every stage but the last. *)
Lemma pipeline_stages_requests (cmds : list string) :
  forall (i n : nat) (bg : bool) (arr : list Slot) (fd : option nat)
         (pid : Z) (s : Shell),
    n = (i + length cmds)%nat ->
    match pipeline_stages os cmds i n bg arr fd pid s with
    | Continue (_, s') =>
        exists evs,
          s' = emit evs s
          /\ granted os (trace s) evs
          /\ created_pipes evs = seq i (length cmds - 1)
    | Exited _ s' =>
        exists evs m,
          s' = emit (evs ++ [Perror m]) s /\ granted os (trace s) evs
    | Undefined | OutOfFuel => True
    end.
Proof.
  induction cmds as [|c rest IH]; intros i n bg arr fd pid s Hn.
  - cbn. exists []. rewrite emit_nil. repeat split.
  - cbn [pipeline_stages].
    assert (Step : forall pre,
               granted os (trace s) pre ->
               created_pipes pre ++ seq (S i) (length rest - 1)
               = seq i (length (c :: rest) - 1) ->
               match
                 match os_fork os (trace (emit pre s)) with
                 | Some p =>
                     pipeline_stages os rest (S i) n bg
                       (if (i <? n - 1)%nat then pipe_into i arr else arr)
                       (if (i <? n - 1)%nat then Some i else fd) (Z.pos p)
                       (emit [Fork (Z.pos p)
                                (mkChild fd
                                   (if (i <? n - 1)%nat then Some i else None)
                                   (if (i <? n - 1)%nat then pipe_into i arr else arr)
                                   (fst (process_input c bg)))] (emit pre s))
                 | None => Exited EXIT_FAILURE (emit [Perror "fork"] (emit pre s))
                 end
               with
               | Continue (_, s') =>
                   exists evs,
                     s' = emit evs s
                     /\ granted os (trace s) evs
                     /\ created_pipes evs = seq i (length (c :: rest) - 1)
               | Exited _ s' =>
                   exists evs m,
                     s' = emit (evs ++ [Perror m]) s /\ granted os (trace s) evs
               | Undefined | OutOfFuel => True
               end).
    { intros pre Gpre Cpre.
      destruct (os_fork os (trace (emit pre s))) as [p|] eqn:F.
      - set (ev := Fork (Z.pos p) _).
        assert (Gev : granted os (trace s) (pre ++ [ev])).
        { apply granted_app; [exact Gpre|]. cbn [granted]. split; [|exact I].
          exists p. split; [exact F | reflexivity]. }
        specialize (IH (S i) n bg
                       (if (i <? n - 1)%nat then pipe_into i arr else arr)
                       (if (i <? n - 1)%nat then Some i else fd) (Z.pos p)
                       (emit [ev] (emit pre s))).
        destruct (pipeline_stages os rest (S i) n bg _ _ _ _)
          as [[pid' s'] | st s' | | ]; try exact I.
        + destruct IH as (evs & E & G & C); [subst n; cbn [length]; lia|].
          exists ((pre ++ [ev]) ++ evs). subst s'. rewrite !emit_emit.
          split; [rewrite <- !app_assoc; reflexivity|]. split.
          * apply granted_app; [exact Gev|].
            cbn [emit trace] in G. rewrite <- app_assoc in G. exact G.
          * rewrite !created_pipes_app, C. cbn [created_pipes flat_map app].
            rewrite app_nil_r. exact Cpre.
        + destruct IH as (evs & m & E & G); [subst n; cbn [length]; lia|].
          exists ((pre ++ [ev]) ++ evs), m. subst s'. rewrite !emit_emit.
          split; [rewrite <- !app_assoc; reflexivity|].
          apply granted_app; [exact Gev|].
          cbn [emit trace] in G. rewrite <- app_assoc in G. exact G.
      - exists pre, "fork". rewrite emit_emit. split; [reflexivity | exact Gpre]. }
    destruct (i <? n - 1)%nat eqn:M.
    + destruct (os_pipe os (trace s)) eqn:P; cbn [bind].
      * apply (Step [PipeCreated i]).
        -- cbn [granted]. split; [exact P | exact I].
        -- apply Nat.ltb_lt in M. subst n. cbn [length] in *.
           destruct (length rest) as [|k]; [lia|].
           cbn [created_pipes flat_map app]. replace (S k - 1)%nat with k by lia.
           replace (S (S k) - 1)%nat with (S k) by lia. reflexivity.
      * exists [], "Couldn't Pipe". split; [reflexivity | exact I].
    + cbn [bind].
      assert (H : created_pipes [] ++ seq (S i) (length rest - 1)
                  = seq i (length (c :: rest) - 1)).
      { apply Nat.ltb_ge in M. subst n. cbn [length] in *.
        replace (length rest) with 0%nat by lia. reflexivity. }
      pose proof (Step [] I H) as St. rewrite emit_nil in St. exact St.
Qed.

Lemma granted_waits (tr : list Event) (k : nat) :
  granted os tr (repeat Wait k).
Proof.
  revert tr. induction k as [|k IH]; intros tr; [exact I|].
  cbn [repeat granted]. split; [exact I | apply IH].
Qed.

Lemma created_pipes_waits (k : nat) : created_pipes (repeat Wait k) = [].
Proof. induction k as [|k IH]; [reflexivity | exact IH]. Qed.

Lemma emit_inj (a b : list Event) (s : Shell) : emit a s = emit b s -> a = b.
Proof.
  intros E. apply (f_equal trace) in E. cbn [emit trace] in E.
  exact (app_inv_head _ _ _ E).
Qed.

End Pipeline.

(** ** Failure of pipe and fork *)

Section ResourceFailure.

(** C3, as the specification words it, fails: when [fork] is refused for
    the first stage of [ls | wc] the interpreter does not go on to the
    next line, it exits with status [EXIT_FAILURE]. *)
Lemma fork_failure_survival_counterexample :
  os_fork exhausted_os [PipeCreated 0] = None
  /\ parse_and_execute exhausted_os 1 "ls | wc" (initial_shell [])
     = Exited EXIT_FAILURE
              (emit [PipeCreated 0; Perror "fork"] (initial_shell []))
  /\ forall s',
       parse_and_execute exhausted_os 1 "ls | wc" (initial_shell [])
       <> Continue s'.
Proof.
  assert (E : parse_and_execute exhausted_os 1 "ls | wc" (initial_shell [])
              = Exited EXIT_FAILURE
                       (emit [PipeCreated 0; Perror "fork"] (initial_shell []))).
  { vm_compute. reflexivity. }
  split; [reflexivity|]. split; [exact E|].
  intros s'. rewrite E. discriminate.
Qed.

(** C3, amended: a refused [fork] or [pipe] is reported with [perror], no
    further stage is set up, and the interpreter itself exits: with status
    -1 for a single command, with [EXIT_FAILURE] from a pipeline.  At
    whatever stage of a pipeline the operating system refuses the pipe,
    or grants it and refuses the fork, that stage ends the process with
    the report as the last thing done.  For the pipeline as a whole: the
    children forked before the failure are fewer than the stages, and
    every pipe and fork before it was granted; a pipeline returns only
    when the pipe of every stage but the last was made, a child was forked
    for every stage, and each of these requests was granted.  The exit of
    the executor is the exit of the line. *)
Theorem resource_failure_terminates_interpreter (os : OS) :
  (forall argv bg s,
      fst (isValidCommand
             (filter (fun a => negb (a =? "")%string)
                     (map (substitute_variable (environ s) (localVars s)) argv)))
      = true ->
      os_fork os (trace s) = None ->
      execute_command os argv bg s
      = Exited (-1) (emit [Perror "fork failed"] s))
  /\ (forall c rest i n bg arr fd pid s,
         (i < n - 1)%nat ->
         os_pipe os (trace s) = false ->
         pipeline_stages os (c :: rest) i n bg arr fd pid s
         = Exited EXIT_FAILURE (emit [Perror "Couldn't Pipe"] s))
  /\ (forall c rest i n bg arr fd pid s,
         ((i < n - 1)%nat -> os_pipe os (trace s) = true) ->
         os_fork os (trace s ++ (if (i <? n - 1)%nat then [PipeCreated i] else []))
         = None ->
         pipeline_stages os (c :: rest) i n bg arr fd pid s
         = Exited EXIT_FAILURE
                  (emit ((if (i <? n - 1)%nat then [PipeCreated i] else [])
                         ++ [Perror "fork"]) s))
  /\ (forall cmds bg s,
         cmds <> [] ->
         match execute_piped_commands os cmds bg s with
         | Continue s' =>
             exists evs,
               s' = emit evs s
               /\ count_forks evs = length cmds
               /\ created_pipes evs = seq 0 (length cmds - 1)
               /\ granted os (trace s) evs
         | Exited st s' =>
             st = EXIT_FAILURE
             /\ exists evs m,
                 s' = emit (evs ++ [Perror m]) s
                 /\ forallb setup_event evs = true
                 /\ refused os (trace s ++ evs) m
                 /\ (count_forks evs < length cmds)%nat
                 /\ granted os (trace s) evs
         | Undefined | OutOfFuel => False
         end)
  /\ (forall fuel line t s st s',
         line <> "" ->
         first_token (strip_newline line) = Some t ->
         isBuiltInCommand t = false ->
         dispatch_external os (strip_newline line) s = Exited st s' ->
         parse_and_execute os (S fuel) line s = Exited st s').
Proof.
  split; [|split; [|split; [|split]]].
  - intros argv bg s V F. unfold execute_command.
    destruct (isValidCommand _) as [valid printed]. simpl in V. subst valid.
    cbn [negb]. rewrite F. reflexivity.
  - intros c rest i n bg arr fd pid s Lt P. cbn [pipeline_stages].
    rewrite (proj2 (Nat.ltb_lt i (n - 1)) Lt), P. reflexivity.
  - intros c rest i n bg arr fd pid s P F. cbn [pipeline_stages].
    destruct (i <? n - 1)%nat eqn:M.
    + rewrite (P (proj1 (Nat.ltb_lt i (n - 1)) M)). cbn [bind].
      change (trace (emit [PipeCreated i] s)) with (trace s ++ [PipeCreated i]).
      rewrite F, emit_emit. reflexivity.
    + cbn [bind]. rewrite app_nil_r in F. rewrite F. reflexivity.
  - intros cmds bg s NE. unfold execute_piped_commands.
    destruct cmds as [|c rest]; [congruence|].
    set (n := length (c :: rest)).
    pose proof (pipeline_stages_spec os (c :: rest) 0 n bg
                  (repeat Unwritten (2 * (n - 1))) None 0 s) as H1.
    pose proof (pipeline_stages_requests os (c :: rest) 0 n bg
                  (repeat Unwritten (2 * (n - 1))) None 0 s eq_refl) as H2.
    destruct (pipeline_stages os (c :: rest) 0 n bg _ None 0 s)
      as [[pid s1] | st s1 | | ]; cbn [bind]; try exact H1.
    + destruct H1 as (evs & E & _ & Fev).
      destruct H2 as (evs' & E' & G & C). subst s1.
      apply emit_inj in E'. subst evs'.
      assert (Tail : forall tail,
                 forked_argvs tail = [] -> created_pipes tail = [] ->
                 granted os (trace s ++ evs) tail ->
                 exists evs0,
                   emit tail (emit evs s) = emit evs0 s
                   /\ count_forks evs0 = length (c :: rest)
                   /\ created_pipes evs0 = seq 0 (length (c :: rest) - 1)
                   /\ granted os (trace s) evs0).
      { intros tail F0 C0 G0. exists (evs ++ tail). rewrite emit_emit.
        split; [reflexivity|]. split; [|split].
        - unfold count_forks. rewrite forked_argvs_app, Fev, F0, app_nil_r.
          apply length_map.
        - rewrite created_pipes_app, C, C0, app_nil_r. reflexivity.
        - apply granted_app; assumption. }
      destruct bg; cbn [negb].
      * destruct (Tail [Stdout ("[PID " ++ fmt_d pid
                               ++ " running in background]" ++ nl)%string])
          as (evs0 & E0 & R); [reflexivity | reflexivity | split; exact I |].
        exists evs0. rewrite E0. split; [reflexivity | exact R].
      * destruct (Tail (repeat Wait n)) as (evs0 & E0 & R).
        -- apply forked_argvs_waits.
        -- apply created_pipes_waits.
        -- apply granted_waits.
        -- exists evs0. rewrite E0. split; [reflexivity | exact R].
    + destruct H1 as (Est & evs & m & E & Sev & R & C).
      destruct H2 as (evs' & m' & E' & G). subst s1.
      apply emit_inj in E'. apply app_inj_tail in E'. destruct E' as [E' _].
      subst evs'. split; [exact Est|]. exists evs, m.
      repeat split; assumption.
  - intros fuel line t s st s' NE FT BI D.
    rewrite parse_and_execute_step.
    rewrite (parse_and_execute_external os _ line t s NE FT BI).
    rewrite D. reflexivity.
Qed.

Lemma resource_failure_witness :
  execute_command exhausted_os ["ls"] false (initial_shell [])
    = Exited (-1) (emit [Perror "fork failed"] (initial_shell []))
  /\ pipeline_stages pipeless_os ["ls "; " wc"] 0 2 false
                     [Unwritten; Unwritten] None 0 (initial_shell [])
     = Exited EXIT_FAILURE (emit [Perror "Couldn't Pipe"] (initial_shell []))
  /\ pipeline_stages exhausted_os ["ls "; " wc"] 0 2 false
                     [Unwritten; Unwritten] None 0 (initial_shell [])
     = Exited EXIT_FAILURE
              (emit [PipeCreated 0; Perror "fork"] (initial_shell []))
  /\ match execute_piped_commands exhausted_os ["ls "; " wc"] false
                                  (initial_shell []) with
     | Continue s' =>
         exists evs,
           s' = emit evs (initial_shell [])
           /\ count_forks evs = 2%nat
           /\ created_pipes evs = [0%nat]
           /\ granted exhausted_os [] evs
     | Exited st s' =>
         st = EXIT_FAILURE
         /\ exists evs m,
             s' = emit (evs ++ [Perror m]) (initial_shell [])
             /\ forallb setup_event evs = true
             /\ refused exhausted_os (trace (initial_shell []) ++ evs) m
             /\ (count_forks evs < 2)%nat
             /\ granted exhausted_os [] evs
     | Undefined | OutOfFuel => False
     end
  /\ parse_and_execute exhausted_os 1 "ls | wc" (initial_shell [])
     = Exited EXIT_FAILURE
              (emit [PipeCreated 0; Perror "fork"] (initial_shell [])).
Proof.
  destruct (resource_failure_terminates_interpreter exhausted_os)
    as (Single & _ & Fork & Pipeline & Line).
  destruct (resource_failure_terminates_interpreter pipeless_os)
    as (_ & Pipe & _).
  split; [|split; [|split; [|split]]].
  - apply Single; reflexivity.
  - apply Pipe; [lia | reflexivity].
  - apply (Fork "ls " [" wc"] 0%nat 2%nat); [reflexivity | reflexivity].
  - apply (Pipeline ["ls "; " wc"] false (initial_shell [])). discriminate.
  - apply (Line O "ls | wc" "ls").
    + discriminate.
    + reflexivity.
    + reflexivity.
    + vm_compute. reflexivity.
Defined.

End ResourceFailure.

(** ** Divergences between the executor and its description *)

Section Divergences.

(** C1: the line [sleep 5 | cat &] ends with the detach marker, yet the
    interpreter waits for both children and reports no process
    identifier; the marker only takes effect on a single command.  Any
    pipeline of two or more segments is waited for, whatever its
    segments contain. *)
Theorem detached_pipeline_is_waited_for :
  parse_and_execute friendly_os 1 "sleep 5 | cat &" (initial_shell [])
  = Continue
      {| sh_history := mkHistory ["sleep 5 | cat &"] MAX_HISTORY true;
         localVars := []; environ := []; cwd := [];
         trace := [PipeCreated 0;
                   Fork 100 (mkChild None (Some O) [ReadEnd 0; WriteEnd 0]
                                     ["sleep"; "5"]);
                   Fork 101 (mkChild (Some O) None [ReadEnd 0; WriteEnd 0]
                                     ["cat"]);
                   Wait; Wait] |}
  /\ parse_and_execute friendly_os 1 "sleep 5 &" (initial_shell [])
     = Continue
         {| sh_history := mkHistory ["sleep 5 &"] MAX_HISTORY true;
            localVars := []; environ := []; cwd := [];
            trace := [Fork 100 (mkChild None None [] ["sleep"; "5"]);
                      Stdout ("[PID 100 running in background]" ++ nl)%string] |}
  /\ forall os c1 c2 cs s,
       match execute_piped_commands os (c1 :: c2 :: cs) false s with
       | Continue s' =>
           exists evs,
             s' = emit (evs ++ repeat Wait (2 + length cs)) s
             /\ forallb setup_event evs = true
       | _ => True
       end.
Proof.
  split; [vm_compute; reflexivity|]. split; [vm_compute; reflexivity|].
  intros os c1 c2 cs s.
  assert (NE : c1 :: c2 :: cs <> []) by discriminate.
  pose proof (execute_piped_commands_spec os _ false s NE) as H.
  destruct (execute_piped_commands os (c1 :: c2 :: cs) false s); try exact I.
  destruct H as (evs & pid & E & Sev & _).
  exists evs. split; [|exact Sev]. rewrite E. reflexivity.
Qed.

(** C2: in the pipeline [echo $FOO | cat] the first child executes
    [echo] with the literal argument [$FOO] although [FOO] is bound to
    [bar]; the single command [echo $FOO] gets [bar].  In any pipeline of
    two or more segments every child receives the tokens of its segment
    as they stand. *)
Theorem pipeline_stage_is_not_substituted :
  (exists s',
      parse_and_execute friendly_os 1 "echo $FOO | cat" sample_shell = Continue s'
      /\ forked_argvs (trace s') = [["echo"; "$FOO"]; ["cat"]])
  /\ (exists s',
         parse_and_execute friendly_os 1 "echo $FOO" sample_shell = Continue s'
         /\ forked_argvs (trace s') = [["echo"; "bar"]])
  /\ forall os c1 c2 cs s,
       match execute_piped_commands os (c1 :: c2 :: cs) false s with
       | Continue s' =>
           exists evs,
             trace s' = trace s ++ evs
             /\ forked_argvs evs
                = map (fun c => fst (process_input c false)) (c1 :: c2 :: cs)
       | _ => True
       end.
Proof.
  split; [eexists; split; vm_compute; reflexivity|].
  split; [eexists; split; vm_compute; reflexivity|].
  intros os c1 c2 cs s.
  assert (NE : c1 :: c2 :: cs <> []) by discriminate.
  pose proof (execute_piped_commands_spec os _ false s NE) as H.
  destruct (execute_piped_commands os (c1 :: c2 :: cs) false s); try exact I.
  destruct H as (evs & pid & E & _ & Fev).
  eexists. split; [rewrite E; reflexivity|].
  rewrite !forked_argvs_app, Fev, forked_argvs_waits.
  simpl. rewrite !app_nil_r. reflexivity.
Qed.

Lemma local_FOO_tokens :
  first_token (strip_newline "local FOO") = Some "local"
  /\ process_input (strip_newline "local FOO") false = (["local"; "FOO"], false)
  /\ split_assignment "FOO" = (Some "FOO", None).
Proof. repeat split; vm_compute; reflexivity. Qed.

(** C4: the malformed line [local FOO] (no [NAME=VALUE] token) prints no
    diagnostic and, in every state, removes [FOO] from the variable store
    when it is bound; [cd a b] changes to [a]; [history set abc] empties
    the ring and stops the recording.  [isValidCommand] rejects each of
    these argument vectors, but it is not applied to the built-ins. *)
Theorem malformed_builtin_has_side_effects :
  parse_and_execute friendly_os 1 "local FOO" sample_shell
    = Continue (set_localVars [] sample_shell)
  /\ (forall os fuel s,
         parse_and_execute os (S fuel) "local FOO" s
         = Continue match find_local (localVars s) "FOO" with
                    | Some found => set_localVars (remove_at found (localVars s)) s
                    | None => s
                    end)
  /\ fst (isValidCommand ["local"; "FOO"]) = false
  /\ parse_and_execute friendly_os 1 "cd a b" sample_shell
     = Continue (set_cwd ["a"] sample_shell)
  /\ fst (isValidCommand ["cd"; "a"; "b"]) = false
  /\ parse_and_execute friendly_os 1 "history set abc" sample_shell
     = Continue (set_history (mkHistory [] 0 false) sample_shell)
  /\ fst (isValidCommand ["history"; "set"; "abc"]) = false.
Proof.
  split; [vm_compute; reflexivity|]. split.
  - intros os fuel s. destruct local_FOO_tokens as (FT & PI & SA).
    rewrite parse_and_execute_step.
    rewrite (parse_and_execute_builtin os _ _ "local" s);
      try assumption; try discriminate; try reflexivity.
    rewrite PI. cbn [fst]. change (negb ("local" =? "history")%string) with true.
    cbn [orb]. unfold built_in_command. cbn [arg nth_error].
    change ("local" =? "exit")%string with false.
    change ("local" =? "cd")%string with false.
    change ("local" =? "history")%string with false.
    change ("local" =? "export")%string with false.
    change ("local" =? "local")%string with true.
    cbn [andb negb is_null]. rewrite SA.
    unfold cmd_local. cbn [is_null orb].
    destruct (find_local (localVars s) "FOO"); reflexivity.
  - repeat split; vm_compute; reflexivity.
Qed.

End Divergences.

(** ** Recall and the recording of lines *)

Section Recording.

Variable os : OS.

Lemma set_history_same (s : Shell) : set_history (sh_history s) s = s.
Proof. destruct s; reflexivity. Qed.

Lemma only_evicted_refl (l : list string) : only_evicted l l.
Proof. exists O. reflexivity. Qed.

Lemma only_evicted_trans (l1 l2 l3 : list string) :
  only_evicted l1 l2 -> only_evicted l2 l3 -> only_evicted l1 l3.
Proof.
  intros [n E1] [m E2]. subst. exists (n + m)%nat.
  apply skipn_skipn.
Qed.

Lemma evict_oldest_until_evicts (n : Z) (l : list string) :
  only_evicted (evict_oldest_until n l) l.
Proof.
  induction l as [|x l IH]; [apply only_evicted_refl|].
  cbn [evict_oldest_until].
  destruct (Z.of_nat (length (x :: l)) >? n); [|apply only_evicted_refl].
  destruct IH as [k E]. exists (S k). exact E.
Qed.

Lemma evict_oldest_until_fits (n : Z) (l : list string) :
  0 <= n -> Z.of_nat (length (evict_oldest_until n l)) <= n.
Proof.
  intros Hn. induction l as [|x l IH]; [simpl; lia|].
  cbn [evict_oldest_until].
  destruct (Z.of_nat (length (x :: l)) >? n) eqn:G; [exact IH|].
  rewrite Z.gtb_ltb in G. apply Z.ltb_ge in G. exact G.
Qed.

(** [set_history_size] only evicts, whatever the size asked for. *)
Lemma set_history_size_evicts (tr : list Event) (n : Z) (h : History) :
  only_evicted (history (fst (set_history_size os tr n h))) (history h).
Proof.
  unfold set_history_size.
  destruct (n <? 0) eqn:Neg; [apply only_evicted_refl|].
  apply Z.ltb_ge in Neg.
  destruct (negb (os_realloc os tr n) && (n >? 0)).
  - simpl. apply evict_oldest_until_evicts.
  - cbn [fst].
    assert (Fit : (current_history_count
                     (with_capacity n
                        (with_entries
                           (evict_oldest_until n (history (with_enabled (negb (n =? 0)) h)))
                           (with_enabled (negb (n =? 0)) h))) >? n) = false).
    { unfold current_history_count. simpl history.
      rewrite Z.gtb_ltb. apply Z.ltb_ge. apply evict_oldest_until_fits. exact Neg. }
    rewrite Fit. simpl. apply evict_oldest_until_evicts.
Qed.

(** Resizing keeps the occupancy within the capacity, also when [realloc]
    fails and the capacity stays what it was. *)
Lemma set_history_size_within_capacity (tr : list Event) (n : Z) (h : History) :
  within_capacity h -> within_capacity (fst (set_history_size os tr n h)).
Proof.
  unfold within_capacity. intros W.
  pose proof (set_history_size_evicts tr n h) as [k E].
  assert (Shrunk : current_history_count (fst (set_history_size os tr n h))
                   <= current_history_count h).
  { unfold current_history_count. rewrite E, length_skipn. lia. }
  unfold set_history_size in *.
  destruct (n <? 0) eqn:Neg; [exact W|]. apply Z.ltb_ge in Neg.
  destruct (negb (os_realloc os tr n) && (n >? 0)).
  - cbn [fst] in *. simpl history_capacity. lia.
  - cbn [fst] in *.
    assert (Fit : Z.of_nat (length (evict_oldest_until n (history h))) <= n)
      by (apply evict_oldest_until_fits; exact Neg).
    unfold current_history_count in *. simpl history in *.
    destruct (Z.of_nat (length (evict_oldest_until n (history h))) >? n) eqn:G.
    + rewrite Z.gtb_ltb in G. apply Z.ltb_lt in G. lia.
    + simpl. exact Fit.
Qed.

(** The executor touches nothing but the trace. *)
Lemma execute_command_frame (argv : list string) (bg : bool) (s : Shell) :
  match execute_command os argv bg s with
  | Continue s' | Exited _ s' => exists evs, s' = emit evs s
  | Undefined | OutOfFuel => False
  end.
Proof.
  unfold execute_command.
  destruct (isValidCommand _) as [valid printed].
  destruct (negb valid); [eexists; reflexivity|].
  destruct (os_fork os (trace s)); [|eexists; reflexivity].
  destruct (negb bg); rewrite emit_emit; eexists; reflexivity.
Qed.

Lemma dispatch_external_frame (input : string) (s : Shell) :
  match dispatch_external os input s with
  | Continue s' | Exited _ s' => exists evs, s' = emit evs s
  | Undefined => split_pipeline input = []
  | OutOfFuel => False
  end.
Proof.
  unfold dispatch_external.
  destruct (split_pipeline input) as [|c0 [|c1 cs]] eqn:E.
  - reflexivity.
  - destruct (process_input c0 false) as [argv bg].
    pose proof (execute_command_frame argv bg s) as H.
    destruct (execute_command os argv bg s); try exact H. destruct H.
  - assert (NE : c0 :: c1 :: cs <> []) by discriminate.
    pose proof (execute_piped_commands_spec os _ false s NE) as H.
    destruct (execute_piped_commands os (c0 :: c1 :: cs) false s);
      try (destruct H; fail).
    + destruct H as (evs & pid & E1 & _). eexists. exact E1.
    + destruct H as (_ & evs & m & E1 & _). eexists. exact E1.
Qed.

(** An external line run while the recording is off leaves everything
    but the trace as it was. *)
Lemma external_line_not_recorded (rec : string -> Shell -> outcome)
    (line t : string) (s : Shell) :
  line <> "" ->
  first_token (strip_newline line) = Some t ->
  isBuiltInCommand t = false ->
  add_to_history_enabled (sh_history s) = false ->
  match parse_and_execute_body os rec line s with
  | Continue s' | Exited _ s' => exists evs, s' = emit evs s
  | Undefined => split_pipeline (strip_newline line) = []
  | OutOfFuel => False
  end.
Proof.
  intros NE FT BI Off.
  rewrite (parse_and_execute_external os rec line t s NE FT BI).
  pose proof (dispatch_external_frame (strip_newline line) s) as H.
  destruct (dispatch_external os (strip_newline line) s) as [s1 | st s1 | | ];
    cbn [bind]; try exact H.
  destruct H as [evs E]. subst s1.
  rewrite add_to_history_disabled by exact Off.
  rewrite set_history_same. exists evs. reflexivity.
Qed.

(** A line without a first token never returns. *)
Lemma parse_and_execute_no_token (rec : string -> Shell -> outcome)
    (line : string) (s : Shell) :
  first_token (strip_newline line) = None ->
  match parse_and_execute_body os rec line s with
  | Continue _ => False
  | Exited _ s' => exists evs, s' = emit evs s
  | Undefined => True
  | OutOfFuel => False
  end.
Proof.
  intros FT. unfold parse_and_execute_body.
  destruct line as [|c r]; [exact I|].
  unfold first_token in FT. rewrite FT. cbv iota. cbn [negb].
  fold (split_pipeline (strip_newline (String c r))).
  pose proof (dispatch_external_frame (strip_newline (String c r)) s) as H.
  unfold dispatch_external in H.
  destruct (split_pipeline (strip_newline (String c r))) as [|c0 [|c1 cs]].
  - exact I.
  - destruct (process_input c0 false) as [argv bg].
    destruct (execute_command os argv bg s); cbn [bind]; try exact I; exact H.
  - destruct (execute_piped_commands os (c0 :: c1 :: cs) false s);
      cbn [bind]; try exact I; exact H.
Qed.

(** What a built-in can do, as a rule of case analysis: report, exit,
    change the working directory, the environment or the variable store,
    evict from the ring, or recall an entry. *)
Lemma built_in_command_cases (P : outcome -> Prop)
    (rec : string -> Shell -> outcome) (argv : list string) (s : Shell) :
  P Undefined ->
  P (Exited 0 s) ->
  (forall evs, P (Continue (emit evs s))) ->
  (forall d, P (Continue (set_cwd d s))) ->
  (forall env, P (Continue (set_environ env s))) ->
  (forall vars, P (Continue (set_localVars vars s))) ->
  (forall h evs,
      only_evicted (history h) (history (sh_history s)) ->
      P (Continue (emit evs (set_history h s)))) ->
  (forall k, P (execute_history_command rec k s)) ->
  P (built_in_command os rec argv s).
Proof.
  intros PU PX PE PD PV PL PH PR.
  assert (PS : P (Continue s)).
  { rewrite <- (emit_nil s). apply PE. }
  unfold built_in_command.
  destruct (arg 0 argv) as [a0|]; [|exact PU].
  destruct (a0 =? "exit")%string.
  { unfold cmd_exit. destruct (negb _); [apply PE | exact PX]. }
  destruct (a0 =? "cd")%string.
  { unfold cmd_cd. destruct (arg 1 argv) as [p|]; [|apply PE].
    destruct (os_chdir os (cwd s) p); [apply PD | apply PE]. }
  destruct (a0 =? "history")%string.
  { unfold cmd_history_control.
    destruct (arg 1 argv) as [a1|]; [|apply PE].
    destruct (arg 2 argv) as [a2|]; [|apply PR].
    destruct (a1 =? "set")%string; [|apply PR].
    pose proof (set_history_size_evicts (trace s) (atoi a2) (sh_history s)) as Ev.
    destruct (set_history_size os (trace s) (atoi a2) (sh_history s)) as [h printed].
    apply PH. exact Ev. }
  destruct ((a0 =? "export")%string && negb (is_null (arg 1 argv))).
  { destruct (arg 1 argv) as [a1|]; [|exact PS].
    destruct (split_assignment a1) as [n v]. unfold cmd_export.
    destruct n as [nm|]; [|apply PE].
    destruct (is_null v || str_is v "");
      [destruct (unsetenv nm (environ s)); [apply PV | apply PE]|].
    destruct v as [val|]; [|exact PS].
    destruct (setenv nm val (environ s)); [apply PV | apply PE]. }
  destruct ((a0 =? "local")%string && negb (is_null (arg 1 argv))).
  { destruct (arg 1 argv) as [a1|]; [|exact PS].
    destruct (split_assignment a1) as [n v]. unfold cmd_local.
    destruct (is_null v || str_is v "").
    - destruct n as [nm|].
      + destruct (find_local (localVars s) nm); [apply PL | exact PS].
      + destruct (localVars s); [exact PS | exact PU].
    - destruct n as [nm|]; [|exact PU]. destruct v as [val|]; [|exact PU].
      destruct (find_local (localVars s) nm); [apply PL|].
      destruct (localVarCount s <? MAX_LOCAL_VARS)%nat; [apply PL | exact PS]. }
  destruct (a0 =? "vars")%string; [apply PE | exact PS].
Qed.

Lemma recallable_inv (e : string) :
  recallable e = true ->
  e <> ""
  /\ (exists t, first_token (strip_newline e) = Some t
                /\ isBuiltInCommand t = false)
  /\ split_pipeline (strip_newline e) <> [].
Proof.
  unfold recallable. intros H.
  apply andb_prop in H. destruct H as [H S3].
  apply andb_prop in H. destruct H as [S1 S2].
  split; [|split].
  - intros E. subst e. discriminate S1.
  - destruct (first_token (strip_newline e)) as [t|]; [|discriminate].
    exists t. split; [reflexivity|]. destruct (isBuiltInCommand t); [discriminate|reflexivity].
  - destruct (split_pipeline (strip_newline e)); [discriminate | discriminate].
Qed.

(** The recall of a recorded line returns, or the process exits while
    the line runs; in either case only the trace has grown. *)
Lemma recall_of_recorded (fuel : nat) (k : Z) (s : Shell) :
  1 <= k <= current_history_count (sh_history s) ->
  recallable (history_at (sh_history s)
                         (current_history_count (sh_history s) - k)) = true ->
  match execute_history_command (parse_and_execute os (S fuel)) k s with
  | Continue s' => exists evs, s' = emit evs s
  | Exited _ s' =>
      exists evs,
        s' = emit evs (set_history (with_enabled false (sh_history s)) s)
  | Undefined | OutOfFuel => False
  end.
Proof.
  intros Range Rec. unfold execute_history_command.
  replace ((k <? 1) || (k >? current_history_count (sh_history s))) with false.
  2:{ symmetry. apply orb_false_intro; [apply Z.ltb_ge; lia|].
      rewrite Z.gtb_ltb. apply Z.ltb_ge. lia. }
  set (e := history_at (sh_history s) (current_history_count (sh_history s) - k)) in *.
  set (s0 := set_history (with_enabled false (sh_history s)) s).
  destruct (recallable_inv e Rec) as (NE & (t & FT & BI) & SP).
  rewrite parse_and_execute_step.
  pose proof (external_line_not_recorded (parse_and_execute os fuel) e t s0
                NE FT BI eq_refl) as H.
  destruct (parse_and_execute_body os (parse_and_execute os fuel) e s0)
    as [s1 | st s1 | | ]; cbn [bind].
  - destruct H as [evs E]. exists evs. subst s1 s0.
    destruct s as [[l c b] lv en cw tr]. reflexivity.
  - exact H.
  - exact (SP H).
  - exact H.
Qed.

(** Nothing is appended by a line that starts with a built-in name, nor
    by any line run while the recording is off. *)
Lemma no_entry_added (fuel : nat) :
  forall (line : string) (s : Shell),
    builtin_line line = true
    \/ add_to_history_enabled (sh_history s) = false ->
    adds_no_entry s (parse_and_execute os fuel line s).
Proof.
  induction fuel as [|n IH]; intros line s Hyp; [exact I|].
  rewrite parse_and_execute_step.
  destruct (string_dec line "") as [->|NE]; [exact I|].
  destruct (first_token (strip_newline line)) as [t|] eqn:FT.
  2:{ pose proof (parse_and_execute_no_token (parse_and_execute os n) line s FT) as H.
      destruct (parse_and_execute_body os (parse_and_execute os n) line s)
        as [s1 | st s1 | | ]; try exact I; [destruct H|].
      destruct H as [evs E]. subst s1. apply only_evicted_refl. }
  destruct (isBuiltInCommand t) eqn:BI.
  - rewrite (parse_and_execute_builtin os _ line t s NE FT BI).
    destruct (negb (t =? "history")%string || _); [|apply only_evicted_refl].
    apply built_in_command_cases; try exact I;
      try (intros; apply only_evicted_refl).
    + intros h evs Ev. exact Ev.
    + intros k. unfold execute_history_command.
      destruct ((k <? 1) || (k >? current_history_count (sh_history s)));
        [apply only_evicted_refl|].
      set (s0 := set_history (with_enabled false (sh_history s)) s).
      set (e := history_at (sh_history s) (current_history_count (sh_history s) - k)).
      pose proof (IH e s0 (or_intror eq_refl)) as H.
      destruct (parse_and_execute os n e s0); cbn [bind]; exact H.
  - destruct Hyp as [B|Off].
    { unfold builtin_line in B. rewrite FT, BI in B. discriminate B. }
    pose proof (external_line_not_recorded (parse_and_execute os n) line t s
                  NE FT BI Off) as H.
    destruct (parse_and_execute_body os (parse_and_execute os n) line s)
      as [s1 | st s1 | | ];
      try exact I; destruct H as [evs E]; subst s1; apply only_evicted_refl.
Qed.

End Recording.

(** ** The ring holds recorded lines only *)

Section RecordedLines.

Variable os : OS.

Lemma strip_newline_without_newline (s : string) :
  strchr s LF = false -> strip_newline s = s.
Proof.
  induction s as [|c r IH]; [reflexivity|].
  cbn [strchr]. intros H. apply orb_false_elim in H. destruct H as [C R].
  cbn [strip_newline]. destruct r as [|d r'].
  - rewrite C. reflexivity.
  - rewrite (IH R). reflexivity.
Qed.

Lemma forallb_skipn {A : Type} (f : A -> bool) (n : nat) :
  forall l, forallb f l = true -> forallb f (skipn n l) = true.
Proof.
  induction n as [|n IH]; intros l H; [exact H|].
  destruct l as [|x l]; [reflexivity|].
  simpl in H. apply andb_prop in H. apply IH. apply H.
Qed.

(** What an append leaves in the ring: the ring as it was, or some of its
    newest entries followed by the line, which is then not empty. *)
Lemma add_to_history_result (cmd : string) (h h' : History) :
  add_to_history cmd h = Some h' ->
  h' = h
  \/ (cmd <> ""
      /\ exists l, only_evicted l (history h) /\ history h' = l ++ [cmd]).
Proof.
  unfold add_to_history. intros H.
  destruct (negb (add_to_history_enabled h)); [left; inversion H; reflexivity|].
  destruct (String.eqb_spec cmd "") as [E|NE]; [left; inversion H; reflexivity|].
  cbn [orb] in H.
  destruct (strspn_all whitespace cmd); [left; inversion H; reflexivity|].
  destruct (_ && _); [left; inversion H; reflexivity|].
  right. split; [exact NE|].
  destruct (current_history_count h =? history_capacity h).
  - destruct (history h) as [|x rest] eqn:E; [discriminate|].
    destruct (_ <? _); [|discriminate]. inversion H; subst h'.
    exists rest. split; [exists 1%nat; reflexivity | reflexivity].
  - destruct (_ <? _); [|discriminate]. inversion H; subst h'.
    exists (history h). split; [apply only_evicted_refl | reflexivity].
Qed.

Lemma dispatch_external_segments (input : string) (s s1 : Shell) :
  dispatch_external os input s = Continue s1 -> split_pipeline input <> [].
Proof.
  unfold dispatch_external. intros H E. rewrite E in H. discriminate H.
Qed.

(** Every line the interpreter appends to the ring can be recalled: a line
    from [fgets] leaves a ring of recorded lines a ring of recorded lines. *)
Lemma recorded_lines_stay_recallable (fuel : nat) (line : string) (s s' : Shell) :
  forallb recallable (history (sh_history s)) = true ->
  fgets_line line = true ->
  parse_and_execute os fuel line s = Continue s' ->
  forallb recallable (history (sh_history s')) = true.
Proof.
  intros Inv Fg Run.
  destruct (builtin_line line) eqn:B.
  - pose proof (no_entry_added os fuel line s (or_introl B)) as H.
    rewrite Run in H. destruct H as [n E]. rewrite E.
    apply forallb_skipn. exact Inv.
  - destruct fuel as [|n]; [discriminate Run|].
    rewrite parse_and_execute_step in Run.
    destruct (string_dec line "") as [->|NE]; [discriminate Run|].
    unfold builtin_line in B.
    destruct (first_token (strip_newline line)) as [t|] eqn:FT.
    2:{ pose proof (parse_and_execute_no_token os (parse_and_execute os n) line s FT) as H.
        rewrite Run in H. destruct H. }
    rewrite (parse_and_execute_external os _ line t s NE FT B) in Run.
    pose proof (dispatch_external_frame os (strip_newline line) s) as Fr.
    destruct (dispatch_external os (strip_newline line) s) as [s1 | st s1 | | ] eqn:D;
      cbn [bind] in Run; try discriminate Run.
    destruct Fr as [evs E1]. subst s1.
    change (sh_history (emit evs s)) with (sh_history s) in Run.
    destruct (add_to_history (strip_newline line) (sh_history s)) as [h|] eqn:A;
      [|discriminate Run].
    inversion Run; subst s'. cbn [set_history sh_history].
    destruct (add_to_history_result _ _ _ A) as [Same | (NE' & l & [k Ev] & Hl)].
    + subst h. exact Inv.
    + rewrite Hl, forallb_app. rewrite Ev, (forallb_skipn _ _ _ Inv).
      cbn [forallb andb]. rewrite andb_true_r.
      unfold fgets_line in Fg. apply negb_true_iff in Fg.
      unfold recallable.
      rewrite (strip_newline_without_newline _ Fg), FT, B.
      destruct (String.eqb_spec (strip_newline line) "") as [E|_]; [contradiction|].
      pose proof (dispatch_external_segments _ _ _ D) as Seg.
      destruct (split_pipeline (strip_newline line)); [contradiction|reflexivity].
Qed.

(** So does a whole batch, from the state [main] starts in. *)
Lemma batch_keeps_ring_recallable (fuel : nat) (lines : list string) :
  forall s s',
    forallb recallable (history (sh_history s)) = true ->
    forallb fgets_line lines = true ->
    run_lines os fuel lines s = Continue s' ->
    forallb recallable (history (sh_history s')) = true.
Proof.
  unfold run_lines.
  induction lines as [|line rest IH]; intros s s' Inv Fg Run.
  - inversion Run; subst s'. exact Inv.
  - cbn [fold_left bind] in Run. cbn [forallb] in Fg.
    apply andb_prop in Fg. destruct Fg as [F1 F2].
    destruct (parse_and_execute os fuel line s) as [s1 | st s1 | | ] eqn:E.
    + apply (IH s1 s'); try assumption.
      exact (recorded_lines_stay_recallable fuel line s s1 Inv F1 E).
    + exfalso. clear -Run. induction rest as [|l r IHr]; [discriminate Run|].
      apply IHr. exact Run.
    + exfalso. clear -Run. induction rest as [|l r IHr]; [discriminate Run|].
      apply IHr. exact Run.
    + exfalso. clear -Run. induction rest as [|l r IHr]; [discriminate Run|].
      apply IHr. exact Run.
Qed.

End RecordedLines.

(** ** Recall and built-ins leave the ring alone *)

Section RecordingClaims.

Lemma history_at_in (h : History) (k : Z) :
  1 <= k <= current_history_count h ->
  In (history_at h (current_history_count h - k)) (history h).
Proof.
  unfold history_at, current_history_count. intros R.
  apply nth_In. lia.
Qed.

(** C9: the recall of entry [k], for [k] in range, runs the recalled line
    with the recording switched off and puts the flag back to its former
    value afterwards; whatever the ring holds, no entry is added and the
    flag is as before; when the entry is a line the interpreter recorded,
    the call returns (or the process exits while the line runs) with the
    ring, the variables, the environment and the working directory
    exactly as they were.  A line [history <k>] is such a recall. *)
Theorem recall_does_not_record (os : OS) :
  (forall rec k s,
      1 <= k <= current_history_count (sh_history s) ->
      execute_history_command rec k s
      = bind (rec (history_at (sh_history s)
                              (current_history_count (sh_history s) - k))
                  (set_history (with_enabled false (sh_history s)) s))
             (fun s1 =>
                Continue
                  (set_history
                     (with_enabled (add_to_history_enabled (sh_history s))
                                   (sh_history s1)) s1)))
  /\ (forall fuel k s,
         1 <= k <= current_history_count (sh_history s) ->
         match execute_history_command (parse_and_execute os fuel) k s with
         | Continue s' =>
             only_evicted (history (sh_history s')) (history (sh_history s))
             /\ add_to_history_enabled (sh_history s')
                = add_to_history_enabled (sh_history s)
         | Exited _ s' =>
             only_evicted (history (sh_history s')) (history (sh_history s))
         | Undefined | OutOfFuel => True
         end)
  /\ (forall fuel k s,
         1 <= k <= current_history_count (sh_history s) ->
         recallable (history_at (sh_history s)
                                (current_history_count (sh_history s) - k)) = true ->
         match execute_history_command (parse_and_execute os (S fuel)) k s with
         | Continue s' => exists evs, s' = emit evs s
         | Exited _ s' =>
             exists evs,
               s' = emit evs (set_history (with_enabled false (sh_history s)) s)
         | Undefined | OutOfFuel => False
         end)
  /\ (forall fuel line s a1,
         first_token (strip_newline line) = Some "history" ->
         arg 0 (fst (process_input (strip_newline line) false)) = Some "history" ->
         arg 1 (fst (process_input (strip_newline line) false)) = Some a1 ->
         a1 <> "set" \/ arg 2 (fst (process_input (strip_newline line) false)) = None ->
         parse_and_execute os (S fuel) line s
         = execute_history_command (parse_and_execute os fuel) (atoi a1) s).
Proof.
  assert (Unfold : forall rec k s,
             1 <= k <= current_history_count (sh_history s) ->
             execute_history_command rec k s
             = bind (rec (history_at (sh_history s)
                                     (current_history_count (sh_history s) - k))
                         (set_history (with_enabled false (sh_history s)) s))
                    (fun s1 =>
                       Continue
                         (set_history
                            (with_enabled (add_to_history_enabled (sh_history s))
                                          (sh_history s1)) s1))).
  { intros rec k s R. unfold execute_history_command.
    replace ((k <? 1) || (k >? current_history_count (sh_history s))) with false;
      [reflexivity|].
    symmetry. apply orb_false_intro; [apply Z.ltb_ge; lia|].
    rewrite Z.gtb_ltb. apply Z.ltb_ge. lia. }
  split; [exact Unfold|]. split; [|split].
  - intros fuel k s R. rewrite (Unfold _ k s R).
    pose proof (no_entry_added os fuel
                  (history_at (sh_history s) (current_history_count (sh_history s) - k))
                  (set_history (with_enabled false (sh_history s)) s)
                  (or_intror eq_refl)) as H.
    destruct (parse_and_execute os fuel _ _) as [s1 | st s1 | | ];
      cbn [bind]; try exact I.
    + split; [exact H | reflexivity].
    + exact H.
  - intros fuel k s R Rec. exact (recall_of_recorded os fuel k s R Rec).
  - intros fuel line s a1 FT A0 A1 A2.
    assert (NE : line <> "").
    { intros E. subst line. vm_compute in FT. discriminate FT. }
    rewrite parse_and_execute_step.
    rewrite (parse_and_execute_builtin os _ line "history" s NE FT eq_refl).
    rewrite A1. cbn [is_null negb]. rewrite orb_true_r.
    unfold built_in_command. rewrite A0.
    change ("history" =? "exit")%string with false.
    change ("history" =? "cd")%string with false.
    change ("history" =? "history")%string with true. cbv iota.
    unfold cmd_history_control. rewrite A1.
    destruct (arg 2 (fst (process_input (strip_newline line) false))) as [a2|];
      [|reflexivity].
    destruct A2 as [NS|N]; [|discriminate N].
    destruct (String.eqb_spec a1 "set") as [E|_]; [contradiction|reflexivity].
Qed.

Lemma recall_does_not_record_witness :
  (exists s',
      execute_history_command (parse_and_execute friendly_os 1) 2 sample_shell
      = Continue s'
      /\ sh_history s' = sh_history sample_shell)
  /\ (exists s',
         parse_and_execute friendly_os 2 "history 1" sample_shell = Continue s'
         /\ only_evicted (history (sh_history s'))
                         (history (sh_history sample_shell))
         /\ add_to_history_enabled (sh_history s') = true).
Proof.
  destruct (recall_does_not_record friendly_os) as (Unfold & Safe & Rec & Line).
  assert (R2 : 1 <= 2 <= current_history_count (sh_history sample_shell)).
  { unfold current_history_count. simpl. lia. }
  assert (R1 : 1 <= 1 <= current_history_count (sh_history sample_shell)).
  { unfold current_history_count. simpl. lia. }
  split.
  - pose proof (Rec O 2 sample_shell R2 eq_refl) as H.
    rewrite (Unfold (parse_and_execute friendly_os 1) 2 sample_shell R2) in H |- *.
    destruct (parse_and_execute friendly_os 1 _ _) as [s1 | st s1 | | ] eqn:E;
      cbn [bind] in H |- *.
    + destruct H as [evs Ev]. eexists. split; [reflexivity|].
      rewrite Ev. reflexivity.
    + vm_compute in E. discriminate E.
    + destruct H.
    + destruct H.
  - rewrite (Line 1%nat "history 1" sample_shell "1");
      [ | reflexivity | reflexivity | reflexivity | left; discriminate ].
    change (atoi "1") with 1.
    pose proof (Safe 1%nat 1 sample_shell R1) as H.
    destruct (execute_history_command (parse_and_execute friendly_os 1) 1 sample_shell)
      as [s1 | st s1 | | ] eqn:E.
    + exists s1. split; [reflexivity|]. exact H.
    + vm_compute in E. discriminate E.
    + vm_compute in E. discriminate E.
    + vm_compute in E. discriminate E.
Defined.

(** C10: a line whose first token is the name of a built-in is never
    appended to the history ring, whatever the built-in does (the ring can
    only lose entries, through [history set]); and on a ring made of
    lines the interpreter recorded such a line is run to its end with two
    levels of calls.  So the lines recorded are external ones. *)
Theorem builtin_lines_are_not_recorded (os : OS) :
  (forall fuel line s,
      builtin_line line = true ->
      adds_no_entry s (parse_and_execute os fuel line s))
  /\ (forall fuel line s,
         builtin_line line = true ->
         forallb recallable (history (sh_history s)) = true ->
         parse_and_execute os (S (S fuel)) line s <> OutOfFuel).
Proof.
  split.
  - intros fuel line s B. apply no_entry_added. left. exact B.
  - intros fuel line s B Inv.
    unfold builtin_line in B.
    destruct (first_token (strip_newline line)) as [t|] eqn:FT; [|discriminate B].
    assert (NE : line <> "").
    { intros E. subst line. vm_compute in FT. discriminate FT. }
    rewrite parse_and_execute_step.
    rewrite (parse_and_execute_builtin os _ line t s NE FT B).
    destruct (negb (t =? "history")%string || _); [|discriminate].
    apply built_in_command_cases; try discriminate.
    intros k.
    destruct ((k <? 1) || (k >? current_history_count (sh_history s))) eqn:Out.
    + unfold execute_history_command. rewrite Out. discriminate.
    + apply orb_false_elim in Out. destruct Out as [O1 O2].
      apply Z.ltb_ge in O1. rewrite Z.gtb_ltb in O2. apply Z.ltb_ge in O2.
      assert (R : 1 <= k <= current_history_count (sh_history s)) by lia.
      assert (Rec : recallable (history_at (sh_history s)
                                 (current_history_count (sh_history s) - k)) = true).
      { rewrite forallb_forall in Inv. apply Inv. apply history_at_in. exact R. }
      pose proof (recall_of_recorded os fuel k s R Rec) as H.
      destruct (execute_history_command (parse_and_execute os (S fuel)) k s);
        try discriminate; destruct H.
Qed.

Lemma builtin_lines_are_not_recorded_witness :
  adds_no_entry sample_shell
                (parse_and_execute friendly_os 2 "local FOO=baz" sample_shell)
  /\ parse_and_execute friendly_os 2 "history 2" sample_shell <> OutOfFuel.
Proof.
  destruct (builtin_lines_are_not_recorded friendly_os) as (Safe & Total).
  split.
  - apply Safe. reflexivity.
  - apply (Total O "history 2" sample_shell); reflexivity.
Defined.

End RecordingClaims.

(** ** The tokenizer *)

Section Tokenizer.

Variable delims : string.

Lemma skip_delims_head (s : string) (c : ascii) (r : string) :
  skip_delims delims s = String c r -> is_delim delims c = false.
Proof.
  induction s as [|d s IH]; [discriminate|].
  cbn [skip_delims]. destruct (is_delim delims d) eqn:D.
  - exact IH.
  - intros E. inversion E; subst. exact D.
Qed.

Lemma span_token_no_delim (s : string) :
  no_delim delims (fst (span_token delims s)) = true.
Proof.
  induction s as [|c s IH]; [reflexivity|].
  cbn [span_token]. destruct (is_delim delims c) eqn:D; [reflexivity|].
  destruct (span_token delims s) as [t rest]. cbn [fst] in *.
  cbn [no_delim]. rewrite D, IH. reflexivity.
Qed.

Lemma strtok_clean (s t rest : string) :
  strtok delims s = Some (t, rest) -> clean_token delims t = true.
Proof.
  unfold strtok. destruct (skip_delims delims s) as [|c r] eqn:E; [discriminate|].
  pose proof (skip_delims_head s c r E) as D.
  pose proof (span_token_no_delim (String c r)) as N.
  cbn [span_token] in *. rewrite D in *.
  destruct (span_token delims r) as [t' rest']. cbn [fst] in N.
  intros H. inversion H; subst. unfold clean_token. rewrite N. reflexivity.
Qed.

Lemma strtok_loop_clean (n : nat) :
  forall s,
    (length (strtok_loop n delims s) <= n)%nat
    /\ Forall (fun t => clean_token delims t = true) (strtok_loop n delims s).
Proof.
  induction n as [|n IH]; intros s; [split; [reflexivity | constructor]|].
  cbn [strtok_loop]. destruct (strtok delims s) as [[t rest]|] eqn:E.
  - destruct (IH rest) as [L F]. split; [simpl; lia|].
    constructor; [exact (strtok_clean s t rest E) | exact F].
  - split; [simpl; lia | constructor].
Qed.

Lemma no_delim_skip (t x : string) :
  clean_token delims t = true ->
  skip_delims delims (t ++ x) = (t ++ x)%string.
Proof.
  unfold clean_token. destruct t as [|c t]; [discriminate|].
  cbn [negb String.eqb andb no_delim append skip_delims].
  intros H. apply andb_prop in H. destruct H as [D _].
  apply negb_true_iff in D. rewrite D. reflexivity.
Qed.

Lemma span_token_app (t rest : string) (c : ascii) :
  no_delim delims t = true -> is_delim delims c = true ->
  span_token delims (t ++ String c rest) = (t, rest).
Proof.
  intros N D. induction t as [|d t IH]; cbn [append span_token].
  - rewrite D. reflexivity.
  - cbn [no_delim] in N. apply andb_prop in N. destruct N as [Nd Nt].
    apply negb_true_iff in Nd. rewrite Nd, (IH Nt). reflexivity.
Qed.

Lemma span_token_whole (t : string) :
  no_delim delims t = true -> span_token delims t = (t, "").
Proof.
  intros N. induction t as [|d t IH]; [reflexivity|].
  cbn [no_delim] in N. apply andb_prop in N. destruct N as [Nd Nt].
  apply negb_true_iff in Nd. cbn [span_token]. rewrite Nd, (IH Nt). reflexivity.
Qed.

Lemma clean_token_inv (t : string) :
  clean_token delims t = true ->
  exists c r, t = String c r /\ no_delim delims t = true.
Proof.
  unfold clean_token. destruct t as [|c r]; [discriminate|].
  intros H. exists c, r. split; [reflexivity|].
  apply andb_prop in H. apply H.
Qed.

(** A token followed by a delimiter is what [strtok] returns, and the
    text after that delimiter is where the next call resumes. *)
Lemma strtok_app (t rest : string) (c : ascii) :
  clean_token delims t = true -> is_delim delims c = true ->
  strtok delims (t ++ String c rest) = Some (t, rest).
Proof.
  intros C D. unfold strtok. rewrite (no_delim_skip t _ C).
  destruct (clean_token_inv t C) as (d & r & E & N).
  rewrite <- (span_token_app t rest c N D). subst t. reflexivity.
Qed.

Lemma strtok_whole (t : string) :
  clean_token delims t = true -> strtok delims t = Some (t, "").
Proof.
  intros C. unfold strtok.
  destruct (clean_token_inv t C) as (d & r & E & N).
  pose proof (no_delim_skip t "" C) as S.
  assert (A : (t ++ "")%string = t).
  { clear. induction t as [|c t IH]; [reflexivity|]. cbn [append]. rewrite IH. reflexivity. }
  rewrite A in S. rewrite S. rewrite <- (span_token_whole t N). subst t. reflexivity.
Qed.

Lemma strtok_skips (c : ascii) (s : string) :
  is_delim delims c = true -> strtok delims (String c s) = strtok delims s.
Proof. intros D. unfold strtok. cbn [skip_delims]. rewrite D. reflexivity. Qed.

Lemma strtok_loop_empty (n : nat) : strtok_loop n delims "" = [].
Proof. destruct n; reflexivity. Qed.

(** Splitting undoes joining. *)
Lemma strtok_loop_join (c : ascii) (toks : list string) :
  is_delim delims c = true ->
  Forall (fun t => clean_token delims t = true) toks ->
  forall n, (length toks <= n)%nat ->
            strtok_loop n delims (join c toks) = toks.
Proof.
  intros D F. induction F as [|t rest Ct Crest IH]; intros n L.
  - apply strtok_loop_empty.
  - destruct n as [|n]; [simpl in L; lia|].
    cbn [strtok_loop]. destruct rest as [|u rest].
    + cbn [join]. rewrite (strtok_whole t Ct). rewrite strtok_loop_empty. reflexivity.
    + change (join c (t :: u :: rest))
        with (t ++ String c (join c (u :: rest)))%string.
      rewrite (strtok_app t _ c Ct D). rewrite IH; [reflexivity|].
      simpl in L |- *. lia.
Qed.

End Tokenizer.

(** ** What [process_input] and [built_in_command] make of a line *)

Section Parsing.

Lemma Forall_removelast {A : Type} (P : A -> Prop) (l : list A) :
  Forall P l -> Forall P (removelast l).
Proof.
  induction 1 as [|x l Px Pl IH]; [constructor|].
  cbn [removelast]. destruct l; [constructor|]. constructor; assumption.
Qed.

Lemma length_removelast_le {A : Type} (l : list A) :
  (length (removelast l) <= length l)%nat.
Proof.
  induction l as [|x l IH]; [reflexivity|].
  cbn [removelast]. destruct l; simpl in *; lia.
Qed.

(** X1: the argument vector [process_input] builds has at most
    [MAX_ARGS - 1] entries, so that it fits the array with its terminator,
    and each entry is a non-empty string without space or newline; the
    segments a line is split into at the pipe signs are likewise at most
    [MAX_ARGS - 1], non-empty and free of pipe signs. *)
Theorem process_input_tokens_are_clean (input : string) (background : bool) :
  (length (fst (process_input input background)) <= MAX_ARGS - 1)%nat
  /\ Forall (fun t => clean_token (" " ++ nl) t = true)
            (fst (process_input input background))
  /\ (length (split_pipeline input) <= MAX_ARGS - 1)%nat
  /\ Forall (fun c => clean_token "|" c = true) (split_pipeline input).
Proof.
  destruct (strtok_loop_clean (" " ++ nl) (MAX_ARGS - 1) input) as [L F].
  destruct (strtok_loop_clean "|" (MAX_ARGS - 1) input) as [L' F'].
  unfold process_input, split_pipeline.
  destruct ((0 <? _)%nat && _); cbn [fst].
  - split; [|split; [|split]]; try assumption.
    + pose proof (length_removelast_le
                    (strtok_loop (MAX_ARGS - 1) (" " ++ nl) input)). lia.
    + apply Forall_removelast. exact F.
  - split; [|split; [|split]]; assumption.
Qed.

Lemma last_app_one {A : Type} (l : list A) (x d : A) : last (l ++ [x]) d = x.
Proof. apply last_last. Qed.

(** X2: tokens joined by single spaces come back as they were: for at
    most [MAX_ARGS - 1] tokens, none empty or containing a space or a
    newline, [process_input] returns them with the background flag
    untouched when the last one is not [&]; when [&] follows them it
    returns them without it and sets the flag.  Spaces in front of the
    line change nothing. *)
Theorem process_input_of_joined_tokens (toks : list string) (background : bool) :
  Forall (fun t => clean_token (" " ++ nl) t = true) toks ->
  (length toks < MAX_ARGS - 1)%nat ->
  (last toks "" <> "&" ->
   process_input (join " " toks) background = (toks, background))
  /\ process_input (join " " (toks ++ ["&"])) background = (toks, true)
  /\ process_input (String " " (join " " toks)) background
     = process_input (join " " toks) background.
Proof.
  intros F L. split; [|split].
  - intros NL. unfold process_input.
    rewrite (strtok_loop_join (" " ++ nl) " " toks eq_refl F) by lia.
    destruct (String.eqb_spec (last toks "") "&") as [E|_]; [contradiction|].
    rewrite andb_false_r. reflexivity.
  - unfold process_input.
    rewrite (strtok_loop_join (" " ++ nl) " " (toks ++ ["&"]) eq_refl).
    + rewrite last_app_one, String.eqb_refl, removelast_last.
      rewrite length_app. cbn [length].
      replace (0 <? length toks + 1)%nat with true
        by (symmetry; apply Nat.ltb_lt; lia).
      reflexivity.
    + apply Forall_app. split; [exact F|]. constructor; [reflexivity|constructor].
    + rewrite length_app. cbn [length]. lia.
  - unfold process_input. change (MAX_ARGS - 1)%nat with (S 126).
    cbn [strtok_loop]. rewrite (strtok_skips (" " ++ nl) " " _ eq_refl).
    reflexivity.
Qed.

Lemma process_input_of_joined_tokens_witness :
  process_input "ls -l /tmp" false = (["ls"; "-l"; "/tmp"], false)
  /\ process_input "sleep 5 &" false = (["sleep"; "5"], true).
Proof.
  split.
  - assert (F : Forall (fun t => clean_token (" " ++ nl) t = true)
                       ["ls"; "-l"; "/tmp"]) by (repeat constructor).
    assert (L : (length ["ls"; "-l"; "/tmp"] < MAX_ARGS - 1)%nat)
      by (vm_compute; lia).
    destruct (process_input_of_joined_tokens ["ls"; "-l"; "/tmp"] false F L)
      as (Plain & _).
    apply Plain. discriminate.
  - assert (F : Forall (fun t => clean_token (" " ++ nl) t = true)
                       ["sleep"; "5"]) by (repeat constructor).
    assert (L : (length ["sleep"; "5"] < MAX_ARGS - 1)%nat)
      by (vm_compute; lia).
    destruct (process_input_of_joined_tokens ["sleep"; "5"] false F L)
      as (_ & Detached & _).
    exact Detached.
Defined.

Lemma no_delim_none (s : string) : no_delim "" s = true.
Proof. induction s as [|c s IH]; [reflexivity | exact IH]. Qed.

Lemma strtok_rest (rest : string) :
  option_map fst (strtok "" rest)
  = if (rest =? "")%string then None else Some rest.
Proof.
  destruct rest as [|c r]; [reflexivity|].
  rewrite strtok_whole; [reflexivity|].
  unfold clean_token. rewrite no_delim_none. reflexivity.
Qed.

(** X3: [built_in_command] reads [NAME=VALUE] as the name before the first
    equals sign and the whole text after it, further equals signs
    included; an empty value comes out as NULL, and so does the value of a
    token without equals sign; equals signs in front of the name are
    dropped.  [local] and [export] hand exactly this pair to their
    handlers. *)
Theorem assignment_is_split_at_first_equals (n v : string) :
  clean_token "=" n = true ->
  split_assignment (n ++ String "=" v)
    = (Some n, if (v =? "")%string then None else Some v)
  /\ split_assignment n = (Some n, None)
  /\ split_assignment (String "=" (n ++ String "=" v))
     = split_assignment (n ++ String "=" v)
  /\ (forall os rec s,
         built_in_command os rec ["local"; (n ++ String "=" v)%string] s
         = cmd_local (Some n) (if (v =? "")%string then None else Some v) s)
  /\ (forall os rec s,
         built_in_command os rec ["export"; (n ++ String "=" v)%string] s
         = cmd_export (Some n) (if (v =? "")%string then None else Some v) s).
Proof.
  intros C.
  assert (A : split_assignment (n ++ String "=" v)
              = (Some n, if (v =? "")%string then None else Some v)).
  { unfold split_assignment. rewrite (strtok_app "=" n v "=" C eq_refl).
    rewrite strtok_rest. reflexivity. }
  split; [exact A|]. split; [|split; [|split]].
  - unfold split_assignment. rewrite (strtok_whole "=" n C). reflexivity.
  - unfold split_assignment. rewrite (strtok_skips "=" "=" _ eq_refl). reflexivity.
  - intros os rec s. unfold built_in_command. cbn [arg nth_error].
    change ("local" =? "exit")%string with false.
    change ("local" =? "cd")%string with false.
    change ("local" =? "history")%string with false.
    change ("local" =? "export")%string with false.
    change ("local" =? "local")%string with true.
    cbn [andb negb is_null]. rewrite A. reflexivity.
  - intros os rec s. unfold built_in_command. cbn [arg nth_error].
    change ("export" =? "exit")%string with false.
    change ("export" =? "cd")%string with false.
    change ("export" =? "history")%string with false.
    change ("export" =? "export")%string with true.
    cbn [andb negb is_null]. rewrite A. reflexivity.
Qed.

Lemma assignment_is_split_witness :
  split_assignment "PATH=/bin:/usr/bin" = (Some "PATH", Some "/bin:/usr/bin")
  /\ split_assignment "A=b=c" = (Some "A", Some "b=c")
  /\ split_assignment "FOO=" = (Some "FOO", None).
Proof.
  split; [|split].
  - destruct (assignment_is_split_at_first_equals "PATH" "/bin:/usr/bin" eq_refl)
      as (A & _). exact A.
  - destruct (assignment_is_split_at_first_equals "A" "b=c" eq_refl)
      as (A & _). exact A.
  - destruct (assignment_is_split_at_first_equals "FOO" "" eq_refl)
      as (A & _). exact A.
Defined.

End Parsing.

(** ** Validation and the single command *)

Section Validation.

Ltac split_args rest :=
  destruct rest as [|?a1 [|?a2 [|?a3 [|?a4 ?more]]]].

(** X4: [isValidCommand] prints exactly when it rejects.  It accepts [cd]
    with one argument only, [exit] without argument only, [export] and
    [local] with a single argument that contains an equals sign only,
    [history] alone or as [history set n] with [atoi n > 0] only, and every
    command with another, non-empty name whatever its arguments. *)
Theorem validation_grammar :
  (forall argv, fst (isValidCommand argv) = true <-> snd (isValidCommand argv) = [])
  /\ (forall rest,
         fst (isValidCommand ("cd" :: rest)) = true <-> exists d, rest = [d])
  /\ (forall rest, fst (isValidCommand ("exit" :: rest)) = true <-> rest = [])
  /\ (forall rest,
         (fst (isValidCommand ("export" :: rest)) = true
          <-> exists a, rest = [a] /\ strchr a "=" = true)
         /\ (fst (isValidCommand ("local" :: rest)) = true
             <-> exists a, rest = [a] /\ strchr a "=" = true))
  /\ (forall rest,
         fst (isValidCommand ("history" :: rest)) = true
         <-> rest = [] \/ exists n, rest = ["set"; n] /\ 0 < atoi n)
  /\ (forall a0 rest,
         a0 <> "" -> ~ In a0 ["cd"; "exit"; "export"; "local"; "history"] ->
         isValidCommand (a0 :: rest) = (true, [])).
Proof.
  split; [|split; [|split; [|split; [|split]]]].
  - intros argv. unfold isValidCommand.
    destruct (arg 0 argv) as [a0|]; [|split; discriminate].
    repeat match goal with
           | |- context [if ?b then _ else _] => destruct b
           end; cbn [fst snd]; split; (reflexivity || discriminate).
  - intros rest. unfold isValidCommand. cbn [arg nth_error].
    change ("cd" =? "")%string with false.
    change ("cd" =? "cd")%string with true. cbv iota.
    split_args rest; cbn [arg nth_error is_null negb orb fst]; split; intros H;
      try discriminate H; try (eexists; reflexivity);
      destruct H as [d E]; discriminate E.
  - intros rest. unfold isValidCommand. cbn [arg nth_error].
    change ("exit" =? "")%string with false.
    change ("exit" =? "cd")%string with false.
    change ("exit" =? "exit")%string with true.
    change ("exit" =? "export")%string with false.
    change ("exit" =? "local")%string with false.
    change ("exit" =? "history")%string with false.
    destruct rest as [|a1 rest]; cbn [arg nth_error is_null negb andb orb fst];
      split; intros H; try reflexivity; discriminate H.
  - intros rest. split.
    + unfold isValidCommand. cbn [arg nth_error].
      change ("export" =? "")%string with false.
      change ("export" =? "cd")%string with false.
      change ("export" =? "exit")%string with false.
      change ("export" =? "export")%string with true.
      change ("export" =? "history")%string with false.
      split_args rest; cbn [arg nth_error is_null negb andb orb fst]; split; intros H;
        try discriminate H;
        try (destruct H as (a & E & _); discriminate E).
      * destruct (strchr a1 "=") eqn:S; [|discriminate H].
        exists a1. split; [reflexivity | exact S].
      * destruct H as [a [E S]]. inversion E; subst a. rewrite S. reflexivity.
    + unfold isValidCommand. cbn [arg nth_error].
      change ("local" =? "")%string with false.
      change ("local" =? "cd")%string with false.
      change ("local" =? "exit")%string with false.
      change ("local" =? "export")%string with false.
      change ("local" =? "local")%string with true.
      change ("local" =? "history")%string with false.
      split_args rest; cbn [arg nth_error is_null negb andb orb fst]; split; intros H;
        try discriminate H;
        try (destruct H as (a & E & _); discriminate E).
      * destruct (strchr a1 "=") eqn:S; [|discriminate H].
        exists a1. split; [reflexivity | exact S].
      * destruct H as [a [E S]]. inversion E; subst a. rewrite S. reflexivity.
  - intros rest. unfold isValidCommand. cbn [arg nth_error].
    change ("history" =? "")%string with false.
    change ("history" =? "cd")%string with false.
    change ("history" =? "exit")%string with false.
    change ("history" =? "export")%string with false.
    change ("history" =? "local")%string with false.
    change ("history" =? "history")%string with true.
    split_args rest; cbn [arg nth_error is_null negb andb orb fst str_is].
    + split; [left; reflexivity | reflexivity].
    + destruct (a1 =? "set")%string; cbn [fst]; split; intros H; try discriminate H;
        destruct H as [E | [n [E _]]]; discriminate E.
    + destruct (String.eqb_spec a1 "set") as [->|NS]; cbn [fst].
      * destruct (atoi a2 <=? 0) eqn:A; cbn [orb fst]; split; intros H.
        -- discriminate H.
        -- destruct H as [E | [n [E P]]]; [discriminate E|].
           inversion E; subst n. apply Z.leb_le in A. lia.
        -- right. exists a2. split; [reflexivity|]. apply Z.leb_gt in A. exact A.
        -- reflexivity.
      * split; intros H; [discriminate H|].
        destruct H as [E | [n [E _]]]; [discriminate E|].
        inversion E; subst. contradiction.
    + destruct (a1 =? "set")%string; cbn [fst].
      * rewrite orb_true_r. cbn [fst]. split; intros H; [discriminate H|].
        destruct H as [E | [n [E _]]]; discriminate E.
      * split; intros H; [discriminate H|].
        destruct H as [E | [n [E _]]]; discriminate E.
    + destruct (a1 =? "set")%string; cbn [fst].
      * rewrite orb_true_r. cbn [fst]. split; intros H; [discriminate H|].
        destruct H as [E | [n [E _]]]; discriminate E.
      * split; intros H; [discriminate H|].
        destruct H as [E | [n [E _]]]; discriminate E.
  - intros a0 rest NE NI. unfold isValidCommand. cbn [arg nth_error].
    assert (N : forall b, In b ["cd"; "exit"; "export"; "local"; "history"] ->
                          (a0 =? b)%string = false).
    { intros b Hb. apply String.eqb_neq. intros E. subst b. exact (NI Hb). }
    rewrite (proj2 (String.eqb_neq a0 "") NE).
    rewrite (N "cd"), (N "exit"), (N "export"), (N "local"), (N "history");
      simpl; tauto.
Qed.

Lemma validation_grammar_witness :
  isValidCommand ["ls"; "-l"] = (true, [])
  /\ fst (isValidCommand ["cd"; "/tmp"]) = true
  /\ fst (isValidCommand ["history"; "set"; "3"]) = true.
Proof.
  destruct validation_grammar as (_ & Cd & _ & _ & Hist & Other).
  split; [|split].
  - apply Other; [discriminate|].
    simpl. intros [E|[E|[E|[E|[E|[]]]]]]; discriminate E.
  - apply (Cd ["/tmp"]). exists "/tmp". reflexivity.
  - apply (Hist ["set"; "3"]). right. exists "3". split; [reflexivity|].
    vm_compute. reflexivity.
Defined.

Lemma filter_nonempty_clean (l : list string) :
  ~ In "" (filter (fun a => negb (a =? "")%string) l).
Proof.
  intros H. apply filter_In in H. destruct H as [_ H]. discriminate H.
Qed.

(** X5: [execute_command] forks at most one child, and only for a command
    that passed the validation; what the child executes is the argument
    vector after substitution without the arguments that became empty: it
    is never empty and holds no empty string.  For a command that passes
    the validation the fork decides: when it is refused the interpreter
    reports it and exits with status -1; when it is granted the child is
    forked with its streams as they are and nothing to close, and the
    interpreter waits for it, or, for a detached command, prints its
    identifier instead.  A command that fails the validation is reported
    and nothing is forked; so is one whose arguments all vanish in the
    substitution. *)
Theorem single_command_forks_only_valid_commands (os : OS)
    (argv : list string) (background : bool) (s : Shell) :
  let filtered :=
    filter (fun a => negb (a =? "")%string)
           (map (substitute_variable (environ s) (localVars s)) argv) in
  match execute_command os argv background s with
  | Continue s' =>
      exists evs,
        s' = emit evs s
        /\ (forked_argvs evs = []
            \/ (forked_argvs evs = [filtered]
                /\ fst (isValidCommand filtered) = true
                /\ filtered <> [] /\ ~ In "" filtered))
  | Exited st s' =>
      st = -1 /\ s' = emit [Perror "fork failed"] s
      /\ os_fork os (trace s) = None
      /\ fst (isValidCommand filtered) = true
  | Undefined | OutOfFuel => False
  end
  /\ (filtered = [] ->
      execute_command os argv background s
      = Continue (emit [Stdout ("Error: Command is empty." ++ nl)%string;
                        Stdout ("Error: Command validation failed." ++ nl)%string] s))
  /\ (fst (isValidCommand filtered) = true ->
      os_fork os (trace s) = None ->
      execute_command os argv background s
      = Exited (-1) (emit [Perror "fork failed"] s))
  /\ (fst (isValidCommand filtered) = true ->
      forall p, os_fork os (trace s) = Some p ->
      execute_command os argv background s
      = Continue (emit [Fork (Z.pos p) (mkChild None None [] filtered);
                        if background
                        then Stdout ("[PID " ++ fmt_d (Z.pos p)
                                     ++ " running in background]" ++ nl)%string
                        else WaitPid (Z.pos p)] s))
  /\ (fst (isValidCommand filtered) = false ->
      execute_command os argv background s
      = Continue (emit (snd (isValidCommand filtered)
                        ++ [Stdout ("Error: Command validation failed." ++ nl)%string])
                       s)).
Proof.
  intros filtered. split; [|split; [|split; [|split]]].
  - unfold execute_command. fold filtered.
    destruct (isValidCommand filtered) as [valid printed] eqn:V.
    destruct valid; cbn [negb].
    + destruct (os_fork os (trace s)) as [p|] eqn:F.
      * assert (NE : filtered <> []).
        { intros E. rewrite E in V. discriminate V. }
        destruct background; cbn [negb]; rewrite emit_emit;
          eexists; (split; [reflexivity|]); right;
          (split; [reflexivity|]);
          (split; [reflexivity|]); (split; [exact NE|]);
          apply filter_nonempty_clean.
      * repeat split; reflexivity.
    + assert (Quiet : forked_argvs printed = []).
      { revert V. unfold isValidCommand.
        destruct (arg 0 filtered) as [a0|];
          [|intros V; inversion V; reflexivity].
        repeat match goal with
               | |- context [if ?b then _ else _] => destruct b
               end; intros V; inversion V; reflexivity. }
      eexists. split; [reflexivity|]. left.
      rewrite forked_argvs_app, Quiet. reflexivity.
  - intros E. unfold execute_command. fold filtered. rewrite E. reflexivity.
  - intros V F. unfold execute_command. fold filtered.
    destruct (isValidCommand filtered) as [valid printed]. cbn [fst] in V.
    subst valid. cbn [negb]. rewrite F. reflexivity.
  - intros V p F. unfold execute_command. fold filtered.
    destruct (isValidCommand filtered) as [valid printed]. cbn [fst] in V.
    subst valid. cbn [negb]. rewrite F.
    destruct background; cbn [negb]; rewrite emit_emit; reflexivity.
  - intros V. unfold execute_command. fold filtered.
    destruct (isValidCommand filtered) as [valid printed]. cbn [fst snd] in *.
    subst valid. reflexivity.
Qed.

End Validation.

Lemma single_command_witness :
  execute_command friendly_os ["$NOPE"] false sample_shell
  = Continue (emit [Stdout ("Error: Command is empty." ++ nl)%string;
                    Stdout ("Error: Command validation failed." ++ nl)%string]
                   sample_shell)
  /\ execute_command exhausted_os ["echo"; "$FOO"; "$NOPE"] false sample_shell
     = Exited (-1) (emit [Perror "fork failed"] sample_shell)
  /\ execute_command friendly_os ["echo"; "$FOO"; "$NOPE"] true sample_shell
     = Continue (emit [Fork 100 (mkChild None None [] ["echo"; "bar"]);
                       Stdout ("[PID 100 running in background]" ++ nl)%string]
                      sample_shell)
  /\ execute_command friendly_os ["cd"] false sample_shell
     = Continue (emit [Stdout ("cd: wrong number of arguments. Usage: cd <directory>"
                               ++ nl)%string;
                       Stdout ("Error: Command validation failed." ++ nl)%string]
                      sample_shell).
Proof.
  destruct (single_command_forks_only_valid_commands
              friendly_os ["$NOPE"] false sample_shell) as (_ & Empty & _).
  destruct (single_command_forks_only_valid_commands
              exhausted_os ["echo"; "$FOO"; "$NOPE"] false sample_shell)
    as (_ & _ & Refused & _).
  destruct (single_command_forks_only_valid_commands
              friendly_os ["echo"; "$FOO"; "$NOPE"] true sample_shell)
    as (_ & _ & _ & Forked & _).
  destruct (single_command_forks_only_valid_commands
              friendly_os ["cd"] false sample_shell)
    as (_ & _ & _ & _ & Invalid).
  split; [|split; [|split]].
  - apply Empty. reflexivity.
  - apply Refused; reflexivity.
  - apply (Forked eq_refl 100%positive). reflexivity.
  - apply Invalid. reflexivity.
Defined.

(** ** The wiring of a pipeline *)

Section Wiring.

Variable os : OS.

Lemma store_app {A : Type} (l r : list A) (k : nat) (x : A) :
  store (length l + k) x (l ++ r) = l ++ store k x r.
Proof.
  induction l as [|y l IH]; [reflexivity|].
  cbn [length Nat.add app store]. rewrite IH. reflexivity.
Qed.

Lemma length_pipe_ends (made : nat) :
  length (flat_map (fun k => [ReadEnd k; WriteEnd k]) (seq 0 made))
  = (made * 2)%nat.
Proof.
  induction made as [|m IH]; [reflexivity|].
  rewrite seq_S, flat_map_app, length_app, IH. cbn [flat_map length app Nat.add].
  lia.
Qed.

(** A further pipe fills the next two entries of the array. *)
Lemma pipe_into_after (made n : nat) :
  (made < n - 1)%nat ->
  pipe_into made (pipefds_after made n) = pipefds_after (S made) n.
Proof.
  intros Lt. unfold pipe_into, pipefds_after.
  replace (2 * (n - 1 - made))%nat with (S (S (2 * (n - 1 - S made)))) by lia.
  cbn [repeat].
  set (ends := flat_map (fun k => [ReadEnd k; WriteEnd k]) (seq 0 made)).
  set (tail := repeat Unwritten (2 * (n - 1 - S made))).
  replace (made * 2)%nat with (length ends + 0)%nat
    by (unfold ends; rewrite length_pipe_ends; lia).
  rewrite store_app. cbn [store].
  replace (length ends + 0 + 1)%nat with (length ends + 1)%nat by lia.
  rewrite store_app. cbn [store].
  rewrite seq_S, flat_map_app. cbn [flat_map Nat.add app].
  fold ends. rewrite <- app_assoc. reflexivity.
Qed.

(** The entries no [pipe] call has written are those of the pipes still
    to be made. *)
Lemma unwritten_after (made n : nat) :
  In Unwritten (pipefds_after made n) <-> (made < n - 1)%nat.
Proof.
  unfold pipefds_after. rewrite in_app_iff. split.
  - intros [I|I].
    + apply in_flat_map in I. destruct I as (k & _ & [E|[E|[]]]); discriminate E.
    + destruct (n - 1 - made)%nat as [|d] eqn:D; [destruct I | lia].
  - intros Lt. right.
    replace (2 * (n - 1 - made))%nat with (S (2 * (n - 1 - made) - 1)) by lia.
    left. reflexivity.
Qed.

Lemma length_pipefds_after (made n : nat) :
  (made <= n - 1)%nat -> length (pipefds_after made n) = (2 * (n - 1))%nat.
Proof.
  intros Le. unfold pipefds_after.
  rewrite length_app, length_pipe_ends, repeat_length. lia.
Qed.

Lemma pipeline_stages_wiring (cmds : list string) :
  forall (i n : nat) (bg : bool) (arr : list Slot) (fd : option nat) (pid : Z)
         (s : Shell) (pid' : Z) (s' : Shell),
    n = (i + length cmds)%nat ->
    arr = pipefds_after (Nat.min i (n - 1)) n ->
    fd = (if (i =? 0)%nat then None else Some (i - 1)%nat) ->
    pipeline_stages os cmds i n bg arr fd pid s = Continue (pid', s') ->
    exists evs,
      s' = emit evs s
      /\ forked_children evs
         = map (fun jc => stage_child n bg (fst jc) (snd jc))
               (combine (seq i (length cmds)) cmds)
      /\ created_pipes evs = seq i (length cmds - 1).
Proof.
  induction cmds as [|c rest IH];
    intros i n bg arr fd pid s pid' s' Hn Harr Hfd Run.
  - cbn in Run. inversion Run; subst. exists []. rewrite emit_nil.
    repeat split.
  - cbn [pipeline_stages] in Run.
    assert (More : (i <? n - 1)%nat = negb (Nat.eqb (length rest) 0)).
    { subst n. cbn [length]. destruct (length rest) as [|k].
      - apply Nat.ltb_ge. lia.
      - apply Nat.ltb_lt. lia. }
    destruct (i <? n - 1)%nat eqn:M.
    + assert (Lt : (i < n - 1)%nat) by (apply Nat.ltb_lt; exact M).
      assert (Arr1 : pipe_into i arr = pipefds_after (S i) n).
      { rewrite Harr. replace (Nat.min i (n - 1)) with i by lia.
        apply pipe_into_after. exact Lt. }
      rewrite Arr1 in Run.
      destruct (os_pipe os (trace s)); cbn [bind] in Run; [|discriminate Run].
      destruct (os_fork os (trace (emit [PipeCreated i] s))) as [p|];
        [|discriminate Run].
      apply IH in Run.
      * destruct Run as (evs & E & FC & CP). subst s'.
        eexists. rewrite !emit_emit. split; [reflexivity|].
        rewrite forked_children_app, created_pipes_app. cbn [app].
        cbn [forked_children created_pipes flat_map app] in *.
        fold (forked_children evs). fold (created_pipes evs).
        rewrite FC, CP. cbn [length seq combine map fst snd].
        split.
        { f_equal. unfold stage_child. rewrite M, Hfd.
          replace (Nat.min (i + 1) (n - 1)) with (S i) by lia. reflexivity. }
        destruct rest as [|c1 rest1]; [discriminate More|].
        cbn [length]. replace (S (length rest1) - 1)%nat with (length rest1) by lia.
        replace (S (S (length rest1)) - 1)%nat with (S (length rest1)) by lia.
        reflexivity.
      * subst n. cbn [length]. lia.
      * replace (Nat.min (S i) (n - 1)) with (S i) by lia. reflexivity.
      * destruct (S i =? 0)%nat eqn:Z0; [apply Nat.eqb_eq in Z0; lia|].
        replace (S i - 1)%nat with i by lia. reflexivity.
    + cbn [bind] in Run.
      destruct (os_fork os (trace s)) as [p|]; [|discriminate Run].
      destruct rest as [|c1 rest1]; [|discriminate More].
      cbn [pipeline_stages] in Run. inversion Run; subst s' pid'.
      eexists. split; [reflexivity|].
      cbn [forked_children created_pipes flat_map app length seq combine map fst snd].
      unfold stage_child. rewrite M, Hfd, Harr.
      apply Nat.ltb_ge in M.
      replace (Nat.min (i + 1) (n - 1)) with (Nat.min i (n - 1)) by lia.
      split; reflexivity.
Qed.

Lemma nth_error_combine_seq (l : list string) :
  forall (a j x : nat) (c : string),
    nth_error (combine (seq a (length l)) l) j = Some (x, c) ->
    x = (a + j)%nat /\ (j < length l)%nat.
Proof.
  induction l as [|y l IH]; intros a j x c H.
  - destruct j; discriminate H.
  - cbn [length seq combine] in H. destruct j as [|j]; cbn [nth_error] in H.
    + inversion H. cbn [length]. lia.
    + destruct (IH (S a) j x c H) as [E L]. cbn [length]. lia.
Qed.

(** X6: when a pipeline of N segments returns, the interpreter has created
    the pipes 0 to N-2 in this order and forked one child per segment in
    order; the first child redirects nothing to its standard input, every
    later child the read end of the pipe of the stage before it; the last
    child redirects nothing to its standard output, every earlier child
    the write end of the pipe of its own stage; each executes the tokens
    of its segment.  Before that each child hands all 2(N-1) entries of
    the descriptor array to [close]; for the stages j with j + 2 < N, and
    for no other, some of these entries were never written by a [pipe]
    call: they belong to the pipes of the later stages, which do not exist
    yet when the child is forked.  So from three stages on the first N-2
    children close descriptors whose numbers the program does not
    determine. *)
Theorem pipeline_connects_neighbours (cmds : list string) (background : bool)
    (s s' : Shell) :
  execute_piped_commands os cmds background s = Continue s' ->
  exists evs,
    trace s' = trace s ++ evs
    /\ forked_children evs
       = map (fun jc => stage_child (length cmds) background (fst jc) (snd jc))
             (combine (seq 0 (length cmds)) cmds)
    /\ created_pipes evs = seq 0 (length cmds - 1)
    /\ (forall j child,
           nth_error (forked_children evs) j = Some child ->
           length (child_closes child) = (2 * (length cmds - 1))%nat
           /\ (In Unwritten (child_closes child) <-> (j + 2 < length cmds)%nat)).
Proof.
  unfold execute_piped_commands. intros Run.
  destruct cmds as [|c rest]; [discriminate Run|].
  destruct (pipeline_stages os (c :: rest) 0 (length (c :: rest)) background
              (repeat Unwritten (2 * (length (c :: rest) - 1))) None 0 s)
    as [[pid s1] | st s1 | | ] eqn:P; cbn [bind] in Run; try discriminate Run.
  apply pipeline_stages_wiring in P; [|reflexivity| |reflexivity].
  2:{ unfold pipefds_after. cbn [Nat.min seq flat_map app].
      rewrite Nat.sub_0_r. reflexivity. }
  destruct P as (evs & E & FC & CP). subst s1.
  assert (Closes : forall j child,
             nth_error (forked_children evs) j = Some child ->
             length (child_closes child) = (2 * (length (c :: rest) - 1))%nat
             /\ (In Unwritten (child_closes child)
                 <-> (j + 2 < length (c :: rest))%nat)).
  { intros j child H. rewrite FC, nth_error_map in H.
    destruct (nth_error (combine (seq 0 (length (c :: rest))) (c :: rest)) j)
      as [[x seg]|] eqn:N; [|discriminate H].
    destruct (nth_error_combine_seq _ _ _ _ _ N) as [Ex Lj]. cbn [Nat.add] in Ex.
    subst x. cbn [option_map fst snd] in H. inversion H.
    unfold stage_child. cbn [child_closes length] in *. split.
    - apply length_pipefds_after. lia.
    - rewrite unwritten_after. lia. }
  assert (Tail : forall tail,
             forked_children tail = [] -> created_pipes tail = [] ->
             Continue (emit tail (emit evs s)) = Continue s' ->
             exists evs0,
               trace s' = trace s ++ evs0
               /\ forked_children evs0
                  = map (fun jc => stage_child (length (c :: rest)) background
                                               (fst jc) (snd jc))
                        (combine (seq 0 (length (c :: rest))) (c :: rest))
               /\ created_pipes evs0 = seq 0 (length (c :: rest) - 1)
               /\ (forall j child,
                      nth_error (forked_children evs0) j = Some child ->
                      length (child_closes child)
                      = (2 * (length (c :: rest) - 1))%nat
                      /\ (In Unwritten (child_closes child)
                          <-> (j + 2 < length (c :: rest))%nat))).
  { intros tail F0 C0 E. inversion E; subst s'.
    exists (evs ++ tail). rewrite emit_emit. split; [reflexivity|].
    rewrite forked_children_app, created_pipes_app, F0, C0, !app_nil_r.
    split; [exact FC|]. split; [exact CP | exact Closes]. }
  cbn [length] in Run.
  destruct background; cbn [negb] in Run.
  - exact (Tail [Stdout ("[PID " ++ fmt_d pid ++ " running in background]" ++ nl)%string]
                eq_refl eq_refl Run).
  - refine (Tail (repeat Wait (S (length rest))) _ _ Run).
    + generalize (S (length rest)). intros k.
      induction k as [|k IHk]; [reflexivity | exact IHk].
    + generalize (S (length rest)). intros k.
      induction k as [|k IHk]; [reflexivity | exact IHk].
Qed.

End Wiring.

Lemma pipeline_connects_neighbours_witness :
  exists evs,
    forked_children evs
    = [mkChild None (Some 0%nat)
               [ReadEnd 0; WriteEnd 0; Unwritten; Unwritten] ["ls"];
       mkChild (Some 0%nat) (Some 1%nat)
               [ReadEnd 0; WriteEnd 0; ReadEnd 1; WriteEnd 1] ["sort"; "-r"];
       mkChild (Some 1%nat) None
               [ReadEnd 0; WriteEnd 0; ReadEnd 1; WriteEnd 1] ["wc"]]
    /\ created_pipes evs = [0%nat; 1%nat].
Proof.
  destruct (pipeline_connects_neighbours friendly_os ["ls "; " sort -r "; " wc"] false
              (initial_shell [])
              (emit [PipeCreated 0;
                     Fork 100 (mkChild None (Some 0%nat)
                                 [ReadEnd 0; WriteEnd 0; Unwritten; Unwritten]
                                 ["ls"]);
                     PipeCreated 1;
                     Fork 101 (mkChild (Some 0%nat) (Some 1%nat)
                                 [ReadEnd 0; WriteEnd 0; ReadEnd 1; WriteEnd 1]
                                 ["sort"; "-r"]);
                     Fork 102 (mkChild (Some 1%nat) None
                                 [ReadEnd 0; WriteEnd 0; ReadEnd 1; WriteEnd 1]
                                 ["wc"]);
                     Wait; Wait; Wait] (initial_shell [])))
    as (evs & _ & FC & CP & _).
  - vm_compute. reflexivity.
  - exists evs. split; [exact FC | exact CP].
Defined.

(** ** The ring as the interpreter keeps it *)

Section RingKeeping.

Variable os : OS.

Lemma evict_oldest_until_skipn (n : Z) (l : list string) :
  0 <= n -> evict_oldest_until n l = skipn (length l - Z.to_nat n) l.
Proof.
  intros Hn. induction l as [|x l IH]; [reflexivity|].
  cbn [evict_oldest_until]. destruct (Z.of_nat (length (x :: l)) >? n) eqn:G.
  - rewrite IH. rewrite Z.gtb_ltb in G. apply Z.ltb_lt in G.
    cbn [length] in *.
    replace (S (length l) - Z.to_nat n)%nat with (S (length l - Z.to_nat n)) by lia.
    reflexivity.
  - rewrite Z.gtb_ltb in G. apply Z.ltb_ge in G. cbn [length] in *.
    replace (S (length l) - Z.to_nat n)%nat with O by lia. reflexivity.
Qed.

Lemma coalesced_tail (x : string) (l : list string) :
  coalesced (x :: l) = true -> coalesced l = true.
Proof.
  destruct l as [|y l]; [reflexivity|].
  cbn [coalesced]. intros H. apply andb_prop in H. apply H.
Qed.

Lemma coalesced_skipn (n : nat) :
  forall l, coalesced l = true -> coalesced (skipn n l) = true.
Proof.
  induction n as [|n IH]; intros l H; [exact H|].
  destruct l as [|x l]; [reflexivity|].
  cbn [skipn]. apply IH. exact (coalesced_tail x l H).
Qed.

Lemma coalesced_app_one (c : string) (l : list string) :
  coalesced l = true ->
  (forall older x, l = older ++ [x] -> x <> c) ->
  coalesced (l ++ [c]) = true.
Proof.
  induction l as [|x l IH]; intros C Last; [reflexivity|].
  destruct l as [|y l].
  - cbn [app coalesced]. rewrite andb_true_r. apply negb_true_iff.
    apply String.eqb_neq. exact (Last [] x eq_refl).
  - change ((x :: y :: l) ++ [c]) with (x :: y :: (l ++ [c])).
    cbn [coalesced] in C |- *. apply andb_prop in C. destruct C as [Cx Cr].
    rewrite Cx. cbn [andb].
    change (y :: l ++ [c]) with ((y :: l) ++ [c]).
    apply IH; [exact Cr|].
    intros older z E. apply (Last (x :: older) z). rewrite E. reflexivity.
Qed.

Lemma newest_is_last_slot (h : History) :
  0 < current_history_count h ->
  newest h = Some (history_at h (current_history_count h - 1)).
Proof.
  destruct h as [l cap en]. intros P.
  destruct l as [|x l] using rev_ind.
  - unfold current_history_count in P. simpl in P. lia.
  - rewrite newest_of_app. apply (newest_app l x). reflexivity.
Qed.

(** What an append does, spelled out. *)
Lemma add_to_history_cases (cmd : string) (h h' : History) :
  add_to_history cmd h = Some h' ->
  (h' = h
   /\ (add_to_history_enabled h = false \/ blank cmd = true
       \/ newest h = Some cmd))
  \/ (add_to_history_enabled h = true /\ blank cmd = false
      /\ newest h <> Some cmd
      /\ exists k, (k <= 1)%nat
                   /\ h' = with_entries (skipn k (history h) ++ [cmd]) h).
Proof.
  unfold add_to_history. intros H.
  destruct (add_to_history_enabled h) eqn:En; cbn [negb orb] in H.
  2:{ left. injection H as E0; subst h'. split; [reflexivity | left; reflexivity]. }
  fold (blank cmd) in H. destruct (blank cmd) eqn:Bl.
  { left. injection H as E0; subst h'. split; [reflexivity | right; left; reflexivity]. }
  destruct (current_history_count h >? 0) eqn:P; cbn [andb] in H.
  - rewrite Z.gtb_ltb in P. apply Z.ltb_lt in P.
    pose proof (newest_is_last_slot h P) as N.
    destruct (String.eqb_spec (history_at h (current_history_count h - 1)) cmd)
      as [E|NE].
    + left. injection H as E0; subst h'. split; [reflexivity|]. right; right. rewrite N, E. reflexivity.
    + right. split; [reflexivity|]. split; [reflexivity|]. split.
      { rewrite N. intros E. inversion E. contradiction. }
      destruct (current_history_count h =? history_capacity h).
      * destruct (history h) as [|x rest] eqn:Hh; [discriminate H|].
        destruct (_ <? _); [|discriminate H]. injection H as E0; subst h'.
        exists 1%nat. split; [lia|]. reflexivity.
      * destruct (_ <? _); [|discriminate H]. injection H as E0; subst h'.
        exists 0%nat. split; [lia|]. reflexivity.
  - right. split; [reflexivity|]. split; [reflexivity|].
    rewrite Z.gtb_ltb in P. apply Z.ltb_ge in P.
    assert (Hh : history h = []).
    { unfold current_history_count in P. destruct (history h); [reflexivity|].
      simpl in P. lia. }
    split.
    { unfold newest. rewrite Hh. discriminate. }
    destruct (current_history_count h =? history_capacity h).
    + rewrite Hh in H. discriminate H.
    + destruct (_ <? _); [|discriminate H]. injection H as E0; subst h'.
      exists 0%nat. split; [lia|]. reflexivity.
Qed.

Lemma add_to_history_ring_ok (cmd : string) (h h' : History) :
  ring_ok h -> add_to_history cmd h = Some h' -> ring_ok h'.
Proof.
  intros (W & C & B) A.
  pose proof (add_to_history_within_capacity cmd h h' W A) as W'.
  destruct (add_to_history_cases cmd h h' A)
    as [[E _] | (En & Bl & New & k & Hk & E)]; subst h'.
  - split; [exact W|]. split; assumption.
  - split; [exact W'|]. cbn [with_entries history]. split.
    + apply coalesced_app_one; [apply coalesced_skipn; exact C|].
      intros older x E Ex. subst x. apply New.
      apply (newest_app (firstn k (history h) ++ older) cmd).
      rewrite <- app_assoc, <- E. symmetry. apply firstn_skipn.
    + rewrite forallb_app. rewrite (forallb_skipn _ _ _ B).
      cbn [forallb]. rewrite Bl. reflexivity.
Qed.

(** On a safe ring the append is defined. *)
Lemma add_to_history_defined (cmd : string) (h : History) :
  ring_safe h -> exists h', add_to_history cmd h = Some h'.
Proof.
  intros ((W & _ & _) & Safe). unfold add_to_history.
  destruct (negb (add_to_history_enabled h) || (cmd =? "")%string
            || strspn_all whitespace cmd) eqn:G; [eexists; reflexivity|].
  destruct (_ && _); [eexists; reflexivity|].
  assert (En : add_to_history_enabled h = true).
  { destruct (add_to_history_enabled h); [reflexivity | discriminate G]. }
  assert (Cap : 0 < history_capacity h).
  { unfold within_capacity, current_history_count in W.
    destruct (Z.eq_dec (history_capacity h) 0) as [Z0|NZ]; [|lia].
    rewrite (Safe Z0) in En. discriminate En. }
  unfold within_capacity in W.
  destruct (current_history_count h =? history_capacity h) eqn:Full.
  - apply Z.eqb_eq in Full. destruct (history h) as [|x rest] eqn:Hh.
    + unfold current_history_count in Full. rewrite Hh in Full. simpl in Full. lia.
    + unfold current_history_count in *. rewrite Hh in Full.
      cbn [with_entries history history_capacity].
      replace (Z.of_nat (length rest) <? history_capacity h) with true;
        [eexists; reflexivity|].
      symmetry. apply Z.ltb_lt. simpl length in Full. lia.
  - apply Z.eqb_neq in Full.
    replace (current_history_count h <? history_capacity h) with true;
      [eexists; reflexivity|].
    symmetry. apply Z.ltb_lt. lia.
Qed.

Lemma add_to_history_ring_safe (cmd : string) (h h' : History) :
  ring_safe h -> add_to_history cmd h = Some h' -> ring_safe h'.
Proof.
  intros [Ok Safe] A. split; [exact (add_to_history_ring_ok cmd h h' Ok A)|].
  destruct (add_to_history_cases cmd h h' A)
    as [[E _] | (_ & _ & _ & k & _ & E)]; subst h'; exact Safe.
Qed.

Lemma set_history_size_ring_ok (tr : list Event) (n : Z) (h : History) :
  ring_ok h -> ring_ok (fst (set_history_size os tr n h)).
Proof.
  intros (W & C & B).
  split; [exact (set_history_size_within_capacity os tr n h W)|].
  destruct (set_history_size_evicts os tr n h) as [k E]. rewrite E.
  split; [apply coalesced_skipn; exact C | apply forallb_skipn; exact B].
Qed.

Lemma set_history_size_ring_safe (tr : list Event) (n : Z) (h : History) :
  realloc_granted os -> ring_safe h ->
  ring_safe (fst (set_history_size os tr n h)).
Proof.
  intros G [Ok Safe]. split; [exact (set_history_size_ring_ok tr n h Ok)|].
  unfold set_history_size. destruct (n <? 0); [exact Safe|].
  rewrite (G tr n). cbn [negb andb fst].
  destruct (current_history_count _ >? n);
    cbn [with_entries with_capacity with_enabled history_capacity
         add_to_history_enabled];
    intros Z0; subst n; reflexivity.
Qed.

End RingKeeping.

(** ** Lines keep the ring well formed *)

Section LinesAndRing.

Variable os : OS.

(** The case analysis of [built_in_command_cases], with the resize kept
    as the call it is. *)
Lemma built_in_command_cases_resize (P : outcome -> Prop)
    (rec : string -> Shell -> outcome) (argv : list string) (s : Shell) :
  P Undefined ->
  P (Exited 0 s) ->
  (forall evs, P (Continue (emit evs s))) ->
  (forall d, P (Continue (set_cwd d s))) ->
  (forall env, P (Continue (set_environ env s))) ->
  (forall vars, P (Continue (set_localVars vars s))) ->
  (forall n,
      P (Continue (emit (snd (set_history_size os (trace s) n (sh_history s)))
                        (set_history
                           (fst (set_history_size os (trace s) n (sh_history s)))
                           s)))) ->
  (forall k, P (execute_history_command rec k s)) ->
  P (built_in_command os rec argv s).
Proof.
  intros PU PX PE PD PV PL PH PR.
  assert (PS : P (Continue s)).
  { rewrite <- (emit_nil s). apply PE. }
  unfold built_in_command.
  destruct (arg 0 argv) as [a0|]; [|exact PU].
  destruct (a0 =? "exit")%string.
  { unfold cmd_exit. destruct (negb _); [apply PE | exact PX]. }
  destruct (a0 =? "cd")%string.
  { unfold cmd_cd. destruct (arg 1 argv) as [p|]; [|apply PE].
    destruct (os_chdir os (cwd s) p); [apply PD | apply PE]. }
  destruct (a0 =? "history")%string.
  { unfold cmd_history_control.
    destruct (arg 1 argv) as [a1|]; [|apply PE].
    destruct (arg 2 argv) as [a2|]; [|apply PR].
    destruct (a1 =? "set")%string; [|apply PR].
    specialize (PH (atoi a2)).
    destruct (set_history_size os (trace s) (atoi a2) (sh_history s)) as [h printed].
    exact PH. }
  destruct ((a0 =? "export")%string && negb (is_null (arg 1 argv))).
  { destruct (arg 1 argv) as [a1|]; [|exact PS].
    destruct (split_assignment a1) as [n v]. unfold cmd_export.
    destruct n as [nm|]; [|apply PE].
    destruct (is_null v || str_is v "");
      [destruct (unsetenv nm (environ s)); [apply PV | apply PE]|].
    destruct v as [val|]; [|exact PS].
    destruct (setenv nm val (environ s)); [apply PV | apply PE]. }
  destruct ((a0 =? "local")%string && negb (is_null (arg 1 argv))).
  { destruct (arg 1 argv) as [a1|]; [|exact PS].
    destruct (split_assignment a1) as [n v]. unfold cmd_local.
    destruct (is_null v || str_is v "").
    - destruct n as [nm|].
      + destruct (find_local (localVars s) nm); [apply PL | exact PS].
      + destruct (localVars s); [exact PS | exact PU].
    - destruct n as [nm|]; [|exact PU]. destruct v as [val|]; [|exact PU].
      destruct (find_local (localVars s) nm); [apply PL|].
      destruct (localVarCount s <? MAX_LOCAL_VARS)%nat; [apply PL | exact PS]. }
  destruct (a0 =? "vars")%string; [apply PE | exact PS].
Qed.

(** The state a line leaves behind, when the ring holds recorded lines. *)
Lemma line_on_recorded_ring (I : History -> Prop) (fuel : nat)
    (line : string) (s s' : Shell) :
  (forall cmd h h', I h -> add_to_history cmd h = Some h' -> I h') ->
  (forall tr n h, I h -> I (fst (set_history_size os tr n h))) ->
  forallb recallable (history (sh_history s)) = true ->
  I (sh_history s) ->
  parse_and_execute os fuel line s = Continue s' ->
  I (sh_history s').
Proof.
  intros Add Resize Rec Inv Run.
  destruct fuel as [|n]; [discriminate Run|].
  rewrite parse_and_execute_step in Run.
  destruct (string_dec line "") as [->|NE]; [discriminate Run|].
  destruct (first_token (strip_newline line)) as [t|] eqn:FT.
  2:{ pose proof (parse_and_execute_no_token os (parse_and_execute os n) line s FT) as H.
      rewrite Run in H. destruct H. }
  destruct (isBuiltInCommand t) eqn:BI.
  - rewrite (parse_and_execute_builtin os _ line t s NE FT BI) in Run.
    destruct (negb (t =? "history")%string || _).
    2:{ inversion Run; subst s'. exact Inv. }
    revert s' Run.
    apply (built_in_command_cases_resize
             (fun r => forall s', r = Continue s' -> I (sh_history s')));
      try (intros; discriminate);
      try (intros x s' E; inversion E; subst s'; exact Inv).
    + intros k s' E. inversion E; subst s'. apply Resize. exact Inv.
    + intros k s' E. unfold execute_history_command in E.
      destruct ((k <? 1) || (k >? current_history_count (sh_history s))) eqn:Out.
      { inversion E; subst s'. exact Inv. }
      apply orb_false_elim in Out. destruct Out as [O1 O2].
      apply Z.ltb_ge in O1. rewrite Z.gtb_ltb in O2. apply Z.ltb_ge in O2.
      assert (R : 1 <= k <= current_history_count (sh_history s)) by lia.
      assert (Rk : recallable (history_at (sh_history s)
                                 (current_history_count (sh_history s) - k)) = true).
      { rewrite forallb_forall in Rec. apply Rec. apply history_at_in. exact R. }
      destruct n as [|m]; [discriminate E|].
      pose proof (recall_of_recorded os m k s R Rk) as H.
      unfold execute_history_command in H.
      replace ((k <? 1) || (k >? current_history_count (sh_history s)))
        with false in H
        by (symmetry; apply orb_false_intro;
            [apply Z.ltb_ge; lia | rewrite Z.gtb_ltb; apply Z.ltb_ge; lia]).
      rewrite E in H. destruct H as [evs Ev]. subst s'. exact Inv.
  - rewrite (parse_and_execute_external os _ line t s NE FT BI) in Run.
    pose proof (dispatch_external_frame os (strip_newline line) s) as Fr.
    destruct (dispatch_external os (strip_newline line) s) as [s1 | st s1 | | ];
      cbn [bind] in Run; try discriminate Run.
    destruct Fr as [evs E1]. subst s1.
    change (sh_history (emit evs s)) with (sh_history s) in Run.
    destruct (add_to_history (strip_newline line) (sh_history s)) as [h|] eqn:A;
      [|discriminate Run].
    inversion Run; subst s'. cbn [set_history sh_history].
    exact (Add _ _ _ Inv A).
Qed.

(** X7: a line never spoils the ring.  Starting from a ring within its
    capacity, without equal neighbours and without blank entries, made of
    lines the interpreter recorded, any line read by [fgets] that returns
    leaves such a ring; and when [realloc] is never refused, the ring also
    stays one that records only while its capacity is positive. *)
Theorem lines_keep_the_ring_well_formed (fuel : nat) (line : string)
    (s s' : Shell) :
  fgets_line line = true ->
  forallb recallable (history (sh_history s)) = true ->
  ring_ok (sh_history s) ->
  parse_and_execute os fuel line s = Continue s' ->
  forallb recallable (history (sh_history s')) = true
  /\ ring_ok (sh_history s')
  /\ (realloc_granted os -> ring_safe (sh_history s) -> ring_safe (sh_history s')).
Proof.
  intros Fg Rec Ok Run.
  split; [exact (recorded_lines_stay_recallable os fuel line s s' Rec Fg Run)|].
  split.
  - apply (line_on_recorded_ring ring_ok fuel line s s'); try assumption.
    + intros cmd h h'. apply add_to_history_ring_ok.
    + intros tr n h. apply set_history_size_ring_ok.
  - intros G Safe.
    apply (line_on_recorded_ring ring_safe fuel line s s'); try assumption.
    + intros cmd h h'. apply add_to_history_ring_safe.
    + intros tr n h. apply set_history_size_ring_safe. exact G.
Qed.

(** X8: on a safe ring a line with a first token that is not a built-in
    and with at least one segment is always run to its end: the call
    returns, or the process exits with status -1 or [EXIT_FAILURE] on a
    refused fork or pipe.  When it returns, only the trace and the ring
    have changed, the ring by the append of the line; and if the ring
    records and the line is not blank, the line is the newest entry
    afterwards. *)
Theorem external_line_runs_to_completion (fuel : nat) (line : string) (s : Shell) :
  ring_safe (sh_history s) ->
  recallable line = true ->
  match parse_and_execute os (S fuel) line s with
  | Continue s' =>
      (exists evs h',
          add_to_history (strip_newline line) (sh_history s) = Some h'
          /\ s' = set_history h' (emit evs s))
      /\ (add_to_history_enabled (sh_history s) = true ->
          blank (strip_newline line) = false ->
          newest (sh_history s') = Some (strip_newline line))
  | Exited st s' =>
      (st = -1 \/ st = EXIT_FAILURE) /\ exists evs, s' = emit evs s
  | Undefined | OutOfFuel => False
  end.
Proof.
  intros Safe Rec.
  destruct (recallable_inv line Rec) as (NE & (t & FT & BI) & SP).
  rewrite parse_and_execute_step.
  rewrite (parse_and_execute_external os _ line t s NE FT BI).
  pose proof (dispatch_external_frame os (strip_newline line) s) as Fr.
  assert (St : forall st s1,
             dispatch_external os (strip_newline line) s = Exited st s1 ->
             st = -1 \/ st = EXIT_FAILURE).
  { unfold dispatch_external. intros st s1.
    destruct (split_pipeline (strip_newline line)) as [|c0 [|c1 cs]];
      [contradiction| |].
    - destruct (process_input c0 false) as [argv bg]. unfold execute_command.
      destruct (isValidCommand _) as [valid printed].
      destruct (negb valid); [discriminate|].
      destruct (os_fork os (trace s)); [destruct (negb bg); discriminate|].
      intros E. inversion E. left. reflexivity.
    - intros E.
      assert (N : c0 :: c1 :: cs <> []) by discriminate.
      pose proof (execute_piped_commands_spec os _ false s N) as H.
      rewrite E in H. right. apply H. }
  destruct (dispatch_external os (strip_newline line) s) as [s1 | st s1 | | ];
    cbn [bind].
  - destruct Fr as [evs E1]. subst s1.
    change (sh_history (emit evs s)) with (sh_history s).
    destruct (add_to_history_defined (strip_newline line) (sh_history s) Safe)
      as [h' A].
    rewrite A. split.
    + exists evs, h'. split; reflexivity.
    + intros En Bl. cbn [set_history sh_history].
      destruct (add_to_history_cases _ _ _ A)
        as [[E [Off | [B | N]]] | (_ & _ & _ & k & _ & E)]; subst h'.
      * rewrite Off in En. discriminate En.
      * rewrite B in Bl. discriminate Bl.
      * exact N.
      * apply (newest_app (skipn k (history (sh_history s))) _). reflexivity.
  - split; [exact (St st s1 eq_refl) | exact Fr].
  - exact (SP Fr).
  - exact Fr.
Qed.

End LinesAndRing.

Lemma lines_keep_the_ring_witness :
  exists s',
    parse_and_execute friendly_os 1 "pwd" sample_shell = Continue s'
    /\ ring_ok (sh_history s')
    /\ ring_safe (sh_history s').
Proof.
  assert (Ok : ring_ok (sh_history sample_shell)).
  { split; [|split]; try reflexivity.
    unfold within_capacity, current_history_count. simpl. unfold MAX_HISTORY. lia. }
  assert (Safe : ring_safe (sh_history sample_shell)).
  { split; [exact Ok|]. simpl. unfold MAX_HISTORY. discriminate. }
  destruct (parse_and_execute friendly_os 1 "pwd" sample_shell) as [s'| | | ] eqn:E;
    try (vm_compute in E; discriminate E).
  exists s'. split; [reflexivity|].
  destruct (lines_keep_the_ring_well_formed friendly_os 1 "pwd" sample_shell s')
    as (_ & Ok' & Safe'); try reflexivity; try assumption.
  split; [exact Ok'|]. apply Safe'; [|exact Safe].
  intros tr n. reflexivity.
Defined.

Lemma external_line_witness :
  match parse_and_execute friendly_os 1 "pwd" sample_shell with
  | Continue s' => newest (sh_history s') = Some "pwd"
  | _ => False
  end.
Proof.
  assert (Safe : ring_safe (sh_history sample_shell)).
  { split; [split; [|split]|]; try reflexivity.
    - unfold within_capacity, current_history_count. simpl. unfold MAX_HISTORY. lia.
    - simpl. unfold MAX_HISTORY. discriminate. }
  pose proof (external_line_runs_to_completion friendly_os O "pwd" sample_shell
                Safe eq_refl) as H.
  destruct (parse_and_execute friendly_os 1 "pwd" sample_shell) as [s'| | | ] eqn:E;
    try (vm_compute in E; discriminate E).
  destruct H as [_ N]. apply N; reflexivity.
Defined.

(** ** Resizing and recalling *)

Section ResizeAndRecall.

(** X9: [set_history_size] with a size [n >= 0] keeps the newest [n]
    entries (all of them when there are fewer) in their order, and records
    from then on exactly when [n] is not zero; the capacity becomes [n]
    unless [realloc] fails for a positive [n], in which case the failure is
    reported and the capacity stays what it was although the entries are
    already evicted.  A negative size is reported and changes nothing. *)
Theorem resize_keeps_the_newest (os : OS) (tr : list Event) (n : Z) (h : History) :
  (n < 0 ->
   set_history_size os tr n h = (h, [Stderr ("Invalid history size." ++ nl)%string]))
  /\ (0 <= n ->
      history (fst (set_history_size os tr n h))
      = skipn (length (history h) - Z.to_nat n) (history h)
      /\ add_to_history_enabled (fst (set_history_size os tr n h))
         = negb (n =? 0)
      /\ (os_realloc os tr n = true \/ n = 0 ->
          history_capacity (fst (set_history_size os tr n h)) = n
          /\ snd (set_history_size os tr n h) = [])
      /\ (os_realloc os tr n = false -> 0 < n ->
          history_capacity (fst (set_history_size os tr n h)) = history_capacity h
          /\ snd (set_history_size os tr n h) = [Perror "Unable to resize history"])).
Proof.
  split.
  - intros Neg. unfold set_history_size.
    replace (n <? 0) with true by (symmetry; apply Z.ltb_lt; lia). reflexivity.
  - intros Pos. unfold set_history_size.
    replace (n <? 0) with false by (symmetry; apply Z.ltb_ge; lia).
    assert (Fit : (current_history_count
                     (with_capacity n
                        (with_entries
                           (evict_oldest_until n (history (with_enabled (negb (n =? 0)) h)))
                           (with_enabled (negb (n =? 0)) h))) >? n) = false).
    { unfold current_history_count. simpl history.
      rewrite Z.gtb_ltb. apply Z.ltb_ge. apply evict_oldest_until_fits. exact Pos. }
    rewrite Fit.
    destruct (os_realloc os tr n) eqn:R; cbn [negb andb].
    + cbn [fst snd with_capacity with_entries with_enabled history
           history_capacity add_to_history_enabled].
      rewrite evict_oldest_until_skipn by exact Pos.
      split; [reflexivity|]. split; [reflexivity|]. split.
      * intros _. split; reflexivity.
      * intros F. discriminate F.
    + destruct (n >? 0) eqn:G;
        cbn [fst snd with_capacity with_entries with_enabled history
             history_capacity add_to_history_enabled];
        rewrite evict_oldest_until_skipn by exact Pos;
        (split; [reflexivity|]); (split; [reflexivity|]); split.
      * intros [F|Z0]; [discriminate F|]. subst n. discriminate G.
      * intros _ _. split; reflexivity.
      * intros _. split; reflexivity.
      * intros _ P. rewrite Z.gtb_ltb in G. apply Z.ltb_ge in G. lia.
Qed.

Lemma resize_keeps_the_newest_witness :
  history (fst (set_history_size friendly_os [] 2
                  (mkHistory ["a"; "b"; "c"; "d"] 5 true))) = ["c"; "d"]
  /\ set_history_size friendly_os [] (-1) (mkHistory ["a"] 5 true)
     = (mkHistory ["a"] 5 true, [Stderr ("Invalid history size." ++ nl)%string]).
Proof.
  split.
  - destruct (resize_keeps_the_newest friendly_os [] 2
                (mkHistory ["a"; "b"; "c"; "d"] 5 true)) as [_ Pos].
    destruct Pos as (Kept & _); [lia|]. exact Kept.
  - destruct (resize_keeps_the_newest friendly_os [] (-1)
                (mkHistory ["a"] 5 true)) as [Neg _].
    apply Neg. lia.
Defined.

(** X10: the entry [execute_history_command] runs for the number [k] is
    the one [print_history] shows with the number [k]: when the listing
    has [k) e] as its line number [k], the recall of [k] is the run of [e]
    with the recording switched off, after which the flag gets back the
    value it had.  For a number below 1 or above the number of entries
    the recall runs nothing and only prints
    [Invalid history command number.] *)
Theorem recall_runs_the_entry_listed_with_that_number (h : History) (k : Z) :
  (1 <= k <= current_history_count h ->
   exists e,
     nth_error (print_history h) (Z.to_nat (k - 1))
     = Some (Stdout (fmt_d k ++ ") " ++ e ++ nl)%string)
     /\ nth_error (rev (history h)) (Z.to_nat (k - 1)) = Some e
     /\ forall rec s,
         sh_history s = h ->
         execute_history_command rec k s
         = bind (rec e (set_history (with_enabled false h) s))
                (fun s1 =>
                   Continue (set_history
                               (with_enabled (add_to_history_enabled h)
                                             (sh_history s1)) s1)))
  /\ (k < 1 \/ current_history_count h < k ->
      forall rec s,
        sh_history s = h ->
        execute_history_command rec k s
        = Continue (emit [Stdout ("Invalid history command number." ++ nl)%string] s)).
Proof.
  split.
  - intros R. exists (history_at h (current_history_count h - k)).
    split; [|split].
    + unfold current_history_count in R.
      rewrite print_history_nth by lia.
      replace (Z.of_nat (Z.to_nat (k - 1)) + 1) with k by lia.
      rewrite rev_nth by lia. unfold history_at, current_history_count.
      replace (length (history h) - S (Z.to_nat (k - 1)))%nat
        with (Z.to_nat (Z.of_nat (length (history h)) - k)) by lia.
      reflexivity.
    + unfold current_history_count in *. unfold history_at.
      rewrite nth_error_nth' with (d := "") by (rewrite length_rev; lia).
      rewrite rev_nth by lia. f_equal. f_equal. lia.
    + intros rec s E. unfold execute_history_command. rewrite E.
      replace ((k <? 1) || (k >? current_history_count h)) with false;
        [reflexivity|].
      symmetry. apply orb_false_intro; [apply Z.ltb_ge; lia|].
      rewrite Z.gtb_ltb. apply Z.ltb_ge. lia.
  - intros Out rec s E. unfold execute_history_command. rewrite E.
    replace ((k <? 1) || (k >? current_history_count h)) with true; [reflexivity|].
    symmetry. apply orb_true_iff. rewrite Z.gtb_ltb.
    destruct Out as [L|G]; [left; apply Z.ltb_lt | right; apply Z.ltb_lt]; lia.
Qed.

Lemma recall_runs_the_entry_listed_witness :
  (exists e,
      nth_error (print_history (sh_history sample_shell)) 0
      = Some (Stdout ("1) " ++ e ++ nl)%string)
      /\ e = "echo $FOO"
      /\ execute_history_command (parse_and_execute friendly_os 1) 1 sample_shell
         = Continue (emit [Fork 100 (mkChild None None [] ["echo"; "bar"]);
                           WaitPid 100] sample_shell))
  /\ execute_history_command (parse_and_execute friendly_os 1) 7 sample_shell
     = Continue (emit [Stdout ("Invalid history command number." ++ nl)%string]
                      sample_shell).
Proof.
  destruct (recall_runs_the_entry_listed_with_that_number
              (sh_history sample_shell) 1) as [In _].
  destruct (recall_runs_the_entry_listed_with_that_number
              (sh_history sample_shell) 7) as [_ Out].
  split.
  - destruct In as (e & Listed & Nth & Run).
    + unfold current_history_count. simpl. lia.
    + exists e. split; [exact Listed|].
      assert (E : e = "echo $FOO") by (inversion Nth; reflexivity).
      split; [exact E|].
      rewrite (Run (parse_and_execute friendly_os 1) sample_shell eq_refl).
      subst e. vm_compute. reflexivity.
  - apply Out; [|reflexivity]. right. unfold current_history_count. simpl. lia.
Defined.

End ResizeAndRecall.

(** ** The variable store *)

Section VariableStore.

Lemma strncpy_short (k : nat) (s : string) :
  (String.length s <= k)%nat -> strncpy k s = s.
Proof.
  unfold strncpy. revert k. induction s as [|c s IH]; intros k L.
  - destruct k; reflexivity.
  - destruct k as [|k]; [simpl in L; lia|].
    cbn [substring]. rewrite IH; [reflexivity|]. simpl in L. lia.
Qed.

Lemma local_value_cons (x : LocalVar) (l : list LocalVar) (m : string) :
  local_value (x :: l) m
  = if (name x =? m)%string then Some (value x) else local_value l m.
Proof.
  unfold local_value. cbn [find_local].
  destruct (name x =? m)%string; [reflexivity|].
  destruct (find_local l m); reflexivity.
Qed.

Lemma local_value_app (l1 l2 : list LocalVar) (m : string) :
  local_value (l1 ++ l2) m
  = match local_value l1 m with
    | Some v => Some v
    | None => local_value l2 m
    end.
Proof.
  induction l1 as [|x l1 IH]; [reflexivity|].
  cbn [app]. rewrite !local_value_cons, IH.
  destruct (name x =? m)%string; reflexivity.
Qed.

Lemma local_value_none (l : list LocalVar) (m : string) :
  local_value l m = None <-> ~ In m (map name l).
Proof.
  induction l as [|x l IH]; [split; [intros _ [] | reflexivity]|].
  rewrite local_value_cons. cbn [map In].
  destruct (String.eqb_spec (name x) m) as [E|NE].
  - split; [discriminate | intros H; exfalso; apply H; left; exact E].
  - rewrite IH. tauto.
Qed.

Lemma find_local_split (vars : list LocalVar) (n : string) (i : nat) :
  find_local vars n = Some i ->
  exists pre x post,
    vars = pre ++ x :: post /\ length pre = i /\ name x = n
    /\ ~ In n (map name pre).
Proof.
  revert i. induction vars as [|y vars IH]; intros i H; [discriminate H|].
  cbn [find_local] in H. destruct (String.eqb_spec (name y) n) as [E|NE].
  - inversion H; subst i. exists [], y, vars. repeat split; auto.
  - destruct (find_local vars n) as [j|]; [|discriminate H].
    inversion H; subst i.
    destruct (IH j eq_refl) as (pre & x & post & E & L & Nx & Fresh).
    exists (y :: pre), x, post. subst vars. repeat split; auto.
    + simpl. rewrite L. reflexivity.
    + cbn [map In]. intros [A|A]; [exact (NE A) | exact (Fresh A)].
Qed.

Lemma find_local_none (vars : list LocalVar) (n : string) :
  find_local vars n = None -> local_value vars n = None.
Proof. intros H. unfold local_value. rewrite H. reflexivity. Qed.

Lemma update_value_at_middle (pre post : list LocalVar) (x : LocalVar) (v : string) :
  update_value_at (length pre) v (pre ++ x :: post)
  = pre ++ mkLocalVar (name x) v :: post.
Proof.
  induction pre as [|y pre IH]; [reflexivity|].
  cbn [length app update_value_at]. rewrite IH. reflexivity.
Qed.

Lemma remove_at_middle (pre post : list LocalVar) (x : LocalVar) :
  remove_at (length pre) (pre ++ x :: post) = pre ++ post.
Proof.
  unfold remove_at. induction pre as [|y pre IH]; [reflexivity|].
  cbn [length app firstn skipn]. f_equal. exact IH.
Qed.

(** X11: [cmd_local] with a name of at most [MAX_LINE_LENGTH - 1]
    characters and a value that is not empty binds the name: afterwards
    the store holds for it the value, cut to [MAX_LINE_LENGTH - 1]
    characters, every other name has the value it had, nothing else in the
    interpreter has changed, and a store with distinct names and at most
    [MAX_LOCAL_VARS] entries is again such a store.  The one exception is a
    new name when the table is full: it is dropped without a message. *)
Theorem local_binds_the_name (n v : string) (s : Shell) :
  (String.length n <= MAX_LINE_LENGTH - 1)%nat ->
  v <> "" ->
  (local_value (localVars s) n <> None
   \/ (localVarCount s < MAX_LOCAL_VARS)%nat ->
   exists vars',
     cmd_local (Some n) (Some v) s = Continue (set_localVars vars' s)
     /\ local_value vars' n = Some (strncpy (MAX_LINE_LENGTH - 1) v)
     /\ (forall m, m <> n -> local_value vars' m = local_value (localVars s) m)
     /\ (store_ok (localVars s) -> store_ok vars'))
  /\ (local_value (localVars s) n = None ->
      (MAX_LOCAL_VARS <= localVarCount s)%nat ->
      cmd_local (Some n) (Some v) s = Continue s).
Proof.
  intros Ln Nv.
  assert (V : is_null (Some v) || str_is (Some v) "" = false).
  { cbn [is_null str_is orb]. apply String.eqb_neq. exact Nv. }
  split.
  - intros Room. unfold cmd_local. rewrite V.
    destruct (find_local (localVars s) n) as [i|] eqn:F.
    + destruct (find_local_split _ _ _ F) as (pre & x & post & E & L & Nx & Fresh).
      eexists. split; [reflexivity|].
      rewrite E. subst i. rewrite update_value_at_middle, Nx.
      apply local_value_none in Fresh.
      split; [|split].
      * rewrite local_value_app, Fresh, local_value_cons. cbn [name value].
        rewrite String.eqb_refl. reflexivity.
      * intros m Hm. rewrite !local_value_app, !local_value_cons. cbn [name value].
        rewrite Nx. destruct (String.eqb_spec n m) as [A|_]; [congruence|reflexivity].
      * intros [ND Len]. split.
        -- rewrite map_app in *. cbn [map name] in *. rewrite Nx in ND. exact ND.
        -- rewrite length_app in *. exact Len.
    + assert (R : (localVarCount s <? MAX_LOCAL_VARS)%nat = true).
      { apply Nat.ltb_lt. destruct Room as [B|R]; [|exact R].
        exfalso. apply B. exact (find_local_none _ _ F). }
      rewrite R. eexists. split; [reflexivity|].
      rewrite (strncpy_short _ n Ln).
      pose proof (find_local_none _ _ F) as None.
      split; [|split].
      * rewrite local_value_app, None, local_value_cons. cbn [name value].
        rewrite String.eqb_refl. reflexivity.
      * intros m Hm. rewrite local_value_app, local_value_cons. cbn [name value].
        destruct (String.eqb_spec n m) as [A|_]; [congruence|].
        destruct (local_value (localVars s) m); reflexivity.
      * intros [ND Len]. split.
        -- rewrite map_app. cbn [map name].
           apply NoDup_rev in ND. rewrite <- (rev_involutive (_ ++ _)).
           apply NoDup_rev. rewrite rev_app_distr. cbn [rev app].
           constructor; [|exact ND].
           rewrite <- in_rev. apply local_value_none. exact None.
        -- rewrite length_app. cbn [length].
           apply Nat.ltb_lt in R. unfold localVarCount in R. lia.
  - intros None Full. unfold cmd_local. rewrite V.
    unfold local_value in None.
    destruct (find_local (localVars s) n); [discriminate None|].
    replace (localVarCount s <? MAX_LOCAL_VARS)%nat with false; [reflexivity|].
    symmetry. apply Nat.ltb_ge. exact Full.
Qed.

Lemma local_binds_the_name_witness :
  exists vars',
    cmd_local (Some "FOO") (Some "baz") sample_shell
    = Continue (set_localVars vars' sample_shell)
    /\ local_value vars' "FOO" = Some "baz"
    /\ local_value vars' "BAR" = None.
Proof.
  destruct (local_binds_the_name "FOO" "baz" sample_shell) as [Bind _].
  - vm_compute. lia.
  - discriminate.
  - destruct Bind as (vars' & Run & Val & Others & _).
    + left. discriminate.
    + exists vars'. split; [exact Run|]. split; [exact Val|].
      rewrite (Others "BAR"); [reflexivity | discriminate].
Defined.

(** X12: [cmd_local] with a NULL or empty value removes the name: in a
    store with distinct names the name is unbound afterwards, every other
    name has the value it had, and the store keeps distinct names and its
    bound; nothing else changes.  Removing a name that is not bound is not
    an error: the interpreter state is left as it is. *)
Theorem local_without_value_unbinds (n : string) (v : option string) (s : Shell) :
  v = None \/ v = Some "" ->
  (exists vars',
      cmd_local (Some n) v s = Continue (set_localVars vars' s)
      /\ (forall m, m <> n -> local_value vars' m = local_value (localVars s) m)
      /\ (store_ok (localVars s) ->
          local_value vars' n = None /\ store_ok vars'))
  /\ (local_value (localVars s) n = None -> cmd_local (Some n) v s = Continue s).
Proof.
  intros Hv.
  assert (V : is_null v || str_is v "" = true).
  { destruct Hv; subst v; reflexivity. }
  split.
  - unfold cmd_local. rewrite V.
    destruct (find_local (localVars s) n) as [i|] eqn:F.
    + destruct (find_local_split _ _ _ F) as (pre & x & post & E & L & Nx & Fresh).
      eexists. split; [reflexivity|]. rewrite E. subst i.
      rewrite remove_at_middle. apply local_value_none in Fresh. split.
      * intros m Hm. rewrite !local_value_app, local_value_cons, Nx.
        destruct (String.eqb_spec n m) as [A|_]; [congruence|reflexivity].
      * intros [ND Len].
        rewrite map_app in ND. cbn [map] in ND. rewrite Nx in ND.
        pose proof (NoDup_remove_2 _ _ _ ND) as Out.
        pose proof (NoDup_remove_1 _ _ _ ND) as ND'.
        rewrite <- map_app in Out, ND'.
        split; [apply local_value_none; exact Out|].
        split; [exact ND'|].
        rewrite length_app in *. cbn [length] in Len. lia.
    + exists (localVars s). destruct s as [h lv en cw tr]. cbn [localVars].
      split; [reflexivity|]. split; [reflexivity|].
      intros Ok. split; [|exact Ok]. unfold local_value.
      cbn [localVars] in F. rewrite F. reflexivity.
  - intros None. unfold cmd_local. rewrite V. unfold local_value in None.
    destruct (find_local (localVars s) n); [discriminate None | reflexivity].
Qed.

Lemma local_without_value_witness :
  exists vars',
    cmd_local (Some "FOO") None sample_shell
    = Continue (set_localVars vars' sample_shell)
    /\ local_value vars' "FOO" = None.
Proof.
  destruct (local_without_value_unbinds "FOO" None sample_shell) as [Unset _].
  - left. reflexivity.
  - destruct Unset as (vars' & Run & _ & Gone).
    exists vars'. split; [exact Run|]. apply Gone.
    split; [repeat constructor; simpl; tauto | vm_compute; lia].
Defined.

End VariableStore.

(** ** Exported variables *)

Section Exports.

(** Two names without equals sign that a string of [environ] can both be
    read with are the same name. *)
Lemma env_entry_name (n m w u : string) :
  strchr n "=" = false -> strchr m "=" = false ->
  env_entry n w = env_entry m u -> n = m.
Proof.
  unfold env_entry. revert m. induction n as [|a n IH]; intros [|b m] Hn Hm E;
    cbn [append strchr] in *.
  - reflexivity.
  - inversion E; subst b. rewrite Ascii.eqb_refl in Hm. discriminate Hm.
  - inversion E; subst a. rewrite Ascii.eqb_refl in Hn. discriminate Hn.
  - inversion E; subst b. apply orb_false_elim in Hn, Hm.
    rewrite (IH m (proj2 Hn) (proj2 Hm) H1). reflexivity.
Qed.

Lemma env_match_other (n m e w : string) :
  strchr n "=" = false -> strchr m "=" = false -> m <> n ->
  env_match n e = Some w -> env_match m e = None.
Proof.
  intros Hn Hm Ne M. destruct (env_match m e) as [u|] eqn:M'; [|reflexivity].
  apply env_match_inv in M, M'. exfalso. apply Ne. symmetry.
  apply (env_entry_name n m w u Hn Hm). rewrite <- M. exact M'.
Qed.

(** A string that reads [n=x=...] also reads [n=...]. *)
Lemma env_match_longer (n x e u : string) :
  env_match (n ++ String "=" x) e = Some u ->
  env_match n e = Some (x ++ String "=" u)%string.
Proof.
  intros M. apply env_match_inv in M. subst e.
  replace (env_entry (n ++ String "=" x) u)
    with (env_entry n (x ++ String "=" u)); [apply env_match_entry|].
  unfold env_entry. clear. induction n as [|a n IH]; [reflexivity|].
  cbn [append]. rewrite IH. reflexivity.
Qed.

Lemma env_lookup_add_same (n v : string) (env : Environ) :
  env_lookup (add_to_environ n v env) n = Some v.
Proof.
  induction env as [|e env IH]; cbn [add_to_environ env_lookup].
  - fold (env_entry n v). rewrite env_match_entry. reflexivity.
  - destruct (env_match n e) as [w|] eqn:M; cbn [env_lookup].
    + fold (env_entry n v). rewrite env_match_entry. reflexivity.
    + rewrite M. exact IH.
Qed.

Lemma env_lookup_add_other (n v m : string) (env : Environ) :
  strchr n "=" = false -> strchr m "=" = false -> m <> n ->
  env_lookup (add_to_environ n v env) m = env_lookup env m.
Proof.
  intros Hn Hm Ne.
  assert (New : env_match m (n ++ String "=" v) = None).
  { apply (env_match_other n m _ v Hn Hm Ne). apply env_match_entry. }
  induction env as [|e env IH]; cbn [add_to_environ env_lookup].
  - rewrite New. reflexivity.
  - destruct (env_match n e) as [w|] eqn:M; cbn [env_lookup].
    + rewrite New, (env_match_other n m e w Hn Hm Ne M). reflexivity.
    + rewrite IH. reflexivity.
Qed.

(** After [setenv(n, "x=w", 1)] the name [n=x] has the value [w]. *)
Lemma env_lookup_add_longer (n x w : string) (env : Environ) :
  env_lookup (add_to_environ n (x ++ String "=" w) env) (n ++ String "=" x)
  = Some w.
Proof.
  assert (New : env_match (n ++ String "=" x) (n ++ String "=" (x ++ String "=" w))
                = Some w).
  { replace (n ++ String "=" (x ++ String "=" w))%string
      with (env_entry (n ++ String "=" x) w); [apply env_match_entry|].
    unfold env_entry. clear. induction n as [|a n IH]; [reflexivity|].
    cbn [append]. rewrite IH. reflexivity. }
  induction env as [|e env IH]; cbn [add_to_environ env_lookup].
  - rewrite New. reflexivity.
  - destruct (env_match n e) as [u|] eqn:M; cbn [env_lookup].
    + rewrite New. reflexivity.
    + destruct (env_match (n ++ String "=" x) e) as [u|] eqn:M'; [|exact IH].
      rewrite (env_match_longer n x e u M') in M. discriminate M.
Qed.

Lemma env_lookup_remove_same (n : string) (env : Environ) :
  env_lookup (filter (fun e => match env_match n e with
                               | Some _ => false
                               | None => true
                               end) env) n = None.
Proof.
  induction env as [|e env IH]; [reflexivity|].
  cbn [filter]. destruct (env_match n e) as [w|] eqn:M; [exact IH|].
  cbn [env_lookup]. rewrite M. exact IH.
Qed.

Lemma env_lookup_remove_other (n m : string) (env : Environ) :
  strchr n "=" = false -> strchr m "=" = false -> m <> n ->
  env_lookup (filter (fun e => match env_match n e with
                               | Some _ => false
                               | None => true
                               end) env) m
  = env_lookup env m.
Proof.
  intros Hn Hm Ne. induction env as [|e env IH]; [reflexivity|].
  cbn [filter env_lookup]. destruct (env_match n e) as [w|] eqn:M.
  - rewrite (env_match_other n m e w Hn Hm Ne M). exact IH.
  - cbn [env_lookup]. rewrite IH. reflexivity.
Qed.

Lemma getenv_setenv_same (n v : string) (env env' : Environ) :
  setenv n v env = Some env' -> getenv env' n = Some v.
Proof.
  unfold setenv. destruct (env_name_ok n) eqn:Ok; [|discriminate].
  intros E. inversion E. destruct (env_name_ok_inv n Ok) as [NE _].
  unfold getenv. rewrite (proj2 (String.eqb_neq n "") NE).
  apply env_lookup_add_same.
Qed.

Lemma getenv_setenv_other (n v m : string) (env env' : Environ) :
  setenv n v env = Some env' -> strchr m "=" = false -> m <> n ->
  getenv env' m = getenv env m.
Proof.
  unfold setenv. destruct (env_name_ok n) eqn:Ok; [|discriminate].
  intros E Hm Ne. inversion E. destruct (env_name_ok_inv n Ok) as [_ Hn].
  unfold getenv. destruct (m =? "")%string; [reflexivity|].
  apply env_lookup_add_other; assumption.
Qed.

Lemma getenv_unsetenv_same (n : string) (env env' : Environ) :
  unsetenv n env = Some env' -> getenv env' n = None.
Proof.
  unfold unsetenv. destruct (env_name_ok n); [|discriminate].
  intros E. inversion E. unfold getenv.
  destruct (n =? "")%string; [reflexivity|]. apply env_lookup_remove_same.
Qed.

Lemma getenv_unsetenv_other (n m : string) (env env' : Environ) :
  unsetenv n env = Some env' -> strchr m "=" = false -> m <> n ->
  getenv env' m = getenv env m.
Proof.
  unfold unsetenv. destruct (env_name_ok n) eqn:Ok; [|discriminate].
  intros E Hm Ne. inversion E. destruct (env_name_ok_inv n Ok) as [_ Hn].
  unfold getenv. destruct (m =? "")%string; [reflexivity|].
  apply env_lookup_remove_other; assumption.
Qed.

(** The token [$m] resolved against an environment and a store. *)
Lemma substitute_marker (env : Environ) (vars : list LocalVar) (m : string) :
  substitute_variable env vars (marker m)
  = match getenv env m with
    | Some v => v
    | None => match local_value vars m with Some v => v | None => "" end
    end.
Proof.
  unfold marker, substitute_variable, local_value.
  destruct (getenv env m) as [v|]; [apply empty_or_self|].
  destruct (find_local vars m); [apply empty_or_self | reflexivity].
Qed.

(** X13: for a name that is not empty and holds no equals sign,
    [cmd_export] with a value that is not empty makes [$n] resolve to that
    value whatever the variable store holds for [n]; with a NULL or empty
    value it removes [n] from the environment, so that [$n] resolves to the
    value in the store, or to the empty string.  In both cases the
    resolution of every other name without equals sign, the store, the
    ring, the working directory and the trace are as before.  A name with
    an equals sign is looked up as it stands: after the export of [n] with
    the value [x=w] the token [$n=x] resolves to [w].  For a name that is
    empty or holds an equals sign [setenv] and [unsetenv] fail: the
    failure is reported with [perror] and nothing else changes. *)
Theorem export_decides_the_resolution (n : string) (v : option string) (s : Shell) :
  (env_name_ok n = true ->
   exists env',
     cmd_export (Some n) v s = Continue (set_environ env' s)
     /\ (forall m, m <> n -> strchr m "=" = false ->
                   substitute_variable env' (localVars s) (marker m)
                   = substitute_variable (environ s) (localVars s) (marker m))
     /\ (forall val, v = Some val -> val <> "" ->
                     substitute_variable env' (localVars s) (marker n) = val)
     /\ (v = None \/ v = Some "" ->
         substitute_variable env' (localVars s) (marker n)
         = match local_value (localVars s) n with Some w => w | None => "" end)
     /\ (forall x w, v = Some (x ++ String "=" w)%string ->
                     substitute_variable env' (localVars s)
                                         (marker (n ++ String "=" x))
                     = w))
  /\ (env_name_ok n = false ->
      cmd_export (Some n) v s
      = Continue (emit [Perror (if is_null v || str_is v ""
                                then "unsetenv failed"
                                else "setenv failed")] s)).
Proof.
  split.
  - intros Ok. unfold cmd_export.
    destruct (is_null v || str_is v "") eqn:V.
    + destruct (unsetenv n (environ s)) as [env'|] eqn:U.
      2:{ unfold unsetenv in U. rewrite Ok in U. discriminate U. }
      exists env'. split; [reflexivity|]. split; [|split; [|split]].
      * intros m Hm Eq.
        rewrite !substitute_marker, (getenv_unsetenv_other n m _ _ U Eq Hm).
        reflexivity.
      * intros val E NE. subst v. cbn [is_null str_is orb] in V.
        apply String.eqb_eq in V. contradiction.
      * intros _. rewrite substitute_marker, (getenv_unsetenv_same n _ _ U).
        reflexivity.
      * intros x w E. subst v. cbn [is_null str_is orb] in V.
        apply String.eqb_eq in V. destruct x; discriminate V.
    + destruct v as [val|]; [|discriminate V].
      destruct (setenv n val (environ s)) as [env'|] eqn:U.
      2:{ unfold setenv in U. rewrite Ok in U. discriminate U. }
      exists env'. split; [reflexivity|]. split; [|split; [|split]].
      * intros m Hm Eq.
        rewrite !substitute_marker, (getenv_setenv_other n val m _ _ U Eq Hm).
        reflexivity.
      * intros val' E _. inversion E; subst val'.
        rewrite substitute_marker, (getenv_setenv_same n val _ _ U). reflexivity.
      * intros [E|E]; [discriminate E|]. inversion E; subst val. discriminate V.
      * intros x w E. inversion E; subst val.
        unfold setenv in U. rewrite Ok in U. inversion U.
        rewrite substitute_marker. unfold getenv.
        replace ((n ++ String "=" x) =? "")%string with false
          by (destruct n; reflexivity).
        rewrite env_lookup_add_longer. reflexivity.
  - intros Bad. unfold cmd_export, setenv, unsetenv. rewrite Bad.
    destruct (is_null v || str_is v "") eqn:V; [reflexivity|].
    destruct v as [val|]; [reflexivity | discriminate V].
Qed.

Lemma export_decides_the_resolution_witness :
  (exists env',
      cmd_export (Some "FOO") (Some "a=b") sample_shell
      = Continue (set_environ env' sample_shell)
      /\ substitute_variable env' (localVars sample_shell) "$FOO" = "a=b"
      /\ substitute_variable env' (localVars sample_shell) "$HOME" = "/root"
      /\ substitute_variable env' (localVars sample_shell) "$FOO=a" = "b")
  /\ cmd_export (Some "") (Some "x") sample_shell
     = Continue (emit [Perror "setenv failed"] sample_shell).
Proof.
  destruct (export_decides_the_resolution "FOO" (Some "a=b") sample_shell)
    as (Good & _).
  destruct (export_decides_the_resolution "" (Some "x") sample_shell)
    as (_ & Bad).
  split; [|apply Bad; reflexivity].
  destruct (Good eq_refl) as (env' & Run & Others & Bound & _ & Longer).
  exists env'. split; [exact Run|]. split; [|split].
  - apply (Bound "a=b"); [reflexivity | discriminate].
  - change "$HOME" with (marker "HOME").
    rewrite Others; [reflexivity | discriminate | reflexivity].
  - apply (Longer "a" "b"). reflexivity.
Defined.

End Exports.

(** ** How the interpreter ends *)

Section ExitStatus.

Variable os : OS.

Lemma dispatch_external_exit (input : string) (s : Shell) :
  exit_is_accounted_for os (dispatch_external os input s).
Proof.
  unfold dispatch_external.
  destruct (split_pipeline input) as [|c0 [|c1 cs]].
  - exact I.
  - destruct (process_input c0 false) as [argv bg]. unfold execute_command.
    destruct (isValidCommand _) as [valid printed].
    destruct (negb valid); [exact I|].
    destruct (os_fork os (trace s)) eqn:F; [destruct (negb bg); exact I|].
    right. split; [left; reflexivity|].
    exists (trace s), "fork failed". split; [reflexivity|]. left. split; [reflexivity | exact F].
  - assert (N : c0 :: c1 :: cs <> []) by discriminate.
    pose proof (execute_piped_commands_spec os _ false s N) as H.
    destruct (execute_piped_commands os (c0 :: c1 :: cs) false s)
      as [s1 | st s1 | | ]; try exact I.
    destruct H as (Est & evs & m & E & _ & R & _).
    right. split; [right; exact Est|].
    exists (trace s ++ evs), m. split; [|right; exact R].
    subst s1. cbn [emit trace]. apply app_assoc.
Qed.

(** When a line that does not start with a built-in ends the process, the
    executor did. *)
Lemma external_exit_comes_from_dispatch (rec : string -> Shell -> outcome)
    (line : string) (s : Shell) (st : Z) (s' : Shell) :
  builtin_line line = false ->
  parse_and_execute_body os rec line s = Exited st s' ->
  dispatch_external os (strip_newline line) s = Exited st s'.
Proof.
  intros B Run.
  destruct (string_dec line "") as [->|NE]; [discriminate Run|].
  unfold builtin_line in B.
  destruct (first_token (strip_newline line)) as [t|] eqn:FT.
  - rewrite (parse_and_execute_external os rec line t s NE FT B) in Run.
    destruct (dispatch_external os (strip_newline line) s) as [s1 | st1 s1 | | ];
      cbn [bind] in Run; try discriminate Run; [|exact Run].
    destruct (add_to_history _ _); discriminate Run.
  - unfold parse_and_execute_body in Run.
    destruct line as [|c r]; [discriminate Run|].
    unfold first_token in FT. rewrite FT in Run. cbv iota in Run.
    cbn [negb] in Run. unfold dispatch_external, split_pipeline.
    destruct (strtok_loop (MAX_ARGS - 1) "|" (strip_newline (String c r)))
      as [|c0 [|c1 cs]].
    + discriminate Run.
    + destruct (process_input c0 false) as [argv bg].
      destruct (execute_command os argv bg s); cbn [bind] in Run;
        try discriminate Run; exact Run.
    + destruct (execute_piped_commands os (c0 :: c1 :: cs) false s);
        cbn [bind] in Run; try discriminate Run; exact Run.
Qed.

(** When the executor ends the process, the operating system had refused
    a fork or a pipe. *)
Lemma dispatch_external_refusal (input : string) (s : Shell) (st : Z)
    (s' : Shell) :
  dispatch_external os input s = Exited st s' -> ends_by_refusal os st s'.
Proof.
  unfold dispatch_external.
  destruct (split_pipeline input) as [|c0 [|c1 cs]].
  - discriminate.
  - destruct (process_input c0 false) as [argv bg]. unfold execute_command.
    destruct (isValidCommand _) as [valid printed].
    destruct (negb valid); [discriminate|].
    destruct (os_fork os (trace s)) eqn:F; [destruct (negb bg); discriminate|].
    intros E. inversion E. split; [left; reflexivity|].
    exists (trace s), "fork failed". split; [reflexivity|].
    left. split; [reflexivity | exact F].
  - assert (N : c0 :: c1 :: cs <> []) by discriminate.
    pose proof (execute_piped_commands_spec os _ false s N) as H.
    intros E. rewrite E in H.
    destruct H as (Est & evs & m & E1 & _ & R & _).
    split; [right; exact Est|].
    exists (trace s ++ evs), m. split; [|right; exact R].
    subst s'. cbn [emit trace]. apply app_assoc.
Qed.

(** The built-ins end the process in one place: [exit] without argument.
    Any other exit of [built_in_command] is that of a recalled line. *)
Lemma built_in_command_exit (rec : string -> Shell -> outcome)
    (argv : list string) (s : Shell) (st : Z) (s' : Shell) :
  built_in_command os rec argv s = Exited st s' ->
  (st = 0 /\ s' = s /\ argv = ["exit"])
  \/ exists k, execute_history_command rec k s = Exited st s'.
Proof.
  unfold built_in_command.
  destruct argv as [|a0 rest]; [discriminate|].
  change (arg 0 (a0 :: rest)) with (Some a0). cbv iota.
  destruct (String.eqb_spec a0 "exit") as [->|_].
  { unfold cmd_exit. destruct rest as [|a1 rest]; [|discriminate].
    intros E. inversion E. left. repeat split. }
  destruct (a0 =? "cd")%string.
  { unfold cmd_cd. destruct (arg 1 (a0 :: rest)) as [p|]; [|discriminate].
    destruct (os_chdir os (cwd s) p); discriminate. }
  destruct (a0 =? "history")%string.
  { unfold cmd_history_control.
    destruct (arg 1 (a0 :: rest)) as [a1|]; [|discriminate].
    destruct (arg 2 (a0 :: rest)) as [a2|];
      [|intros E; right; exists (atoi a1); exact E].
    destruct (a1 =? "set")%string;
      [|intros E; right; exists (atoi a1); exact E].
    destruct (set_history_size os (trace s) (atoi a2) (sh_history s)).
    discriminate. }
  destruct ((a0 =? "export")%string && negb (is_null (arg 1 (a0 :: rest)))).
  { destruct (arg 1 (a0 :: rest)) as [a1|]; [|discriminate].
    destruct (split_assignment a1) as [n v]. unfold cmd_export.
    destruct n as [nm|]; [|discriminate].
    destruct (is_null v || str_is v "");
      [destruct (unsetenv nm (environ s)); discriminate|].
    destruct v as [val|]; [|discriminate].
    destruct (setenv nm val (environ s)); discriminate. }
  destruct ((a0 =? "local")%string && negb (is_null (arg 1 (a0 :: rest)))).
  { destruct (arg 1 (a0 :: rest)) as [a1|]; [|discriminate].
    destruct (split_assignment a1) as [n v]. unfold cmd_local.
    destruct (is_null v || str_is v "").
    - destruct n as [nm|].
      + destruct (find_local (localVars s) nm); discriminate.
      + destruct (localVars s); discriminate.
    - destruct n as [nm|]; [|discriminate]. destruct v as [val|]; [|discriminate].
      destruct (find_local (localVars s) nm); [discriminate|].
      destruct (localVarCount s <? MAX_LOCAL_VARS)%nat; discriminate. }
  destruct (a0 =? "vars")%string; [unfold cmd_vars|]; discriminate.
Qed.

(** On a ring of recorded lines a recall ends the process only through a
    refused fork or pipe. *)
Lemma recall_exit_is_refusal (n : nat) (k : Z) (s : Shell) (st : Z) (s' : Shell) :
  forallb recallable (history (sh_history s)) = true ->
  execute_history_command (parse_and_execute os n) k s = Exited st s' ->
  ends_by_refusal os st s'.
Proof.
  intros Rec Run. unfold execute_history_command in Run.
  destruct ((k <? 1) || (k >? current_history_count (sh_history s))) eqn:Out;
    [discriminate Run|].
  apply orb_false_elim in Out. destruct Out as [O1 O2].
  apply Z.ltb_ge in O1. rewrite Z.gtb_ltb in O2. apply Z.ltb_ge in O2.
  assert (R : 1 <= k <= current_history_count (sh_history s)) by lia.
  assert (Rk : recallable (history_at (sh_history s)
                             (current_history_count (sh_history s) - k)) = true).
  { rewrite forallb_forall in Rec. apply Rec. apply history_at_in. exact R. }
  set (e := history_at (sh_history s) (current_history_count (sh_history s) - k)) in *.
  set (s0 := set_history (with_enabled false (sh_history s)) s) in *.
  destruct (parse_and_execute os n e s0) as [s1 | st1 s1 | | ] eqn:P;
    cbn [bind] in Run; try discriminate Run.
  inversion Run; subst st1 s1.
  destruct n as [|m]; [discriminate P|].
  rewrite parse_and_execute_step in P.
  destruct (recallable_inv e Rk) as (NE & (t & FT & BI) & SP).
  assert (B : builtin_line e = false).
  { unfold builtin_line. rewrite FT. exact BI. }
  apply (external_exit_comes_from_dispatch _ e s0 st s' B) in P.
  exact (dispatch_external_refusal _ _ _ _ P).
Qed.

(** X14: whatever the line, the state and the depth of recalls, the
    interpreter ends the process in two ways only: with status 0, through
    the [exit] built-in, or with status -1 or [EXIT_FAILURE] right after
    reporting with [perror] a fork or a pipe the operating system refused.
    On a ring of recorded lines the cause is known from the line: an exit
    with status 0 is that of a line whose argument vector is [exit] alone,
    and leaves the state as it was; any other exit follows a refusal.
    With an operating system that grants every fork and pipe, no line but
    such an [exit] ends the interpreter.  A line whose first token is
    [exit] and which has no further token always ends it with status 0. *)
Theorem exits_are_accounted_for (fuel : nat) :
  forall (line : string) (s : Shell),
    exit_is_accounted_for os (parse_and_execute os fuel line s)
    /\ ((forall tr, os_fork os tr <> None) ->
        (forall tr, os_pipe os tr = true) ->
        forall st s', parse_and_execute os fuel line s = Exited st s' -> st = 0)
    /\ (forallb recallable (history (sh_history s)) = true ->
        forall st s',
          parse_and_execute os fuel line s = Exited st s' ->
          (st = 0 /\ s' = s /\ exit_requested line)
          \/ ends_by_refusal os st s')
    /\ (forallb recallable (history (sh_history s)) = true ->
        (forall tr, os_fork os tr <> None) ->
        (forall tr, os_pipe os tr = true) ->
        forall st s',
          parse_and_execute os fuel line s = Exited st s' ->
          st = 0 /\ s' = s /\ exit_requested line)
    /\ (first_token (strip_newline line) = Some "exit" ->
        fst (process_input (strip_newline line) false) = ["exit"] ->
        parse_and_execute os (S fuel) line s = Exited 0 s).
Proof.
  assert (Main : forall fuel line s,
             exit_is_accounted_for os (parse_and_execute os fuel line s)).
  { clear fuel. induction fuel as [|n IH]; intros line s; [exact I|].
    rewrite parse_and_execute_step.
    destruct (builtin_line line) eqn:B.
    - unfold builtin_line in B.
      destruct (first_token (strip_newline line)) as [t|] eqn:FT; [|discriminate B].
      assert (NE : line <> "").
      { intros E. subst line. vm_compute in FT. discriminate FT. }
      rewrite (parse_and_execute_builtin os _ line t s NE FT B).
      destruct (negb (t =? "history")%string || _); [|exact I].
      apply built_in_command_cases; try exact I; try (intros; exact I).
      + left. reflexivity.
      + intros k. unfold execute_history_command.
        destruct ((k <? 1) || (k >? current_history_count (sh_history s)));
          [exact I|].
        specialize (IH (history_at (sh_history s)
                                   (current_history_count (sh_history s) - k))
                       (set_history (with_enabled false (sh_history s)) s)).
        destruct (parse_and_execute os n _ _); cbn [bind]; try exact I; exact IH.
    - destruct (parse_and_execute_body os (parse_and_execute os n) line s)
        as [s1 | st s1 | | ] eqn:Run; try exact I.
      pose proof (external_exit_comes_from_dispatch _ line s st s1 B Run) as D.
      pose proof (dispatch_external_exit (strip_newline line) s) as H.
      rewrite D in H. exact H. }
  assert (Cause : forall line s,
             forallb recallable (history (sh_history s)) = true ->
             forall st s',
               parse_and_execute os fuel line s = Exited st s' ->
               (st = 0 /\ s' = s /\ exit_requested line)
               \/ ends_by_refusal os st s').
  { intros line s Rec st s' Run.
    destruct fuel as [|n]; [discriminate Run|].
    rewrite parse_and_execute_step in Run.
    destruct (builtin_line line) eqn:B.
    - pose proof B as B0. unfold builtin_line in B.
      destruct (first_token (strip_newline line)) as [t|] eqn:FT; [|discriminate B].
      assert (NE : line <> "").
      { intros E. subst line. vm_compute in FT. discriminate FT. }
      rewrite (parse_and_execute_builtin os _ line t s NE FT B) in Run.
      destruct (negb (t =? "history")%string || _); [|discriminate Run].
      apply built_in_command_exit in Run.
      destruct Run as [(Z0 & Same & Argv) | [k Recall]].
      + left. repeat split; assumption.
      + right. exact (recall_exit_is_refusal n k s st s' Rec Recall).
    - right.
      apply (external_exit_comes_from_dispatch _ line s st s' B) in Run.
      exact (dispatch_external_refusal _ _ _ _ Run). }
  intros line s. split; [apply Main|]. split; [|split; [|split]].
  - intros Forks Pipes st s' Run.
    pose proof (Main fuel line s) as H. rewrite Run in H.
    destruct H as [Z0 | (_ & pre & m & _ & [[_ F] | [[_ P] | [_ F]]])].
    + exact Z0.
    + exfalso. exact (Forks pre F).
    + rewrite Pipes in P. discriminate P.
    + exfalso. exact (Forks pre F).
  - apply Cause.
  - intros Rec Forks Pipes st s' Run.
    destruct (Cause line s Rec st s' Run)
      as [Exit | (_ & pre & m & _ & [[_ F] | [[_ P] | [_ F]]])].
    + exact Exit.
    + exfalso. exact (Forks pre F).
    + rewrite Pipes in P. discriminate P.
    + exfalso. exact (Forks pre F).
  - intros FT Argv. rewrite parse_and_execute_step.
    assert (NE : line <> "").
    { intros E. subst line. vm_compute in FT. discriminate FT. }
    rewrite (parse_and_execute_builtin os _ line "exit" s NE FT eq_refl).
    rewrite Argv. reflexivity.
Qed.

End ExitStatus.

Lemma exits_are_accounted_for_witness :
  exit_is_accounted_for exhausted_os
    (parse_and_execute exhausted_os 1 "ls | wc" sample_shell)
  /\ parse_and_execute friendly_os 1 "exit" sample_shell = Exited 0 sample_shell
  /\ exit_requested "exit"
  /\ ends_by_refusal exhausted_os EXIT_FAILURE
       (emit [PipeCreated 0; Perror "fork"] sample_shell).
Proof.
  destruct (exits_are_accounted_for exhausted_os 1 "ls | wc" sample_shell)
    as (Accounted & _ & Cause & _).
  destruct (exits_are_accounted_for friendly_os 0 "exit" sample_shell)
    as (_ & _ & _ & _ & Exit).
  destruct (exits_are_accounted_for friendly_os 1 "exit" sample_shell)
    as (_ & Zero & _ & Only & _).
  assert (Run : parse_and_execute friendly_os 1 "exit" sample_shell
                = Exited 0 sample_shell)
    by (apply Exit; reflexivity).
  split; [exact Accounted|]. split; [exact Run|]. split.
  - destruct (Only eq_refl (fun tr => ltac:(discriminate)) (fun tr => eq_refl)
                   0 sample_shell Run) as (_ & _ & Req).
    exact Req.
  - destruct (Cause eq_refl EXIT_FAILURE
                    (emit [PipeCreated 0; Perror "fork"] sample_shell))
      as [(Z0 & _) | Refusal].
    + vm_compute. reflexivity.
    + discriminate Z0.
    + exact Refusal.
Defined.

(** ** Blank lines and the dispatch loop *)

Section BlankLines.

Variable os : OS.

Lemma strspn_all_skip (d s : string) :
  strspn_all d s = true -> skip_delims d s = "".
Proof.
  induction s as [|c s IH]; [reflexivity|].
  cbn [strspn_all skip_delims]. intros H. apply andb_prop in H.
  destruct H as [D R]. rewrite D. exact (IH R).
Qed.

Lemma strspn_all_strtok (d s : string) :
  strspn_all d s = true -> strtok d s = None.
Proof. intros H. unfold strtok. rewrite (strspn_all_skip d s H). reflexivity. Qed.

Lemma strspn_all_strip (d s : string) :
  strspn_all d s = true -> strspn_all d (strip_newline s) = true.
Proof.
  induction s as [|c s IH]; [reflexivity|].
  cbn [strspn_all]. intros H. apply andb_prop in H. destruct H as [D R].
  cbn [strip_newline]. destruct s as [|c' s'].
  - destruct (Ascii.eqb c LF); [reflexivity|]. cbn [strspn_all]. rewrite D. reflexivity.
  - cbn [strspn_all] in *. rewrite D. exact (IH R).
Qed.

Lemma strspn_all_strncpy (d : string) (k : nat) :
  forall s, strspn_all d s = true -> strspn_all d (strncpy k s) = true.
Proof.
  unfold strncpy. induction k as [|k IH]; intros s H.
  - destruct s; reflexivity.
  - destruct s as [|c s]; [reflexivity|].
    cbn [strspn_all] in H. apply andb_prop in H. destruct H as [D R].
    cbn [substring strspn_all]. rewrite D. exact (IH s R).
Qed.

Lemma strspn_all_weaken (d d' s : string) :
  (forall c, is_delim d c = true -> is_delim d' c = true) ->
  strspn_all d s = true -> strspn_all d' s = true.
Proof.
  intros Sub. induction s as [|c s IH]; [reflexivity|].
  cbn [strspn_all]. intros H. apply andb_prop in H. destruct H as [D R].
  rewrite (Sub c D). exact (IH R).
Qed.

Lemma blank_has_no_first_token (line : string) :
  strspn_all (String " " (String TAB (String LF ""))) line = true ->
  first_token (strip_newline line) = None.
Proof.
  intros H. unfold first_token.
  rewrite strspn_all_strtok; [reflexivity|].
  apply strspn_all_strncpy. apply strspn_all_strip. exact H.
Qed.

Lemma blank_has_no_pipe (s : string) :
  strspn_all (String " " (String TAB (String LF ""))) s = true ->
  no_delim "|" s = true.
Proof.
  induction s as [|c s IH]; [reflexivity|].
  cbn [strspn_all no_delim]. intros H. apply andb_prop in H. destruct H as [D R].
  rewrite (IH R), andb_true_r. apply negb_true_iff.
  cbn [is_delim] in D |- *. rewrite orb_false_r in *.
  destruct (Ascii.eqb_spec c "|") as [E|_]; [|reflexivity].
  subst c. discriminate D.
Qed.

Lemma blank_is_one_segment (s : string) :
  strspn_all (String " " (String TAB (String LF ""))) s = true ->
  split_pipeline s = match s with "" => [] | _ => [s] end.
Proof.
  intros H. unfold split_pipeline. destruct s as [|c r]; [reflexivity|].
  change (MAX_ARGS - 1)%nat with (S 126). cbn [strtok_loop].
  rewrite strtok_whole.
  - reflexivity.
  - unfold clean_token. rewrite (blank_has_no_pipe _ H). reflexivity.
Qed.

(** X15: a line made of spaces, tabs and newlines only, the empty line
    included, never returns: the interpreter runs into undefined behaviour
    (it hands a NULL first token to [strcmp], or sizes an array with a
    negative number), unless a refused fork ends the process with status
    -1 first.  When the line has no tab it is undefined behaviour whatever
    the operating system answers. *)
Theorem blank_line_is_undefined (fuel : nat) (line : string) (s : Shell) :
  (strspn_all (String " " (String TAB (String LF ""))) line = true ->
   match parse_and_execute os (S fuel) line s with
   | Continue _ | OutOfFuel => False
   | Exited st _ => st = -1
   | Undefined => True
   end)
  /\ (strspn_all (" " ++ nl) line = true ->
      parse_and_execute os (S fuel) line s = Undefined).
Proof.
  split.
  - intros H. rewrite parse_and_execute_step.
    pose proof (blank_has_no_first_token line H) as FT.
    pose proof (parse_and_execute_no_token os (parse_and_execute os fuel) line s FT) as N.
    destruct (parse_and_execute_body os (parse_and_execute os fuel) line s)
      as [s1 | st s1 | | ] eqn:Run; try exact N; try exact I.
    assert (B : builtin_line line = false).
    { unfold builtin_line. rewrite FT. reflexivity. }
    pose proof (external_exit_comes_from_dispatch os _ line s st s1 B Run) as D.
    unfold dispatch_external in D.
    rewrite (blank_is_one_segment _ (strspn_all_strip _ _ H)) in D.
    destruct (strip_newline line) as [|c r]; [discriminate D|].
    destruct (process_input (String c r) false) as [argv bg].
    unfold execute_command in D.
    destruct (isValidCommand _) as [valid printed].
    destruct (negb valid); [discriminate D|].
    destruct (os_fork os (trace s)); [destruct (negb bg); discriminate D|].
    inversion D. reflexivity.
  - intros H.
    assert (H3 : strspn_all (String " " (String TAB (String LF ""))) line = true).
    { apply (strspn_all_weaken (" " ++ nl)); [|exact H].
      intros c. cbn [append is_delim nl].
      destruct (Ascii.eqb c " "), (Ascii.eqb c LF), (Ascii.eqb c TAB);
        cbn [orb]; intros Hc; (reflexivity || discriminate Hc). }
    pose proof (blank_has_no_first_token line H3) as FT.
    rewrite parse_and_execute_step. unfold parse_and_execute_body.
    destruct line as [|c r]; [reflexivity|].
    unfold first_token in FT. rewrite FT. cbv iota. cbn [negb].
    fold (split_pipeline (strip_newline (String c r))).
    rewrite (blank_is_one_segment _ (strspn_all_strip _ _ H3)).
    pose proof (strspn_all_strip _ _ H) as Hs.
    destruct (strip_newline (String c r)) as [|c' r'] eqn:St; [reflexivity|].
    assert (PI : process_input (String c' r') false = ([], false)).
    { unfold process_input. change (MAX_ARGS - 1)%nat with (S 126).
      cbn [strtok_loop]. rewrite (strspn_all_strtok _ _ Hs). reflexivity. }
    rewrite PI. reflexivity.
Qed.

End BlankLines.

Lemma blank_line_is_undefined_witness :
  parse_and_execute friendly_os 1 "   " sample_shell = Undefined
  /\ match parse_and_execute exhausted_os 1 (String TAB "") sample_shell with
     | Exited st _ => st = -1
     | Undefined => True
     | _ => False
     end.
Proof.
  split.
  - apply (blank_line_is_undefined friendly_os O "   " sample_shell). reflexivity.
  - apply (blank_line_is_undefined exhausted_os O (String TAB "") sample_shell).
    reflexivity.
Defined.

(** ** The dispatch loop of [main] *)

Section DispatchLoop.

Variable os : OS.

Lemma run_lines_stuck (fuel : nat) (lines : list string) (r : outcome) :
  (forall s, r <> Continue s) ->
  fold_left (fun r line => bind r (parse_and_execute os fuel line)) lines r = r.
Proof.
  intros NC. induction lines as [|l ls IH]; [reflexivity|].
  cbn [fold_left]. destruct r as [s| | | ]; cbn [bind]; try exact IH.
  exfalso. exact (NC s eq_refl).
Qed.

Lemma run_lines_cons (fuel : nat) (line : string) (lines : list string) (s : Shell) :
  run_lines os fuel (line :: lines) s
  = bind (parse_and_execute os fuel line s) (run_lines os fuel lines).
Proof.
  unfold run_lines. cbn [fold_left bind].
  destruct (parse_and_execute os fuel line s) as [s1| | | ]; cbn [bind];
    try reflexivity; apply run_lines_stuck; discriminate.
Qed.

Lemma bind_bind {A B C : Type} (r : result A) (k : A -> result B)
    (k' : B -> result C) :
  bind (bind r k) k' = bind r (fun a => bind (k a) k').
Proof. destruct r; reflexivity. Qed.

(** The batch loop on lines that all come from successful reads. *)
Lemma batch_loop_app (fuel : nat) (lines : list string) (rest : list (option string)) :
  Forall (fun l => l <> "") lines ->
  forall s,
    batch_loop os fuel (map Some lines ++ rest) s
    = bind (run_lines os fuel (map strip_newline lines) s)
           (batch_loop os fuel rest).
Proof.
  induction 1 as [|l ls NE _ IH]; intros s; [reflexivity|].
  cbn [map app batch_loop]. destruct l as [|c r]; [congruence|].
  rewrite run_lines_cons, bind_bind.
  destruct (parse_and_execute os fuel (strip_newline (String c r)) s);
    cbn [bind]; try reflexivity. apply IH.
Qed.

(** X16: started with a batch file, [main] runs what [fgets] returns, one
    line after the other in the order of the reads, each without its
    newline and in the state the line before left, from the state in
    which the ring is empty with capacity [MAX_HISTORY] and no variable is
    set, and without a prompt; it stops at the first line that does not
    return, and otherwise exits with [EXIT_SUCCESS] at the first read that
    gives NULL, whatever later reads would give.  A line that is a newline
    alone is not skipped: when it is reached the behaviour is undefined.
    With more than one argument [main] prints the usage and exits with
    [EXIT_FAILURE] without running anything, and a batch file that cannot
    be opened gives status -1. *)
Theorem batch_mode_runs_what_it_reads (fuel : nat) (inv : Invocation) :
  malloc_ok inv = true ->
  (argc inv = 2%nat -> fopen_ok inv = true ->
   (forall lines,
       reads inv = map Some lines -> Forall (fun l => l <> "") lines ->
       main os fuel inv
       = bind (run_lines os fuel (map strip_newline lines)
                         (initial_shell (inherited_environ inv)))
              (fun s' => Exited EXIT_SUCCESS s'))
   /\ (forall lines later,
          reads inv = map Some lines ++ None :: later ->
          Forall (fun l => l <> "") lines ->
          main os fuel inv
          = bind (run_lines os fuel (map strip_newline lines)
                            (initial_shell (inherited_environ inv)))
                 (fun s' => Exited EXIT_SUCCESS s'))
   /\ (forall before after s1,
          reads inv = map Some before ++ Some nl :: after ->
          Forall (fun l => l <> "") before ->
          run_lines os (S fuel) (map strip_newline before)
                    (initial_shell (inherited_environ inv)) = Continue s1 ->
          main os (S fuel) inv = Undefined))
  /\ (argc inv = 2%nat -> fopen_ok inv = false ->
      main os fuel inv
      = Exited (-1) (emit [Perror "Error opening batch file"]
                          (initial_shell (inherited_environ inv))))
  /\ ((2 < argc inv)%nat ->
      main os fuel inv
      = Exited EXIT_FAILURE
               (emit [Stderr ("Usage: " ++ argv0 inv ++ " [batch file]" ++ nl)%string]
                     (initial_shell (inherited_environ inv)))).
Proof.
  intros M. unfold main. rewrite M. cbn [negb].
  split; [|split].
  - intros A F. rewrite A, F. cbn [Nat.eqb negb]. split; [|split].
    + intros lines R NE. rewrite R.
      rewrite <- (app_nil_r (map Some lines)).
      rewrite (batch_loop_app fuel lines [] NE). reflexivity.
    + intros lines later R NE. rewrite R.
      rewrite (batch_loop_app fuel lines (None :: later) NE). reflexivity.
    + intros before after s1 R NE Run. rewrite R.
      rewrite (batch_loop_app (S fuel) before (Some nl :: after) NE).
      rewrite Run. reflexivity.
  - intros A F. rewrite A, F. reflexivity.
  - intros A. destruct (argc inv =? 2)%nat eqn:E.
    + apply Nat.eqb_eq in E. lia.
    + replace (2 <? argc inv)%nat with true by (symmetry; apply Nat.ltb_lt; exact A).
      reflexivity.
Qed.

Lemma interactive_noise (fuel : nat) (noise rest : list (option string)) :
  Forall (fun r => r = None \/ r = Some nl) noise ->
  forall s,
    exists evs,
      interactive_loop os fuel (noise ++ rest) s
      = interactive_loop os fuel rest (emit evs s)
      /\ Forall (fun e => e = Stdout "wsh> " \/ e = Perror "fgets error") evs.
Proof.
  induction 1 as [|r noise Hr _ IH]; intros s.
  - exists []. rewrite emit_nil. split; [reflexivity | constructor].
  - destruct Hr as [-> | ->]; cbn [app interactive_loop].
    + destruct (IH (emit [Stdout "wsh> "; Perror "fgets error"] s)) as (evs & E & F).
      eexists. rewrite E, emit_emit. split; [reflexivity|].
      apply Forall_app. split; [|exact F].
      constructor; [left; reflexivity|].
      constructor; [right; reflexivity | constructor].
    + rewrite String.eqb_refl.
      destruct (IH (emit [Stdout "wsh> "] s)) as (evs & E & F).
      eexists. rewrite E, emit_emit. split; [reflexivity|].
      apply Forall_app. split; [|exact F].
      constructor; [left; reflexivity | constructor].
Qed.

(** X17: in interactive mode a line that is a newline alone and a read
    that fails without reaching the end of the input are passed over: they
    add a prompt (and the report of the failed read) to the output and
    change nothing else, and the loop goes on with the next read.  A
    session made of nothing else ends with status 0 at the end of the
    input, with the interpreter state as [main] set it up. *)
Theorem interactive_mode_skips_empty_lines (fuel : nat) (inv : Invocation)
    (noise rest : list (option string)) :
  malloc_ok inv = true ->
  (argc inv < 2)%nat ->
  reads inv = noise ++ rest ->
  Forall (fun r => r = None \/ r = Some nl) noise ->
  exists evs,
    Forall (fun e => e = Stdout "wsh> " \/ e = Perror "fgets error") evs
    /\ main os fuel inv
       = interactive_loop os fuel rest
           (emit evs (initial_shell (inherited_environ inv)))
    /\ (rest = [] ->
        main os fuel inv
        = Exited 0 (emit (evs ++ [Stdout "wsh> "])
                         (initial_shell (inherited_environ inv)))).
Proof.
  intros M A R N. unfold main. rewrite M. cbn [negb].
  replace (argc inv =? 2)%nat with false by (symmetry; apply Nat.eqb_neq; lia).
  replace (2 <? argc inv)%nat with false by (symmetry; apply Nat.ltb_ge; lia).
  rewrite R.
  destruct (interactive_noise fuel noise rest N
              (initial_shell (inherited_environ inv))) as (evs & E & F).
  exists evs. split; [exact F|]. split; [exact E|].
  intros ->. rewrite E. cbn [interactive_loop]. rewrite emit_emit. reflexivity.
Qed.

End DispatchLoop.

Lemma batch_mode_witness :
  main friendly_os 1
       (mkInvocation 2 "wsh" true true [] [Some ("pwd" ++ nl)%string; Some nl])
  = Undefined
  /\ main friendly_os 1
          (mkInvocation 2 "wsh" true true []
                        [Some ("pwd" ++ nl)%string; None; Some ("ls" ++ nl)%string])
     = Exited EXIT_SUCCESS
              {| sh_history := mkHistory ["pwd"] MAX_HISTORY true;
                 localVars := []; environ := []; cwd := [];
                 trace := [Fork 100 (mkChild None None [] ["pwd"]);
                           WaitPid 100] |}
  /\ main friendly_os 1 (mkInvocation 2 "wsh" true false [] [])
     = Exited (-1) (emit [Perror "Error opening batch file"] (initial_shell []))
  /\ main friendly_os 1 (mkInvocation 3 "wsh" true true [] [])
     = Exited EXIT_FAILURE
              (emit [Stderr ("Usage: wsh [batch file]" ++ nl)%string]
                    (initial_shell [])).
Proof.
  split; [|split; [|split]].
  - destruct (batch_mode_runs_what_it_reads friendly_os O
                (mkInvocation 2 "wsh" true true []
                              [Some ("pwd" ++ nl)%string; Some nl])
                eq_refl) as (Batch & _ & _).
    destruct (Batch eq_refl eq_refl) as (_ & _ & Empty).
    eapply (Empty [("pwd" ++ nl)%string] []).
    + reflexivity.
    + repeat constructor. discriminate.
    + vm_compute. reflexivity.
  - destruct (batch_mode_runs_what_it_reads friendly_os 1
                (mkInvocation 2 "wsh" true true []
                              [Some ("pwd" ++ nl)%string; None;
                               Some ("ls" ++ nl)%string])
                eq_refl) as (Batch & _ & _).
    destruct (Batch eq_refl eq_refl) as (_ & Stop & _).
    rewrite (Stop [("pwd" ++ nl)%string] [Some ("ls" ++ nl)%string]).
    + vm_compute. reflexivity.
    + reflexivity.
    + repeat constructor. discriminate.
  - destruct (batch_mode_runs_what_it_reads friendly_os 1
                (mkInvocation 2 "wsh" true false [] []) eq_refl)
      as (_ & Closed & _).
    apply Closed; reflexivity.
  - destruct (batch_mode_runs_what_it_reads friendly_os 1
                (mkInvocation 3 "wsh" true true [] []) eq_refl)
      as (_ & _ & Usage).
    apply Usage. simpl. lia.
Defined.

Lemma interactive_mode_witness :
  exists evs,
    main friendly_os 1 (mkInvocation 1 "wsh" true true [] [Some nl; None; Some nl])
    = Exited 0 (emit (evs ++ [Stdout "wsh> "]) (initial_shell [])).
Proof.
  destruct (interactive_mode_skips_empty_lines friendly_os 1
              (mkInvocation 1 "wsh" true true [] [Some nl; None; Some nl])
              [Some nl; None; Some nl] [] eq_refl)
    as (evs & _ & _ & End).
  - simpl. lia.
  - reflexivity.
  - constructor; [right; reflexivity|].
    constructor; [left; reflexivity|].
    constructor; [right; reflexivity | constructor].
  - exists evs. apply End. reflexivity.
Defined.

(** ** Order of the store, and the unused setter *)

Section StoreOrder.

Lemma filter_out_fresh (n : string) (l : list string) :
  ~ In n l -> filter (fun m => negb (m =? n)%string) l = l.
Proof.
  induction l as [|x l IH]; [reflexivity|].
  cbn [In filter]. intros H.
  destruct (String.eqb_spec x n) as [E|_]; [exfalso; apply H; left; exact E|].
  cbn [negb]. rewrite IH; [reflexivity|]. intros I. apply H. right. exact I.
Qed.

(** X18: the store keeps the order in which the names were first set,
    which is the order [cmd_vars] prints them in, one [name=value] line
    each: giving a new value to a bound name leaves the sequence of names
    as it is, a new name goes to the end, and removing a name takes it out
    of the sequence without moving the others. *)
Theorem store_keeps_insertion_order (n : string) (s : Shell) :
  (forall v found,
      v <> "" -> find_local (localVars s) n = Some found ->
      exists vars',
        cmd_local (Some n) (Some v) s = Continue (set_localVars vars' s)
        /\ map name vars' = map name (localVars s))
  /\ (forall v,
         v <> "" -> find_local (localVars s) n = None ->
         (localVarCount s < MAX_LOCAL_VARS)%nat ->
         exists vars',
           cmd_local (Some n) (Some v) s = Continue (set_localVars vars' s)
           /\ map name vars'
              = map name (localVars s) ++ [strncpy (MAX_LINE_LENGTH - 1) n])
  /\ (store_ok (localVars s) ->
      exists vars',
        cmd_local (Some n) None s = Continue (set_localVars vars' s)
        /\ map name vars'
           = filter (fun m => negb (m =? n)%string) (map name (localVars s)))
  /\ (exists evs,
         cmd_vars s = Continue (emit evs s)
         /\ evs = map (fun x => Stdout (name x ++ "=" ++ value x ++ nl)%string)
                      (localVars s)).
Proof.
  split; [|split; [|split]].
  - intros v found Nv F. unfold cmd_local.
    replace (is_null (Some v) || str_is (Some v) "") with false
      by (symmetry; cbn [is_null str_is orb]; apply String.eqb_neq; exact Nv).
    rewrite F. eexists. split; [reflexivity|].
    destruct (find_local_split _ _ _ F) as (pre & x & post & E & L & Nx & _).
    rewrite E. subst found. rewrite update_value_at_middle.
    rewrite !map_app. reflexivity.
  - intros v Nv F Room. unfold cmd_local.
    replace (is_null (Some v) || str_is (Some v) "") with false
      by (symmetry; cbn [is_null str_is orb]; apply String.eqb_neq; exact Nv).
    rewrite F.
    replace (localVarCount s <? MAX_LOCAL_VARS)%nat with true
      by (symmetry; apply Nat.ltb_lt; exact Room).
    eexists. split; [reflexivity|]. rewrite map_app. reflexivity.
  - intros [ND _]. unfold cmd_local. cbn [is_null orb].
    destruct (find_local (localVars s) n) as [found|] eqn:F.
    + eexists. split; [reflexivity|].
      destruct (find_local_split _ _ _ F) as (pre & x & post & E & L & Nx & Fresh).
      rewrite E in *. subst found. rewrite remove_at_middle.
      rewrite !map_app in *. cbn [map] in *. rewrite Nx in *.
      pose proof (NoDup_remove_2 _ _ _ ND) as Out.
      rewrite filter_app. cbn [filter]. rewrite String.eqb_refl. cbn [negb].
      rewrite !filter_out_fresh; [reflexivity| |exact Fresh].
      intros I. apply Out. apply in_or_app. right. exact I.
    + exists (localVars s). split.
      * destruct s; reflexivity.
      * rewrite filter_out_fresh; [reflexivity|].
        apply local_value_none. exact (find_local_none _ _ F).
  - eexists. split; reflexivity.
Qed.

Lemma store_keeps_insertion_order_witness :
  exists vars',
    cmd_local (Some "BAR") (Some "1") sample_shell
    = Continue (set_localVars vars' sample_shell)
    /\ map name vars' = ["FOO"; "BAR"].
Proof.
  destruct (store_keeps_insertion_order "BAR" sample_shell) as (_ & New & _).
  destruct (New "1") as (vars' & Run & Names).
  - discriminate.
  - reflexivity.
  - vm_compute. lia.
  - exists vars'. split; [exact Run | exact Names].
Defined.

(** X19: [set_local_var], which nothing calls, would do what [cmd_local]
    does for a name and a non-empty value of at most
    [MAX_LINE_LENGTH - 1] characters each; on the empty value the two
    differ: [set_local_var] binds the name to the empty string where
    [cmd_local] removes it. *)
Theorem set_local_var_agrees_with_local (n v : string) (s : Shell) :
  (String.length n <= MAX_LINE_LENGTH - 1)%nat ->
  (String.length v <= MAX_LINE_LENGTH - 1)%nat ->
  (v <> "" ->
   exists vars',
     set_local_var n v (localVars s) = Some vars'
     /\ cmd_local (Some n) (Some v) s = Continue (set_localVars vars' s))
  /\ (forall found,
         find_local (localVars s) n = Some found ->
         exists vars',
           set_local_var n "" (localVars s) = Some vars'
           /\ local_value vars' n = Some ""
           /\ cmd_local (Some n) (Some "") s
              = Continue (set_localVars (remove_at found (localVars s)) s)).
Proof.
  intros Ln Lv.
  assert (Ln' : (String.length n <? MAX_LINE_LENGTH)%nat = true).
  { apply Nat.ltb_lt. unfold MAX_LINE_LENGTH in *. lia. }
  assert (Lv' : (String.length v <? MAX_LINE_LENGTH)%nat = true).
  { apply Nat.ltb_lt. unfold MAX_LINE_LENGTH in *. lia. }
  assert (Cut : forall x, (String.length x <= MAX_LINE_LENGTH - 1)%nat ->
                          strncpy MAX_LINE_LENGTH x = strncpy (MAX_LINE_LENGTH - 1) x).
  { intros x Lx. rewrite !strncpy_short; [reflexivity | exact Lx |].
    unfold MAX_LINE_LENGTH in *. lia. }
  split.
  - intros Nv. unfold set_local_var, cmd_local.
    replace (is_null (Some v) || str_is (Some v) "") with false
      by (symmetry; cbn [is_null str_is orb]; apply String.eqb_neq; exact Nv).
    destruct (find_local (localVars s) n) as [found|].
    + rewrite Lv'. eexists. split; [reflexivity|]. rewrite (Cut v Lv). reflexivity.
    + unfold localVarCount. destruct (length (localVars s) <? MAX_LOCAL_VARS)%nat.
      * rewrite Ln', Lv'. cbn [andb]. eexists. split; [reflexivity|].
        rewrite (Cut v Lv), (Cut n Ln). reflexivity.
      * eexists. split; [reflexivity|]. destruct s; reflexivity.
  - intros found F. unfold set_local_var, cmd_local. rewrite F.
    cbn [is_null str_is orb String.eqb String.length Nat.ltb Nat.leb].
    eexists. split; [reflexivity|]. split; [|reflexivity].
    destruct (find_local_split _ _ _ F) as (pre & x & post & E & L & Nx & Fresh).
    rewrite E. subst found. rewrite update_value_at_middle.
    rewrite local_value_app. apply local_value_none in Fresh. rewrite Fresh.
    rewrite local_value_cons. cbn [name value]. rewrite Nx, String.eqb_refl.
    reflexivity.
Qed.

Lemma set_local_var_agrees_witness :
  exists vars',
    set_local_var "FOO" "baz" (localVars sample_shell) = Some vars'
    /\ cmd_local (Some "FOO") (Some "baz") sample_shell
       = Continue (set_localVars vars' sample_shell).
Proof.
  destruct (set_local_var_agrees_with_local "FOO" "baz" sample_shell)
    as [Agree _].
  - vm_compute. lia.
  - vm_compute. lia.
  - apply Agree. discriminate.
Defined.

End StoreOrder.

(** ** Each built-in changes its own part of the state *)

Section Frames.

Variable os : OS.

Lemma recall_on_recorded_ring (n : nat) (k : Z) (s s' : Shell) :
  forallb recallable (history (sh_history s)) = true ->
  execute_history_command (parse_and_execute os n) k s = Continue s' ->
  exists evs, s' = emit evs s.
Proof.
  intros Rec Run.
  destruct ((k <? 1) || (k >? current_history_count (sh_history s))) eqn:Out.
  - unfold execute_history_command in Run. rewrite Out in Run.
    inversion Run. eexists. reflexivity.
  - apply orb_false_elim in Out. destruct Out as [O1 O2].
    apply Z.ltb_ge in O1. rewrite Z.gtb_ltb in O2. apply Z.ltb_ge in O2.
    assert (R : 1 <= k <= current_history_count (sh_history s)) by lia.
    assert (Rk : recallable (history_at (sh_history s)
                               (current_history_count (sh_history s) - k)) = true).
    { rewrite forallb_forall in Rec. apply Rec. apply history_at_in. exact R. }
    destruct n as [|m].
    + unfold execute_history_command in Run.
      replace ((k <? 1) || (k >? current_history_count (sh_history s)))
        with false in Run
        by (symmetry; apply orb_false_intro;
            [apply Z.ltb_ge; lia | rewrite Z.gtb_ltb; apply Z.ltb_ge; lia]).
      discriminate Run.
    + pose proof (recall_of_recorded os m k s R Rk) as H.
      rewrite Run in H. exact H.
Qed.

Lemma built_in_command_frame (n : nat) (argv : list string) (s s' : Shell) :
  forallb recallable (history (sh_history s)) = true ->
  built_in_command os (parse_and_execute os n) argv s = Continue s' ->
  (arg 0 argv <> Some "cd" -> cwd s' = cwd s)
  /\ (arg 0 argv <> Some "export" -> environ s' = environ s)
  /\ (arg 0 argv <> Some "local" -> localVars s' = localVars s)
  /\ (arg 0 argv <> Some "history" -> sh_history s' = sh_history s).
Proof.
  intros Rec. unfold built_in_command.
  destruct (arg 0 argv) as [a0|]; [|discriminate].
  assert (Same : forall evs, Continue (emit evs s) = Continue s' ->
                 (Some a0 <> Some "cd" -> cwd s' = cwd s)
                 /\ (Some a0 <> Some "export" -> environ s' = environ s)
                 /\ (Some a0 <> Some "local" -> localVars s' = localVars s)
                 /\ (Some a0 <> Some "history" -> sh_history s' = sh_history s)).
  { intros evs E. inversion E. repeat split; reflexivity. }
  assert (Same0 : Continue s = Continue s' ->
                 (Some a0 <> Some "cd" -> cwd s' = cwd s)
                 /\ (Some a0 <> Some "export" -> environ s' = environ s)
                 /\ (Some a0 <> Some "local" -> localVars s' = localVars s)
                 /\ (Some a0 <> Some "history" -> sh_history s' = sh_history s)).
  { intros E. inversion E. repeat split; reflexivity. }
  destruct (String.eqb_spec a0 "exit") as [->|_].
  { unfold cmd_exit. destruct (negb _); [apply Same | discriminate]. }
  destruct (String.eqb_spec a0 "cd") as [->|_].
  { unfold cmd_cd. destruct (arg 1 argv) as [p|]; [|apply Same].
    destruct (os_chdir os (cwd s) p); [|apply Same].
    intros E. inversion E. repeat split; try reflexivity. intros C. congruence. }
  destruct (String.eqb_spec a0 "history") as [->|_].
  { unfold cmd_history_control.
    assert (Recall : forall k,
               execute_history_command (parse_and_execute os n) k s = Continue s' ->
               (Some "history" <> Some "cd" -> cwd s' = cwd s)
               /\ (Some "history" <> Some "export" -> environ s' = environ s)
               /\ (Some "history" <> Some "local" -> localVars s' = localVars s)
               /\ (Some "history" <> Some "history" -> sh_history s' = sh_history s)).
    { intros k E. destruct (recall_on_recorded_ring n k s s' Rec E) as [evs Ev].
      subst s'. repeat split; reflexivity. }
    destruct (arg 1 argv) as [a1|]; [|apply Same].
    destruct (arg 2 argv) as [a2|]; [|apply Recall].
    destruct (a1 =? "set")%string; [|apply Recall].
    destruct (set_history_size os (trace s) (atoi a2) (sh_history s)) as [h printed].
    intros E. inversion E. repeat split; try reflexivity. intros C. congruence. }
  destruct (String.eqb_spec a0 "export") as [->|_]; cbn [andb].
  { destruct (negb (is_null (arg 1 argv)));
      [|destruct (String.eqb_spec "export" "local") as [C|_]; [discriminate C|];
        cbn [andb]; change ("export" =? "vars")%string with false; exact Same0].
    destruct (arg 1 argv) as [a1|]; [|exact Same0].
    destruct (split_assignment a1) as [nm v]. unfold cmd_export.
    destruct nm as [nm|]; [|apply Same].
    destruct (is_null v || str_is v "").
    - destruct (unsetenv nm (environ s)); [|apply Same].
      intros E. inversion E. repeat split; try reflexivity. intros C. congruence.
    - destruct v as [val|]; [|exact Same0].
      destruct (setenv nm val (environ s)); [|apply Same].
      intros E. inversion E. repeat split; try reflexivity. intros C. congruence. }
  destruct (String.eqb_spec a0 "local") as [->|_]; cbn [andb].
  { destruct (negb (is_null (arg 1 argv)));
      [|change ("local" =? "vars")%string with false; exact Same0].
    destruct (arg 1 argv) as [a1|]; [|exact Same0].
    destruct (split_assignment a1) as [nm v]. unfold cmd_local.
    assert (Store : forall vars, Continue (set_localVars vars s) = Continue s' ->
                 (Some "local" <> Some "cd" -> cwd s' = cwd s)
                 /\ (Some "local" <> Some "export" -> environ s' = environ s)
                 /\ (Some "local" <> Some "local" -> localVars s' = localVars s)
                 /\ (Some "local" <> Some "history" -> sh_history s' = sh_history s)).
    { intros vars E. inversion E. repeat split; try reflexivity. intros C. congruence. }
    destruct (is_null v || str_is v "").
    - destruct nm as [nm|].
      + destruct (find_local (localVars s) nm); [apply Store | exact Same0].
      + destruct (localVars s); [exact Same0 | discriminate].
    - destruct nm as [nm|]; [|discriminate]. destruct v as [val|]; [|discriminate].
      destruct (find_local (localVars s) nm); [apply Store|].
      destruct (localVarCount s <? MAX_LOCAL_VARS)%nat; [apply Store | exact Same0]. }
  destruct (a0 =? "vars")%string; [apply Same | exact Same0].
Qed.

(** X20: on a ring of recorded lines a line that returns has changed only
    what its command is for.  With [a0] the first token [process_input]
    finds: the working directory is as before unless [a0] is [cd], the
    environment unless [a0] is [export], the variable store unless [a0] is
    [local]; a line that starts with a built-in leaves the ring and its
    flags as they were unless [a0] is [history]; and a line that does not
    start with a built-in changes none of the directory, the environment
    and the store. *)
Theorem commands_change_only_their_own_part (fuel : nat) (line : string)
    (s s' : Shell) :
  forallb recallable (history (sh_history s)) = true ->
  parse_and_execute os fuel line s = Continue s' ->
  (arg 0 (fst (process_input (strip_newline line) false)) <> Some "cd" ->
   cwd s' = cwd s)
  /\ (arg 0 (fst (process_input (strip_newline line) false)) <> Some "export" ->
      environ s' = environ s)
  /\ (arg 0 (fst (process_input (strip_newline line) false)) <> Some "local" ->
      localVars s' = localVars s)
  /\ (builtin_line line = true ->
      arg 0 (fst (process_input (strip_newline line) false)) <> Some "history" ->
      sh_history s' = sh_history s)
  /\ (builtin_line line = false ->
      cwd s' = cwd s /\ environ s' = environ s /\ localVars s' = localVars s).
Proof.
  intros Rec Run.
  destruct fuel as [|n]; [discriminate Run|].
  rewrite parse_and_execute_step in Run.
  destruct (string_dec line "") as [->|NE]; [discriminate Run|].
  destruct (first_token (strip_newline line)) as [t|] eqn:FT.
  2:{ pose proof (parse_and_execute_no_token os (parse_and_execute os n) line s FT) as H.
      rewrite Run in H. destruct H. }
  destruct (isBuiltInCommand t) eqn:BI.
  - assert (B : builtin_line line = true).
    { unfold builtin_line. rewrite FT. exact BI. }
    rewrite (parse_and_execute_builtin os _ line t s NE FT BI) in Run.
    destruct (negb (t =? "history")%string || _).
    + destruct (built_in_command_frame n _ s s' Rec Run) as (C & E & L & H).
      split; [exact C|]. split; [exact E|]. split; [exact L|].
      split; [intros _; exact H|].
      intros B'. rewrite B in B'. discriminate B'.
    + inversion Run.
      split; [reflexivity|]. split; [reflexivity|]. split; [reflexivity|].
      split; [reflexivity|].
      intros B'. rewrite B in B'. discriminate B'.
  - assert (B : builtin_line line = false).
    { unfold builtin_line. rewrite FT. exact BI. }
    rewrite (parse_and_execute_external os _ line t s NE FT BI) in Run.
    pose proof (dispatch_external_frame os (strip_newline line) s) as Fr.
    destruct (dispatch_external os (strip_newline line) s) as [s1 | st s1 | | ];
      cbn [bind] in Run; try discriminate Run.
    destruct Fr as [evs E1]. subst s1.
    destruct (add_to_history _ _) as [h|]; [|discriminate Run].
    inversion Run.
    split; [reflexivity|]. split; [reflexivity|]. split; [reflexivity|].
    split; [|intros _; repeat split; reflexivity].
    intros B'. rewrite B in B'. discriminate B'.
Qed.

End Frames.

Lemma commands_change_only_their_own_part_witness :
  exists s',
    parse_and_execute friendly_os 1 "local BAR=1" sample_shell = Continue s'
    /\ cwd s' = cwd sample_shell
    /\ environ s' = environ sample_shell
    /\ sh_history s' = sh_history sample_shell.
Proof.
  destruct (parse_and_execute friendly_os 1 "local BAR=1" sample_shell)
    as [s'| | | ] eqn:E; try (vm_compute in E; discriminate E).
  exists s'. split; [reflexivity|].
  destruct (commands_change_only_their_own_part friendly_os 1 "local BAR=1"
              sample_shell s' eq_refl E) as (C & V & _ & H & _).
  split; [|split].
  - apply C. vm_compute. discriminate.
  - apply V. vm_compute. discriminate.
  - apply H; [reflexivity|]. vm_compute. discriminate.
Defined.

(** ** Pipelines under an operating system that grants every request *)

Section GrantedPipelines.

Variable os : OS.


End GrantedPipelines.


(** ** From one line to the next *)

Section LineToLine.

Variable os : OS.

Lemma history_1_tokens :
  first_token (strip_newline "history 1") = Some "history"
  /\ process_input (strip_newline "history 1") false = (["history"; "1"], false)
  /\ atoi "1" = 1.
Proof. repeat split; vm_compute; reflexivity. Qed.

(** X22: [history 1] runs the last recorded command again.  After an
    external line has returned on a safe ring that records, and the line is
    not blank, the line [history 1] executes that same line (without its
    newline) with the recording switched off, then switches the recording
    on again; the ring is the same before and after. *)
Theorem history_1_reruns_the_last_line (fuel : nat) (line : string)
    (s s1 : Shell) :
  ring_safe (sh_history s) ->
  add_to_history_enabled (sh_history s) = true ->
  recallable line = true ->
  blank (strip_newline line) = false ->
  parse_and_execute os (S fuel) line s = Continue s1 ->
  parse_and_execute os (S (S fuel)) "history 1" s1
  = bind (parse_and_execute os (S fuel) (strip_newline line)
            (set_history (with_enabled false (sh_history s1)) s1))
         (fun s2 =>
            Continue (set_history (with_enabled true (sh_history s2)) s2)).
Proof.
  intros Safe En Rec Bl Run.
  destruct (recallable_inv line Rec) as (NE & (t & FT & BI) & SP).
  (* what the first line left behind *)
  assert (After : newest (sh_history s1) = Some (strip_newline line)
                  /\ add_to_history_enabled (sh_history s1) = true).
  { rewrite parse_and_execute_step in Run.
    rewrite (parse_and_execute_external os _ line t s NE FT BI) in Run.
    pose proof (dispatch_external_frame os (strip_newline line) s) as Fr.
    destruct (dispatch_external os (strip_newline line) s) as [s0 | st s0 | | ];
      cbn [bind] in Run; try discriminate Run.
    destruct Fr as [evs E0]. subst s0.
    change (sh_history (emit evs s)) with (sh_history s) in Run.
    destruct (add_to_history (strip_newline line) (sh_history s)) as [h|] eqn:A;
      [|discriminate Run].
    inversion Run; subst s1. cbn [set_history sh_history].
    destruct (add_to_history_cases _ _ _ A)
      as [[E [Off | [B | N]]] | (_ & _ & _ & k & _ & E)]; subst h.
    - rewrite Off in En. discriminate En.
    - rewrite B in Bl. discriminate Bl.
    - split; [exact N | exact En].
    - split; [|exact En].
      apply (newest_app (skipn k (history (sh_history s))) _). reflexivity. }
  destruct After as [New En1].
  destruct (newest_inv _ _ New) as [older Hh].
  assert (Pos : 0 < current_history_count (sh_history s1)).
  { unfold current_history_count. rewrite Hh, length_app. simpl. lia. }
  pose proof (newest_is_last_slot _ Pos) as Slot. rewrite New in Slot.
  inversion Slot as [Slot'].
  (* the recall *)
  destruct history_1_tokens as (FT1 & PI1 & A1).
  rewrite parse_and_execute_step.
  rewrite (parse_and_execute_builtin os _ "history 1" "history" s1);
    try assumption; try discriminate; try reflexivity.
  rewrite PI1. cbn [fst arg nth_error is_null negb orb]. rewrite orb_true_r.
  unfold built_in_command. cbn [arg nth_error].
  change ("history" =? "exit")%string with false.
  change ("history" =? "cd")%string with false.
  change ("history" =? "history")%string with true. cbv iota.
  unfold cmd_history_control. cbn [arg nth_error]. rewrite A1.
  unfold execute_history_command.
  replace ((1 <? 1) || (1 >? current_history_count (sh_history s1))) with false.
  2:{ symmetry. apply orb_false_intro; [reflexivity|].
      rewrite Z.gtb_ltb. apply Z.ltb_ge. lia. }
  rewrite <- Slot', En1. reflexivity.
Qed.

End LineToLine.

Lemma history_1_reruns_witness :
  parse_and_execute friendly_os 2 "history 1"
    (set_history (mkHistory ["ls -l"; "echo $FOO"; "pwd"] MAX_HISTORY true)
                 (emit [Fork 100 (mkChild None None [] ["pwd"]); WaitPid 100]
                       sample_shell))
  = bind (parse_and_execute friendly_os 1 "pwd"
            (set_history (mkHistory ["ls -l"; "echo $FOO"; "pwd"] MAX_HISTORY false)
                         (emit [Fork 100 (mkChild None None [] ["pwd"]); WaitPid 100]
                               sample_shell)))
         (fun s2 => Continue (set_history (with_enabled true (sh_history s2)) s2)).
Proof.
  apply (history_1_reruns_the_last_line friendly_os O "pwd" sample_shell
           (set_history (mkHistory ["ls -l"; "echo $FOO"; "pwd"] MAX_HISTORY true)
              (emit [Fork 100 (mkChild None None [] ["pwd"]); WaitPid 100]
                    sample_shell))).
  - split; [split; [|split]|]; try reflexivity.
    + unfold within_capacity, current_history_count. simpl. unfold MAX_HISTORY. lia.
    + simpl. unfold MAX_HISTORY. discriminate.
  - reflexivity.
  - reflexivity.
  - reflexivity.
  - vm_compute. reflexivity.
Defined.

(** ** An assignment and the command after it *)

Section AssignmentThenUse.

Variable os : OS.

Lemma no_delim_weaken (d d' s : string) :
  (forall c, is_delim d' c = true -> is_delim d c = true) ->
  no_delim d s = true -> no_delim d' s = true.
Proof.
  intros Sub. induction s as [|c s IH]; [reflexivity|].
  cbn [no_delim]. intros H. apply andb_prop in H. destruct H as [C R].
  rewrite (IH R), andb_true_r. apply negb_true_iff in C. apply negb_true_iff.
  destruct (is_delim d' c) eqn:D; [|reflexivity].
  rewrite (Sub c D) in C. discriminate C.
Qed.

Lemma clean_token_weaken (d d' t : string) :
  (forall c, is_delim d' c = true -> is_delim d c = true) ->
  clean_token d t = true -> clean_token d' t = true.
Proof.
  intros Sub. unfold clean_token. intros H. apply andb_prop in H.
  destruct H as [NE N]. rewrite NE, (no_delim_weaken d d' t Sub N). reflexivity.
Qed.

Lemma no_delim_app (d x y : string) :
  no_delim d (x ++ y) = no_delim d x && no_delim d y.
Proof.
  induction x as [|c x IH]; [reflexivity|].
  cbn [append no_delim]. rewrite IH, andb_assoc. reflexivity.
Qed.

Lemma no_delim_strchr (d s : string) (c : ascii) :
  is_delim d c = true -> no_delim d s = true -> strchr s c = false.
Proof.
  intros D. induction s as [|a s IH]; [reflexivity|].
  cbn [no_delim strchr]. intros H. apply andb_prop in H. destruct H as [A R].
  rewrite (IH R), orb_false_r. apply negb_true_iff in A.
  destruct (Ascii.eqb_spec a c) as [E|NE]; [subst a; congruence | reflexivity].
Qed.

Lemma strncpy_app (t r : string) (k : nat) :
  strncpy (String.length t + k) (t ++ r) = (t ++ strncpy k r)%string.
Proof.
  unfold strncpy. induction t as [|c t IH]; [reflexivity|].
  cbn [String.length Nat.add append substring]. rewrite IH. reflexivity.
Qed.

(** The first token of a line that starts with a word and a blank. *)
Lemma first_token_app (t r : string) :
  clean_token (String " " (String TAB (String LF ""))) t = true ->
  (String.length t < MAX_LINE_LENGTH - 1)%nat ->
  first_token (t ++ String " " r) = Some t.
Proof.
  intros C L. unfold first_token.
  replace (MAX_LINE_LENGTH - 1)%nat
    with (String.length t + S (MAX_LINE_LENGTH - 2 - String.length t))%nat
    by (unfold MAX_LINE_LENGTH in *; lia).
  rewrite strncpy_app. unfold strncpy at 1. cbn [substring].
  rewrite (strtok_app _ t _ " " C eq_refl). reflexivity.
Qed.

(** The two words of a line [t a]. *)
Lemma process_input_pair (t a : string) :
  clean_token (" " ++ nl) t = true -> clean_token (" " ++ nl) a = true ->
  a <> "&" ->
  process_input (t ++ String " " a) false = ([t; a], false).
Proof.
  intros Ct Ca Na. unfold process_input.
  change (t ++ String " " a)%string with (join " " [t; a]).
  rewrite (strtok_loop_join (" " ++ nl) " " [t; a] eq_refl).
  - cbn [length last Nat.ltb Nat.leb andb].
    rewrite (proj2 (String.eqb_neq a "&") Na). reflexivity.
  - constructor; [exact Ct|]. constructor; [exact Ca | constructor].
  - vm_compute. lia.
Qed.

Lemma split_assignment_pair (n v : string) :
  clean_token "=" n = true -> v <> "" ->
  split_assignment (n ++ String "=" v) = (Some n, Some v).
Proof.
  intros C Nv. unfold split_assignment.
  rewrite (strtok_app "=" n v "=" C eq_refl).
  destruct v as [|c r]; [congruence|].
  rewrite (strtok_whole "" (String c r)); [reflexivity|].
  unfold clean_token. rewrite no_delim_none. reflexivity.
Qed.

(** What [cmd_local] leaves in the store for a name it can bind. *)
Lemma cmd_local_value (n v : string) (s : Shell) :
  (String.length n <= MAX_LINE_LENGTH - 1)%nat ->
  v <> "" ->
  local_value (localVars s) n <> None
  \/ (localVarCount s < MAX_LOCAL_VARS)%nat ->
  exists vars',
    cmd_local (Some n) (Some v) s = Continue (set_localVars vars' s)
    /\ local_value vars' n = Some (strncpy (MAX_LINE_LENGTH - 1) v).
Proof.
  intros Ln Nv Room. unfold cmd_local.
  replace (is_null (Some v) || str_is (Some v) "") with false.
  2:{ cbn [is_null str_is orb]. symmetry. apply String.eqb_neq. exact Nv. }
  destruct (find_local (localVars s) n) as [i|] eqn:F.
  - destruct (find_local_split _ _ _ F) as (pre & x & post & E & L & Nx & Fresh).
    eexists. split; [reflexivity|].
    rewrite E. subst i. rewrite update_value_at_middle, Nx.
    apply local_value_none in Fresh.
    rewrite local_value_app, Fresh, local_value_cons. cbn [name value].
    rewrite String.eqb_refl. reflexivity.
  - assert (R : (localVarCount s <? MAX_LOCAL_VARS)%nat = true).
    { apply Nat.ltb_lt. destruct Room as [B|R]; [|exact R].
      exfalso. apply B. exact (find_local_none _ _ F). }
    rewrite R. eexists. split; [reflexivity|].
    rewrite (strncpy_short _ n Ln).
    rewrite local_value_app, (find_local_none _ _ F), local_value_cons.
    cbn [name value]. rewrite String.eqb_refl. reflexivity.
Qed.

Lemma strncpy_nonempty (k : nat) (v : string) :
  v <> "" -> strncpy (S k) v <> "".
Proof. destruct v as [|c r]; [congruence | discriminate]. Qed.

(** The line [echo $n] in a state where [$n] resolves to [w]. *)
Lemma echo_of_marker (fuel : nat) (n w : string) (s : Shell) (p : positive) :
  clean_token (String " " (String LF "=|")) n = true ->
  ring_safe (sh_history s) ->
  substitute_variable (environ s) (localVars s) (marker n) = w ->
  w <> "" ->
  os_fork os (trace s) = Some p ->
  exists s2,
    parse_and_execute os (S fuel) ("echo $" ++ n) s = Continue s2
    /\ trace s2 = trace s ++ [Fork (Z.pos p) (mkChild None None [] ["echo"; w]);
                              WaitPid (Z.pos p)]
    /\ localVars s2 = localVars s /\ environ s2 = environ s.
Proof.
  intros Cn Safe Sub Nw Fk.
  destruct (clean_token_inv _ n Cn) as (c0 & r0 & En & Nn).
  assert (Cm : forall d, (forall c, is_delim d c = true ->
                                    is_delim (String " " (String LF "=|")) c = true) ->
                         is_delim d "$" = false ->
                         clean_token d (marker n) = true).
  { intros d Sub' D. unfold clean_token, marker. cbn [String.eqb negb andb no_delim].
    change (("$" =? "")%string) with false.
    rewrite D. cbn [negb andb].
    exact (no_delim_weaken (String " " (String LF "=|")) d n Sub' Nn). }
  assert (Line : ("echo $" ++ n)%string = ("echo" ++ String " " (marker n))%string)
    by reflexivity.
  assert (NL : strip_newline ("echo $" ++ n) = ("echo $" ++ n)%string).
  { apply strip_newline_without_newline. cbn [append strchr].
    change (Ascii.eqb "e" LF) with false. change (Ascii.eqb "c" LF) with false.
    change (Ascii.eqb "h" LF) with false. change (Ascii.eqb "o" LF) with false.
    change (Ascii.eqb " " LF) with false. change (Ascii.eqb "$" LF) with false.
    cbn [orb]. exact (no_delim_strchr (String " " (String LF "=|")) n LF eq_refl Nn). }
  assert (FT : first_token (strip_newline ("echo $" ++ n)) = Some "echo").
  { rewrite NL, Line. apply first_token_app; [reflexivity | vm_compute; lia]. }
  assert (SP : split_pipeline ("echo $" ++ n) = [("echo $" ++ n)%string]).
  { unfold split_pipeline.
    change ("echo $" ++ n)%string with (join "|" [("echo $" ++ n)%string]).
    apply strtok_loop_join; [reflexivity| |vm_compute; lia].
    constructor; [|constructor].
    unfold clean_token. cbn [append String.eqb negb andb no_delim is_delim].
    change (("e" =? "")%string) with false.
    change (Ascii.eqb "e" "|") with false. change (Ascii.eqb "c" "|") with false.
    change (Ascii.eqb "h" "|") with false. change (Ascii.eqb "o" "|") with false.
    change (Ascii.eqb " " "|") with false. change (Ascii.eqb "$" "|") with false.
    cbn [orb negb andb].
    apply (no_delim_weaken (String " " (String LF "=|")) "|" n); [|exact Nn].
    intros c. cbn [is_delim]. intros H. rewrite H. rewrite !orb_true_r. reflexivity. }
  assert (PI : process_input ("echo $" ++ n) false = (["echo"; marker n], false)).
  { rewrite Line. apply process_input_pair; [reflexivity| |].
    - apply Cm; [|reflexivity].
      intros c. unfold nl. cbn [append is_delim]. intros H.
      apply orb_prop in H. destruct H as [H|H]; [rewrite H; reflexivity|].
      apply orb_prop in H. destruct H as [H|H]; [|discriminate H].
      rewrite H, orb_true_r. reflexivity.
    - unfold marker. rewrite En. discriminate. }
  rewrite parse_and_execute_step.
  rewrite (parse_and_execute_external os _ _ "echo" s);
    [| discriminate | exact FT | reflexivity].
  rewrite NL. unfold dispatch_external. rewrite SP, PI.
  unfold execute_command. cbn [map].
  rewrite Sub.
  change (substitute_variable (environ s) (localVars s) "echo") with "echo".
  cbn [filter]. change (negb ("echo" =? "")%string) with true. cbv iota.
  rewrite (proj2 (String.eqb_neq w "") Nw). cbn [negb].
  change (isValidCommand ["echo"; w]) with (true, @nil Event).
  cbv iota. cbn [negb]. rewrite Fk. cbn [negb bind].
  match goal with
  | |- context [add_to_history ?l ?h] =>
      destruct (add_to_history_defined l h Safe) as [h' A]
  end.
  cbn [emit sh_history] in *. rewrite A.
  eexists. split; [reflexivity|].
  cbn [set_history emit trace localVars environ]. rewrite <- app_assoc.
  repeat split.
Qed.

(** X23: an assignment reaches the next command.  For a name without
    blank, newline, equals sign and bar and a value without blank and
    newline, the line [local n=v] followed by the line [echo $n] makes the
    child execute [echo] with the value, cut to [MAX_LINE_LENGTH - 1]
    characters, when the environment has no variable [n] and the table
    takes the name; the line [export n=v] followed by [echo $n] makes the
    child execute [echo] with the whole value whatever the store holds. *)
Theorem assignment_reaches_the_next_command (fuel : nat) (n v : string)
    (s : Shell) :
  clean_token (String " " (String LF "=|")) n = true ->
  clean_token (" " ++ nl) v = true ->
  ring_safe (sh_history s) ->
  (forall tr, os_fork os tr <> None) ->
  ((String.length n <= MAX_LINE_LENGTH - 1)%nat ->
   getenv (environ s) n = None ->
   local_value (localVars s) n <> None
   \/ (localVarCount s < MAX_LOCAL_VARS)%nat ->
   exists s1 s2 p,
     parse_and_execute os (S fuel) ("local " ++ n ++ "=" ++ v) s = Continue s1
     /\ parse_and_execute os (S fuel) ("echo $" ++ n) s1 = Continue s2
     /\ trace s2
        = trace s ++ [Fork (Z.pos p)
                        (mkChild None None []
                           ["echo"; strncpy (MAX_LINE_LENGTH - 1) v]);
                      WaitPid (Z.pos p)])
  /\ (exists s1 s2 p,
         parse_and_execute os (S fuel) ("export " ++ n ++ "=" ++ v) s = Continue s1
         /\ parse_and_execute os (S fuel) ("echo $" ++ n) s1 = Continue s2
         /\ trace s2
            = trace s ++ [Fork (Z.pos p) (mkChild None None [] ["echo"; v]);
                          WaitPid (Z.pos p)]).
Proof.
  intros Cn Cv Safe Forks.
  destruct (clean_token_inv _ n Cn) as (c0 & r0 & En & Nn).
  destruct (clean_token_inv _ v Cv) as (c1 & r1 & Ev & Nv).
  assert (Vne : v <> "") by (rewrite Ev; discriminate).
  assert (Ceq : clean_token "=" n = true).
  { apply (clean_token_weaken (String " " (String LF "=|")) "=" n) in Cn; [exact Cn|].
    intros c. cbn [is_delim]. intros H. apply orb_prop in H.
    destruct H as [H|H]; [|discriminate H]. rewrite H, !orb_true_r. reflexivity. }
  assert (Csp : clean_token (" " ++ nl) (n ++ String "=" v) = true).
  { unfold clean_token. apply andb_true_intro. split.
    - rewrite En. reflexivity.
    - rewrite no_delim_app. apply andb_true_intro. split.
      + apply (no_delim_weaken (String " " (String LF "=|")) (" " ++ nl) n);
          [|exact Nn].
        intros c. unfold nl. cbn [append is_delim]. intros H.
        apply orb_prop in H. destruct H as [H|H]; [rewrite H; reflexivity|].
        apply orb_prop in H. destruct H as [H|H]; [|discriminate H].
        rewrite H, orb_true_r. reflexivity.
      + change (no_delim (" " ++ nl) (String "=" v))
          with (negb (is_delim (" " ++ nl) "=") && no_delim (" " ++ nl) v).
        rewrite Nv. reflexivity. }
  assert (Namp : (n ++ String "=" v)%string <> "&").
  { rewrite En. cbn [append]. intros H. inversion H as [[Hc Hr]].
    destruct r0; discriminate Hr. }
  assert (NoLF : strchr (n ++ String "=" v) LF = false).
  { apply (no_delim_strchr (" " ++ nl)); [reflexivity|].
    apply andb_prop in Csp. apply Csp. }
  assert (Builtin : forall w : string,
             clean_token (String " " (String TAB (String LF ""))) w = true ->
             (String.length w < MAX_LINE_LENGTH - 1)%nat ->
             strchr w LF = false ->
             isBuiltInCommand w = true ->
             w <> "history" ->
             parse_and_execute os (S fuel) (w ++ String " " (n ++ String "=" v)) s
             = built_in_command os (parse_and_execute os fuel)
                 [w; (n ++ String "=" v)%string] s).
  { intros w Cw Lw Sw Bw Hw.
    assert (NL : strip_newline (w ++ String " " (n ++ String "=" v))
                 = (w ++ String " " (n ++ String "=" v))%string).
    { apply strip_newline_without_newline.
      clear - Sw NoLF. induction w as [|a w IH].
      - cbn [append strchr]. rewrite NoLF. reflexivity.
      - cbn [append strchr] in *. apply orb_false_elim in Sw.
        destruct Sw as [A R]. rewrite A, (IH R). reflexivity. }
    rewrite parse_and_execute_step.
    rewrite (parse_and_execute_builtin os _ _ w s).
    - rewrite NL. rewrite process_input_pair; [|reflexivity + idtac|exact Csp|exact Namp].
      + cbn [fst]. rewrite (proj2 (String.eqb_neq w "history") Hw). reflexivity.
      + apply (clean_token_weaken (String " " (String TAB (String LF ""))) (" " ++ nl) w) in Cw; [exact Cw|].
        intros c. unfold nl. cbn [append is_delim]. intros H.
        apply orb_prop in H. destruct H as [H|H]; [rewrite H; reflexivity|].
        apply orb_prop in H. destruct H as [H|H]; [|discriminate H].
        rewrite H, !orb_true_r. reflexivity.
    - destruct w; discriminate.
    - rewrite NL. apply first_token_app; assumption.
    - exact Bw. }
  split.
  - intros Ln Genv Room.
    destruct (cmd_local_value n v s Ln Vne Room) as (vars' & Run & Val).
    destruct (os_fork os (trace s)) as [p|] eqn:Fk; [|exfalso; exact (Forks _ Fk)].
    destruct (echo_of_marker fuel n (strncpy (MAX_LINE_LENGTH - 1) v)
                (set_localVars vars' s) p Cn Safe) as (s2 & R2 & T2 & _).
    + rewrite substitute_marker. cbn [set_localVars environ localVars].
      rewrite Genv, Val. reflexivity.
    + apply strncpy_nonempty. exact Vne.
    + exact Fk.
    + exists (set_localVars vars' s), s2, p. split; [|split; [exact R2 | exact T2]].
      change ("local " ++ n ++ "=" ++ v)%string
        with ("local" ++ String " " (n ++ String "=" v))%string.
      rewrite (Builtin "local"); try reflexivity; try discriminate;
        [|vm_compute; lia].
      unfold built_in_command. cbn [arg nth_error].
      change ("local" =? "exit")%string with false.
      change ("local" =? "cd")%string with false.
      change ("local" =? "history")%string with false.
      change ("local" =? "export")%string with false.
      change ("local" =? "local")%string with true.
      cbn [andb negb is_null]. rewrite (split_assignment_pair n v Ceq Vne).
      exact Run.
  - destruct (os_fork os (trace s)) as [p|] eqn:Fk; [|exfalso; exact (Forks _ Fk)].
    assert (U : setenv n v (environ s) = Some (add_to_environ n v (environ s))).
    { unfold setenv, env_name_ok.
      rewrite (no_delim_strchr (String " " (String LF "=|")) n "=" eq_refl Nn).
      rewrite En. reflexivity. }
    destruct (echo_of_marker fuel n v
                (set_environ (add_to_environ n v (environ s)) s) p Cn Safe)
      as (s2 & R2 & T2 & _).
    + rewrite substitute_marker. cbn [set_environ environ localVars].
      rewrite (getenv_setenv_same n v _ _ U). reflexivity.
    + exact Vne.
    + exact Fk.
    + exists (set_environ (add_to_environ n v (environ s)) s), s2, p.
      split; [|split; [exact R2 | exact T2]].
      change ("export " ++ n ++ "=" ++ v)%string
        with ("export" ++ String " " (n ++ String "=" v))%string.
      rewrite (Builtin "export"); try reflexivity; try discriminate;
        [|vm_compute; lia].
      unfold built_in_command. cbn [arg nth_error].
      change ("export" =? "exit")%string with false.
      change ("export" =? "cd")%string with false.
      change ("export" =? "history")%string with false.
      change ("export" =? "export")%string with true.
      cbn [andb negb is_null]. rewrite (split_assignment_pair n v Ceq Vne).
      unfold cmd_export.
      replace (is_null (Some v) || str_is (Some v) "") with false.
      * rewrite U. reflexivity.
      * cbn [is_null str_is orb]. symmetry. apply String.eqb_neq. exact Vne.
Qed.

End AssignmentThenUse.

Lemma assignment_reaches_witness :
  exists s1 s2 p,
    parse_and_execute friendly_os 1 "local GREETING=hello" sample_shell
    = Continue s1
    /\ parse_and_execute friendly_os 1 "echo $GREETING" s1 = Continue s2
    /\ trace s2 = [Fork (Z.pos p) (mkChild None None [] ["echo"; "hello"]);
                   WaitPid (Z.pos p)].
Proof.
  assert (Safe : ring_safe (sh_history sample_shell)).
  { split; [split; [|split]|]; try reflexivity.
    - unfold within_capacity, current_history_count. simpl. unfold MAX_HISTORY. lia.
    - simpl. unfold MAX_HISTORY. discriminate. }
  assert (Forks : forall tr, os_fork friendly_os tr <> None) by discriminate.
  destruct (assignment_reaches_the_next_command friendly_os O "GREETING" "hello"
              sample_shell eq_refl eq_refl Safe Forks) as [Local _].
  destruct Local as (s1 & s2 & p & A & B & C).
  - vm_compute. lia.
  - reflexivity.
  - right. vm_compute. lia.
  - exists s1, s2, p. split; [exact A|]. split; [exact B | exact C].
Defined.
